(** * The discovery and extraction pipeline of the job scraper

    A shallow embedding of [src/scraper/browser.py], [src/scraper/discovery.py],
    [src/scraper/extractor.py], the scrape command of [src/cli/commands.py] and
    the parts of [src/storage/database.py] and [src/storage/models.py] they
    use.

    Conventions.
    - A Python [str] is represented by its UTF-8 encoding, a [string] of
      bytes, so [url.encode()] is the identity on the representation.
    - A Python [int] is a [Z]; [len] is [Z.of_nat (length _)].
    - Everything the program calls outside the repository (Playwright,
      [urllib.parse.urljoin], the clock) is answered by an environment
      [Env]; every call on the browser is appended to a trace, and the
      environment's answer may depend on the whole trace so far.
    - [hashlib.sha256] is the function of FIPS 180-4 and is written out. *)

From Stdlib Require Import ZArith Lia List String Ascii Bool.
From stdpp Require Import base strings list gmap.
Import ListNotations.

(** ** Python strings *)

Module PyStr.
Local Open Scope string_scope.

(** [s.startswith(p)] *)
Definition startswith (s p : string) : bool := String.prefix p s.

(** Truth value of a string: [bool(s)]. *)
Definition truthy (s : string) : bool :=
  match s with EmptyString => false | String _ _ => true end.

(** [s.replace(' ', '+')] *)
Fixpoint replace_space_plus (s : string) : string :=
  match s with
  | EmptyString => EmptyString
  | String c s' =>
      String (if Ascii.eqb c " "%char then "+"%char else c) (replace_space_plus s')
  end.

(** The characters [str.isspace] accepts, in UTF-8: U+0009..U+000D,
    U+001C..U+0020, U+0085, U+00A0, U+1680, U+2000..U+200A, U+2028, U+2029,
    U+202F, U+205F, U+3000. *)
Definition bytes_str (l : list nat) : string :=
  fold_right (fun n s => String (ascii_of_nat n) s) EmptyString l.

Definition whitespace : list string :=
  map bytes_str
    ([[9]; [10]; [11]; [12]; [13]; [28]; [29]; [30]; [31]; [32];
      [194; 133]; [194; 160]; [225; 154; 128]]
     ++ map (fun k => [226; 128; 128 + k]) (seq 0 11)
     ++ [[226; 128; 168]; [226; 128; 169]; [226; 128; 175];
         [226; 129; 159]; [227; 128; 128]])%list.

Fixpoint drop (n : nat) (s : string) : string :=
  match n, s with
  | S n', String _ s' => drop n' s'
  | _, _ => s
  end.

Fixpoint rev_acc (s acc : string) : string :=
  match s with
  | EmptyString => acc
  | String c s' => rev_acc s' (String c acc)
  end.
Definition rev (s : string) : string := rev_acc s EmptyString.

(** One whitespace character at the front of [s], if any: the rest. *)
Definition strip_one (ws : list string) (s : string) : option string :=
  match List.find (fun w => String.prefix w s) ws with
  | Some w => Some (drop (String.length w) s)
  | None => None
  end.

Fixpoint lstrip_with (ws : list string) (fuel : nat) (s : string) : string :=
  match fuel with
  | O => s
  | S fuel' =>
      match strip_one ws s with
      | Some s' => lstrip_with ws fuel' s'
      | None => s
      end
  end.

Definition lstrip (s : string) : string :=
  lstrip_with whitespace (String.length s) s.
Definition rstrip (s : string) : string :=
  rev (lstrip_with (map rev whitespace) (String.length s) (rev s)).

(** [s.strip()] *)
Definition strip (s : string) : string := rstrip (lstrip s).

End PyStr.

(** ** SHA-256 (FIPS 180-4), as [hashlib.sha256(...).hexdigest()] computes it *)

Module Sha256.
Local Open Scope Z_scope.

Definition wrap32 (x : Z) : Z := x mod 4294967296.
Definition add32 (a b : Z) : Z := wrap32 (a + b).
Definition rotr (n x : Z) : Z :=
  Z.lor (Z.shiftr x n) (wrap32 (Z.shiftl x (32 - n))).
Definition xor3 (a b c : Z) : Z := Z.lxor (Z.lxor a b) c.

Definition bsig0 x := xor3 (rotr 2 x) (rotr 13 x) (rotr 22 x).
Definition bsig1 x := xor3 (rotr 6 x) (rotr 11 x) (rotr 25 x).
Definition ssig0 x := xor3 (rotr 7 x) (rotr 18 x) (Z.shiftr x 3).
Definition ssig1 x := xor3 (rotr 17 x) (rotr 19 x) (Z.shiftr x 10).
Definition ch x y z := Z.lxor (Z.land x y) (Z.land (Z.lxor x 0xffffffff) z).
Definition maj x y z := xor3 (Z.land x y) (Z.land x z) (Z.land y z).

(** The first [n] primes, by trial division among the candidates from
    [candidate] on. *)
Fixpoint primes_from (fuel n : nat) (candidate : Z) (found : list Z) : list Z :=
  match fuel, n with
  | S fuel', S n' =>
      if forallb (fun p => negb (Z.eqb (candidate mod p) 0)) found
      then primes_from fuel' n' (candidate + 1) (found ++ [candidate])
      else primes_from fuel' n (candidate + 1) found
  | _, _ => found
  end.

Definition first_primes (n : nat) : list Z := primes_from 400 n 2 [].

(** The integer cube root of [x], for [x] below [2 ^ (3 * bits)]. *)
Fixpoint cube_root (bits : nat) (x r : Z) : Z :=
  match bits with
  | O => r
  | S b =>
      let r' := r + 2 ^ Z.of_nat b in
      cube_root b x (if Z.leb (r' * r' * r') x then r' else r)
  end.

(** The round constants: the first 32 bits of the fractional parts of the
    cube roots of the first 64 primes. *)
Definition K : list Z :=
  Eval vm_compute in
    map (fun p => wrap32 (cube_root 36 (p * 2 ^ 96) 0)) (first_primes 64).

(** The initial hash value: the first 32 bits of the fractional parts of
    the square roots of the first 8 primes. *)
Definition H0 : list Z :=
  Eval vm_compute in
    map (fun p => wrap32 (Z.sqrt (p * 2 ^ 64))) (first_primes 8).

Definition bytes_of (s : string) : list Z :=
  map (fun c => Z.of_nat (nat_of_ascii c)) (list_ascii_of_string s).

(** Big-endian bytes of [x], [n] of them. *)
Fixpoint be_bytes (n : nat) (x : Z) (acc : list Z) : list Z :=
  match n with
  | O => acc
  | S n' => be_bytes n' (x / 256) (x mod 256 :: acc)
  end.

(** The message, a 1 bit, zeros up to 56 modulo 64, the bit length on 8 bytes. *)
Definition pad (msg : list Z) : list Z :=
  let len := Z.of_nat (length msg) in
  msg ++ [128] ++ repeat 0 (Z.to_nat ((55 - len) mod 64)) ++ be_bytes 8 (8 * len) [].

Fixpoint words (fuel : nat) (bs : list Z) : list Z :=
  match fuel, bs with
  | S fuel', b0 :: b1 :: b2 :: b3 :: rest =>
      (((b0 * 256 + b1) * 256 + b2) * 256 + b3) :: words fuel' rest
  | _, _ => []
  end.

(** The message schedule, most recent word first. *)
Fixpoint schedule (n : nat) (rw : list Z) : list Z :=
  match n with
  | O => rw
  | S n' =>
      let w := add32 (add32 (ssig1 (nth 1 rw 0)) (nth 6 rw 0))
                     (add32 (ssig0 (nth 14 rw 0)) (nth 15 rw 0)) in
      schedule n' (w :: rw)
  end.

Definition round (st : list Z) (kw : Z * Z) : list Z :=
  match st with
  | [a; b; c; d; e; f; g; h] =>
      let t1 := add32 (add32 (add32 h (bsig1 e)) (add32 (ch e f g) (fst kw))) (snd kw) in
      let t2 := add32 (bsig0 a) (maj a b c) in
      [add32 t1 t2; a; b; c; add32 d t1; e; f; g]
  | _ => st
  end.

Fixpoint add_words (xs ys : list Z) : list Z :=
  match xs, ys with
  | x :: xs', y :: ys' => add32 x y :: add_words xs' ys'
  | _, _ => []
  end.

Definition compress (h : list Z) (block : list Z) : list Z :=
  let w := List.rev (schedule 48 (List.rev (words 16 block))) in
  add_words h (fold_left round (combine K w) h).

Fixpoint blocks (fuel : nat) (h : list Z) (bs : list Z) : list Z :=
  match fuel, bs with
  | S fuel', _ :: _ => blocks fuel' (compress h (firstn 64 bs)) (skipn 64 bs)
  | _, _ => h
  end.

Definition digest_words (msg : list Z) : list Z :=
  let p := pad msg in blocks (length p) H0 p.

(** The digest as one 256-bit number, first word most significant. *)
Definition digest (msg : list Z) : Z :=
  fold_left (fun acc w => acc * 4294967296 + w) (digest_words msg) 0.

Definition hex_char (d : Z) : ascii :=
  nth (Z.to_nat d) (list_ascii_of_string "0123456789abcdef") "0"%char.

Fixpoint hex (n : nat) (x : Z) (acc : string) : string :=
  match n with
  | O => acc
  | S n' => hex n' (x / 16) (String (hex_char (x mod 16)) acc)
  end.

Definition hexdigest (s : string) : string := hex 64 (digest (bytes_of s)) EmptyString.

End Sha256.

(** ** Results and exceptions *)

(** The outcome of a Python call: a value, or a raised [Exception] with its
    [str(e)].  Only instances of [Exception] are modelled: they are what
    [except Exception] catches. *)
Inductive Res (A : Type) : Type :=
| Ok (a : A)
| Raise (msg : string).
Arguments Ok {A} a.
Arguments Raise {A} msg.

Definition res_bind {A B} (r : Res A) (f : A -> Res B) : Res B :=
  match r with
  | Ok a => f a
  | Raise e => Raise e
  end.

Definition is_ok {A} (r : Res A) : bool :=
  match r with Ok _ => true | Raise _ => false end.

(** [d[key]] on a dict: [KeyError] when the key is missing. *)
Definition getitem (d : gmap string string) (key : string) : Res string :=
  match d !! key with
  | Some v => Ok v
  | None => Raise key
  end.

(** [key in d and d[key]] *)
Definition configured (d : gmap string string) (key : string) : option string :=
  match d !! key with
  | Some v => if PyStr.truthy v then Some v else None
  | None => None
  end.

(** ** src/storage/models.py *)

Record Company := {
  company_id_of : option Z;
  name : string;
  careers_url : string;
  selectors : gmap string string;
  active : bool;
  last_scraped : option string
}.

Record JobDiscovered := {
  url : string;
  title : string;
  location : option string;
  team : option string;
  url_hash : string;
  search_category : option string
}.

Record Job := {
  id : option Z;
  company_id : Z;
  job_url : string;
  job_url_hash : string;
  job_title : string;
  job_team : option string;
  job_location : option string;
  employment_type : option string;
  experience_level : option string;
  raw_description : option string;
  scraped_at : option string;
  processed : bool
}.

(** A row of the [scrape_runs] table. *)
Record ScrapeRun := {
  run_id : Z;
  run_company_id : option Z;
  search_term : option string;
  started_at : option string;
  completed_at : option string;
  jobs_discovered : Z;
  jobs_scraped : Z;
  status : option string;
  error_message : option string
}.

(** ** The browser, the environment and the state of a run *)

(** The calls the program makes on Playwright objects. *)
Inductive Call : Type :=
| CPlaywrightStart
| CLaunch (headless : bool)
| CNewContext
| CNewPage
| CSetDefaultTimeout (ms : Z)
| CPageClose
| CContextClose
| CBrowserClose
| CPlaywrightStop
| CGoto (target wait_until : string) (timeout : Z)
| CWaitForTimeout (ms : Z)
| CWaitForSelector (selector : string) (state : option string) (timeout : Z)
| CEvaluate (js : string)
| CQuerySelectorAll (selector : string)
| CQuerySelector (selector : string).

(** An element found on a page: its text and its attributes. *)
Record Node := {
  inner_text : Res string;
  get_attribute : string -> Res (option string)
}.

(** A job card: an element in which sub-elements are looked up. *)
Record Card := {
  card_query_selector : string -> Res (option Node)
}.

Record Settings := {
  scraper_headless : bool;
  scraper_scroll_pause : Z;
  scraper_timeout : Z
}.

(** What lies outside the repository.  The first argument of an answer is
    the trace of the calls made before this one. *)
Record Env := {
  settings : Settings;
  effect : list Call -> Call -> Res unit;
  elements : list Call -> string -> Res (list Card);
  element : list Call -> string -> Res (option Node);
  urljoin : string -> string -> Res string;
  now : list Call -> string
}.

(** The tables of [src/storage/database.py] that the scrape command uses. *)
Record Database := {
  companies : list Company;
  jobs : list Job;
  scrape_runs : list ScrapeRun
}.

Record State := {
  calls : list Call;
  db : Database
}.

(** A computation that reads and changes the state and may raise; the state
    reached when it raises is kept. *)
Definition M (A : Type) : Type := State -> Res A * State.

Definition ret {A} (a : A) : M A := fun s => (Ok a, s).
Definition raise {A} (msg : string) : M A := fun s => (Raise msg, s).
Definition bind {A B} (m : M A) (f : A -> M B) : M B :=
  fun s =>
    match m s with
    | (Ok a, s') => f a s'
    | (Raise e, s') => (Raise e, s')
    end.
Definition lift {A} (r : Res A) : M A := fun s => (r, s).

(** [try: m  except Exception as e: handler e] *)
Definition try_except {A} (m : M A) (handler : string -> M A) : M A :=
  fun s =>
    match m s with
    | (Ok a, s') => (Ok a, s')
    | (Raise e, s') => handler e s'
    end.

Declare Scope monad_scope.
Delimit Scope monad_scope with monad.
Notation "'do' x <- m ; k" := (bind m (fun x => k))
  (at level 10, x name, m at level 100, k at level 200, only parsing)
  : monad_scope.
Notation "'doR' x <- r ; k" := (res_bind r (fun x => k))
  (at level 10, x name, r at level 100, k at level 200, only parsing)
  : monad_scope.
Local Open Scope monad_scope.

(** A call whose result is not used: it is recorded, and the environment
    says whether it raises. *)
Definition perform (env : Env) (c : Call) : M unit :=
  fun s => (effect env (calls s) c, {| calls := calls s ++ [c]; db := db s |}).

(** [page.query_selector_all(selector)] *)
Definition query_selector_all (env : Env) (selector : string) : M (list Card) :=
  fun s => (elements env (calls s) selector,
            {| calls := calls s ++ [CQuerySelectorAll selector]; db := db s |}).

(** [page.query_selector(selector)] *)
Definition query_selector (env : Env) (selector : string) : M (option Node) :=
  fun s => (element env (calls s) selector,
            {| calls := calls s ++ [CQuerySelector selector]; db := db s |}).

(** ** src/scraper/browser.py *)

Inductive Handle : Type := Acquired.

Record BrowserManager := {
  playwright : option Handle;
  browser : option Handle;
  context : option Handle;
  page : option Handle
}.

(** [BrowserManager()] *)
Definition new_manager : BrowserManager :=
  {| playwright := None; browser := None; context := None; page := None |}.

(** [BrowserManager.start]: the outcome and [self] as the call leaves it. *)
Definition start (env : Env) (self : BrowserManager)
  : State -> Res unit * BrowserManager * State :=
  fun s =>
    match perform env CPlaywrightStart s with
    | (Raise e, s1) => (Raise e, self, s1)
    | (Ok _, s1) =>
      let self1 := {| playwright := Some Acquired; browser := browser self;
                      context := context self; page := page self |} in
      match perform env (CLaunch (scraper_headless (settings env))) s1 with
      | (Raise e, s2) => (Raise e, self1, s2)
      | (Ok _, s2) =>
        let self2 := {| playwright := playwright self1; browser := Some Acquired;
                        context := context self1; page := page self1 |} in
        match perform env CNewContext s2 with
        | (Raise e, s3) => (Raise e, self2, s3)
        | (Ok _, s3) =>
          let self3 := {| playwright := playwright self2; browser := browser self2;
                          context := Some Acquired; page := page self2 |} in
          match perform env CNewPage s3 with
          | (Raise e, s4) => (Raise e, self3, s4)
          | (Ok _, s4) =>
            let self4 := {| playwright := playwright self3; browser := browser self3;
                            context := context self3; page := Some Acquired |} in
            match perform env (CSetDefaultTimeout (scraper_timeout (settings env))) s4 with
            | (r, s5) => (r, self4, s5)
            end
          end
        end
      end
    end.

(** [if handle: await release] *)
Definition release_if (env : Env) (h : option Handle) (c : Call) : M unit :=
  match h with
  | Some _ => perform env c
  | None => ret tt
  end.

(** [BrowserManager.close] *)
Definition close (env : Env) (self : BrowserManager) : M unit :=
  do _ <- release_if env (page self) CPageClose;
  do _ <- release_if env (context self) CContextClose;
  do _ <- release_if env (browser self) CBrowserClose;
  release_if env (playwright self) CPlaywrightStop.

(** [async with BrowserManager() as browser: body]: [__aenter__] starts the
    browser, and [__aexit__] closes it however the body ends; an exception
    of the body is raised again after the close. *)
Definition with_browser {A} (env : Env) (body : BrowserManager -> M A) : M A :=
  fun s =>
    match start env new_manager s with
    | (Raise e, _, s1) => (Raise e, s1)
    | (Ok _, mgr, s1) =>
      match body mgr s1 with
      | (r, s2) =>
        match close env mgr s2 with
        | (Ok _, s3) => (r, s3)
        | (Raise e, s3) => (Raise e, s3)
        end
      end
    end.

Definition scroll_js : string := "window.scrollTo(0, document.body.scrollHeight)".

(** [BrowserManager.scroll_to_bottom] *)
Definition scroll_to_bottom (env : Env) (pause : option Z) : M unit :=
  let pause :=
    match pause with
    | Some p => if Z.eqb p 0 then scraper_scroll_pause (settings env) else p
    | None => scraper_scroll_pause (settings env)
    end in
  do _ <- perform env (CEvaluate scroll_js);
  perform env (CWaitForTimeout (pause * 1000)).

(** The [while] loop of [infinite_scroll].  [fuel] bounds the iterations
    left; the loop variant is [max_scrolls - scroll_count].  The [try] of
    an iteration either ends the loop ([None]: the count did not change, or
    the query raised) or gives the new count.  The result is
    [(previous_count, scroll_count)] at the exit. *)
Fixpoint scroll_loop (env : Env) (selector : string) (max_scrolls : Z)
    (fuel : nat) (previous_count scroll_count : Z) : M (Z * Z) :=
  match fuel with
  | O => ret (previous_count, scroll_count)
  | S fuel' =>
    if Z.ltb scroll_count max_scrolls then
      do _ <- scroll_to_bottom env None;
      do next <- try_except
                   (do elems <- query_selector_all env selector;
                    let current_count := Z.of_nat (length elems) in
                    if Z.eqb current_count previous_count
                    then ret None
                    else ret (Some current_count))
                   (fun _ => ret None);
      match next with
      | Some current_count =>
          scroll_loop env selector max_scrolls fuel'
            current_count (scroll_count + 1)%Z
      | None => ret (previous_count, scroll_count)
      end
    else ret (previous_count, scroll_count)
  end.

(** [BrowserManager.infinite_scroll] *)
Definition infinite_scroll (env : Env) (selector : string) (max_scrolls : Z) : M Z :=
  do r <- scroll_loop env selector max_scrolls (Z.to_nat max_scrolls) 0%Z 0%Z;
  ret (fst r).

(** ** src/storage/database.py *)

(** [generate_url_hash] *)
Definition generate_url_hash (u : string) : string := Sha256.hexdigest u.

Definition set_db (s : State) (d : Database) : State :=
  {| calls := calls s; db := d |}.

(** The row id an [AUTOINCREMENT] column gives the next row. *)
Definition next_id (ids : list Z) : Z := (1 + fold_right Z.max 0 ids)%Z.

(** [Database.create_scrape_run] *)
Definition create_scrape_run (env : Env) (company : option Z) (term : string) : M Z :=
  fun s =>
    let d := db s in
    let rid := next_id (map run_id (scrape_runs d)) in
    let row := {| run_id := rid; run_company_id := company;
                  search_term := Some term;
                  started_at := Some (now env (calls s));
                  completed_at := None; jobs_discovered := 0; jobs_scraped := 0;
                  status := Some "running"%string; error_message := None |} in
    (Ok rid, set_db s {| companies := companies d; jobs := jobs d;
                         scrape_runs := scrape_runs d ++ [row] |}).

Definition truthy_opt (o : option string) : option string :=
  match o with
  | Some v => if PyStr.truthy v then Some v else None
  | None => None
  end.

(** The [UPDATE scrape_runs SET ...] that [update_scrape_run] builds, on one row. *)
Definition update_run_row (stamp : string)
    (discovered scraped : option Z) (new_status new_error : option string)
    (r : ScrapeRun) : ScrapeRun :=
  {| run_id := run_id r;
     run_company_id := run_company_id r;
     search_term := search_term r;
     started_at := started_at r;
     completed_at :=
       match truthy_opt new_status with
       | Some st => if String.eqb st "completed" then Some stamp else completed_at r
       | None => completed_at r
       end;
     jobs_discovered := default (jobs_discovered r) discovered;
     jobs_scraped := default (jobs_scraped r) scraped;
     status :=
       match truthy_opt new_status with Some st => Some st | None => status r end;
     error_message :=
       match truthy_opt new_error with Some e => Some e | None => error_message r end |}.

(** [Database.update_scrape_run] *)
Definition update_scrape_run (env : Env) (rid : Z)
    (discovered scraped : option Z) (new_status new_error : option string) : M unit :=
  fun s =>
    let d := db s in
    let upd r :=
      if Z.eqb (run_id r) rid
      then update_run_row (now env (calls s)) discovered scraped new_status new_error r
      else r in
    (Ok tt, set_db s {| companies := companies d; jobs := jobs d;
                        scrape_runs := map upd (scrape_runs d) |}).

(** [Database.update_company_last_scraped] *)
Definition update_company_last_scraped (env : Env) (cid : option Z) : M unit :=
  fun s =>
    let d := db s in
    let upd c :=
      match cid, company_id_of c with
      | Some i, Some j =>
          if Z.eqb i j
          then {| company_id_of := company_id_of c; name := name c;
                  careers_url := careers_url c; selectors := selectors c;
                  active := active c; last_scraped := Some (now env (calls s)) |}
          else c
      | _, _ => c
      end in
    (Ok tt, set_db s {| companies := map upd (companies d); jobs := jobs d;
                        scrape_runs := scrape_runs d |}).

(** [Database.job_exists] *)
Definition job_exists (h : string) : M bool :=
  fun s =>
    (Ok (Z.ltb 0 (Z.of_nat (length
           (List.filter (fun j => String.eqb (job_url_hash j) h) (jobs (db s)))))), s).

(** [Database.add_job]: the [INSERT] fails on the [UNIQUE] columns
    [job_url] and [job_url_hash]; a failed insert is rolled back. *)
Definition add_job (env : Env) (job : Job) : M Z :=
  fun s =>
    let d := db s in
    if existsb (fun j => String.eqb (job_url j) (job_url job)) (jobs d)
    then (Raise "UNIQUE constraint failed: jobs.job_url"%string, s)
    else if existsb (fun j => String.eqb (job_url_hash j) (job_url_hash job)) (jobs d)
    then (Raise "UNIQUE constraint failed: jobs.job_url_hash"%string, s)
    else
      let jid := next_id (map (fun j => default 0%Z (id j)) (jobs d)) in
      let row := {| id := Some jid; company_id := company_id job;
                    job_url := job_url job; job_url_hash := job_url_hash job;
                    job_title := job_title job; job_team := job_team job;
                    job_location := job_location job;
                    employment_type := employment_type job;
                    experience_level := experience_level job;
                    raw_description := raw_description job;
                    scraped_at := Some (now env (calls s));
                    processed := processed job |} in
      (Ok jid, set_db s {| companies := companies d; jobs := jobs d ++ [row];
                           scrape_runs := scrape_runs d |}).

(** ** Python built-ins on sequences *)

Definition len {A} (l : list A) : Z := Z.of_nat (length l).

(** [range(start, stop, step)] as a list. *)
Definition py_range (start stop step : Z) : Res (list Z) :=
  if Z.eqb step 0 then Raise "range() arg 3 must not be zero"%string
  else
    let n := (if Z.ltb 0 step
              then (stop - start + step - 1) / step
              else (start - stop - step - 1) / (- step))%Z in
    Ok (map (fun k => (start + Z.of_nat k * step)%Z) (seq 0 (Z.to_nat n))).

(** A slice bound as Python clamps it. *)
Definition clamp (n i : Z) : Z :=
  if Z.ltb i 0 then Z.max (i + n) 0 else Z.min i n.

(** [l[lo:hi]] *)
Definition py_slice {A} (l : list A) (lo hi : Z) : list A :=
  let lo' := clamp (len l) lo in
  let hi' := clamp (len l) hi in
  firstn (Z.to_nat (hi' - lo')) (skipn (Z.to_nat lo') l).

(** ** src/scraper/discovery.py *)

(** The normalisation written inline in [extract_job_from_card]: a link that
    does not start with [http] is joined to the search URL. *)
Definition normalize_url (env : Env) (base_url job_url : string) : Res string :=
  if PyStr.truthy job_url && negb (PyStr.startswith job_url "http")
  then urljoin env base_url job_url
  else Ok job_url.

(** [t = await elem.inner_text(); t.strip() if t else None] *)
Definition stripped_text (n : Node) : Res (option string) :=
  doR t <- inner_text n;
  Ok (if PyStr.truthy t then Some (PyStr.strip t) else None).

Definition optional_text (element : Card) (sels : gmap string string)
    (key : string) : Res (option string) :=
  match configured sels key with
  | Some sel =>
      doR elem <- card_query_selector element sel;
      match elem with
      | Some n => stripped_text n
      | None => Ok None
      end
  | None => Ok None
  end.

(** [extract_job_from_card] *)
Definition extract_job_from_card (env : Env) (element : Card)
    (sels : gmap string string) (base_url : string) : Res (option JobDiscovered) :=
  doR title_sel <- getitem sels "job_title";
  doR title_elem <- card_query_selector element title_sel;
  doR title <- match title_elem with
               | Some n => stripped_text n
               | None => Ok None
               end;
  doR link_sel <- getitem sels "job_link";
  doR link_elem <- card_query_selector element link_sel;
  doR job_url <- match link_elem with
                 | Some n =>
                     doR href <- get_attribute n "href";
                     match href with
                     | Some u => doR u' <- normalize_url env base_url u; Ok (Some u')
                     | None => Ok None
                     end
                 | None => Ok None
                 end;
  doR location <- optional_text element sels "job_location";
  doR team <- optional_text element sels "job_team";
  match job_url, title with
  | Some u, Some t =>
      if PyStr.truthy u && PyStr.truthy t
      then Ok (Some {| url := u; title := t; location := location; team := team;
                       url_hash := generate_url_hash u; search_category := None |})
      else Ok None
  | _, _ => Ok None
  end.

(** The loop of [discover_jobs] over the job cards. *)
Fixpoint extract_cards (env : Env) (sels : gmap string string) (search_url : string)
    (job_elements : list Card) (found : list JobDiscovered) : M (list JobDiscovered) :=
  match job_elements with
  | [] => ret found
  | element :: rest =>
      do found' <- try_except
                     (do job <- lift (extract_job_from_card env element sels search_url);
                      ret (match job with
                           | Some j => found ++ [j]
                           | None => found
                           end))
                     (fun _ => ret found);
      extract_cards env sels search_url rest found'
  end.

(** The body of the outer [try] of [discover_jobs]. *)
Definition discover_steps (env : Env) (search_url : string)
    (sels : gmap string string) : M (list JobDiscovered) :=
  do _ <- perform env (CGoto search_url "domcontentloaded" 60000);
  do _ <- perform env (CWaitForTimeout 3000);
  do job_card_selector <- lift (getitem sels "job_card");
  do appeared <- try_except
                   (do _ <- perform env (CWaitForSelector job_card_selector None 10000);
                    ret true)
                   (fun _ => ret false);
  if appeared : bool then
    do _ <- infinite_scroll env job_card_selector 20;
    do job_elements <- query_selector_all env job_card_selector;
    extract_cards env sels search_url job_elements []
  else ret [].

(** [discover_jobs] *)
Definition discover_jobs (env : Env) (search_url : string)
    (sels : gmap string string) : M (list JobDiscovered) :=
  try_except (discover_steps env search_url sels) (fun _ => ret []).

Definition set_search_category (job : JobDiscovered) (category : string) : JobDiscovered :=
  {| url := url job; title := title job; location := location job; team := team job;
     url_hash := url_hash job; search_category := Some category |}.

(** [key in all_jobs] for the dict of [discover_all_jobs_for_company], kept
    in insertion order. *)
Definition has_key (all_jobs : list (string * JobDiscovered)) (key : string) : bool :=
  existsb (fun kv => String.eqb (fst kv) key) all_jobs.

(** The loop that adds the jobs of one category to the dict. *)
Definition merge_jobs (all_jobs : list (string * JobDiscovered)) (category : string)
    (found : list JobDiscovered) : list (string * JobDiscovered) :=
  fold_left
    (fun d job =>
       if has_key d (url_hash job) then d
       else d ++ [(url_hash job, set_search_category job category)])
    found all_jobs.

Definition search_url_of (company : Company) (category : string) : string :=
  (careers_url company ++ PyStr.replace_space_plus category)%string.

(** The loop of [discover_all_jobs_for_company] over the categories. *)
Fixpoint search_categories (env : Env) (company : Company) (categories : list string)
    (all_jobs : list (string * JobDiscovered)) : M (list (string * JobDiscovered)) :=
  match categories with
  | [] => ret all_jobs
  | category :: rest =>
      do found <- discover_jobs env (search_url_of company category) (selectors company);
      search_categories env company rest (merge_jobs all_jobs category found)
  end.

(** [discover_all_jobs_for_company] *)
Definition discover_all_jobs_for_company (env : Env) (company : Company)
    (categories : list string) : M (list JobDiscovered) :=
  with_browser env (fun _ =>
    do all_jobs <- search_categories env company categories [];
    ret (map snd all_jobs)).

(** ** src/scraper/extractor.py *)

(** [t = await elem.inner_text(); t.strip()] *)
Definition text_of (n : Node) : Res string :=
  doR t <- inner_text n;
  Ok (PyStr.strip t).

(** The fallback loop over [main], [article], [body]. *)
Fixpoint fallback_description (env : Env) (fallbacks : list string)
    (fields : gmap string string) : M (gmap string string) :=
  match fallbacks with
  | [] => ret fields
  | fallback_selector :: rest =>
      do elem <- query_selector env fallback_selector;
      match elem with
      | Some n =>
          do t <- lift (text_of n);
          ret (<["raw_description"%string := t]> fields)
      | None => fallback_description env rest fields
      end
  end.

(** An optional field: looked up only when its selector is configured. *)
Definition optional_field (env : Env) (sels : gmap string string)
    (key field : string) (fields : gmap string string) : M (gmap string string) :=
  match configured sels key with
  | Some sel =>
      do elem <- query_selector env sel;
      match elem with
      | Some n =>
          do t <- lift (text_of n);
          ret (<[field := t]> fields)
      | None => ret fields
      end
  | None => ret fields
  end.

(** [_extract_fields] *)
Definition _extract_fields (env : Env) (sels : gmap string string)
  : M (gmap string string) :=
  let fields : gmap string string := ∅ in
  do title_elem <- query_selector env (default "h1"%string (sels !! "detail_title"%string));
  do fields <- match title_elem with
               | Some n =>
                   do t <- lift (text_of n);
                   ret (<["title"%string := t]> fields)
               | None => ret fields
               end;
  do desc_selector <- lift (getitem sels "detail_description");
  do desc_elem <- query_selector env desc_selector;
  do fields <- match desc_elem with
               | Some n =>
                   do t <- lift (text_of n);
                   ret (<["raw_description"%string := t]> fields)
               | None =>
                   fallback_description env ["main"; "article"; "body"]%string fields
               end;
  do fields <- optional_field env sels "detail_team" "team" fields;
  do fields <- optional_field env sels "detail_location" "location" fields;
  optional_field env sels "detail_type" "employment_type" fields.

(** [a or b] where [b] is a string. *)
Definition or_str (a : option string) (b : string) : string :=
  match truthy_opt a with Some v => v | None => b end.

(** [a or b] where [b] may be [None]. *)
Definition or_opt (a b : option string) : option string :=
  match truthy_opt a with Some v => Some v | None => b end.

(** The [Job(...)] call of [extract_job_details]; the model validates
    [company_id: int]. *)
Definition make_job (cid : option Z) (job_discovered : JobDiscovered)
    (job_data : gmap string string) : Res Job :=
  match cid with
  | None => Raise "company_id: Input should be a valid integer"%string
  | Some c =>
      Ok {| id := None; company_id := c;
            job_url := url job_discovered;
            job_url_hash := url_hash job_discovered;
            job_title := or_str (job_data !! "title"%string) (title job_discovered);
            job_team := or_opt (job_data !! "team"%string) (team job_discovered);
            job_location := or_opt (job_data !! "location"%string) (location job_discovered);
            employment_type :=
              Some (default "Full-time"%string (job_data !! "employment_type"%string));
            experience_level := None;
            raw_description := job_data !! "raw_description"%string;
            scraped_at := None;
            processed := false |}
  end.

(** The body of the [try] of one attempt. *)
Definition attempt (env : Env) (job_discovered : JobDiscovered) (cid : option Z)
    (sels : gmap string string) : M Job :=
  do _ <- perform env (CGoto (url job_discovered) "networkidle" 60000);
  do _ <- perform env (CWaitForTimeout 3000);
  do _ <- perform env (CEvaluate scroll_js);
  do _ <- perform env (CWaitForTimeout 2000);
  do desc_selector <- lift (getitem sels "detail_description");
  do _ <- perform env (CWaitForSelector desc_selector (Some "visible"%string) 15000);
  do job_data <- _extract_fields env sels;
  lift (make_job cid job_discovered job_data).

(** The loop [for attempt in range(max_retries)]: [remaining] attempts are
    left and this one has number [attempt_no].  An iteration either returns
    ([Some result]) or goes on to the next ([None]). *)
Fixpoint retry_loop (env : Env) (job_discovered : JobDiscovered) (cid : option Z)
    (sels : gmap string string) (max_retries : Z)
    (remaining : nat) (attempt_no : Z) : M (option Job) :=
  match remaining with
  | O => ret None
  | S remaining' =>
      do r <- try_except
                (do job <- attempt env job_discovered cid sels;
                 ret (Some (Some job)))
                (fun _ =>
                   if Z.ltb attempt_no (max_retries - 1)
                   then do _ <- perform env (CWaitForTimeout 2000); ret None
                   else ret (Some None));
      match r with
      | Some result => ret result
      | None => retry_loop env job_discovered cid sels max_retries
                  remaining' (attempt_no + 1)%Z
      end
  end.

(** [extract_job_details] *)
Definition extract_job_details (env : Env) (job_discovered : JobDiscovered)
    (cid : option Z) (sels : gmap string string) (max_retries : Z) : M (option Job) :=
  retry_loop env job_discovered cid sels max_retries (Z.to_nat max_retries) 0%Z.

(** The loop of [extract_multiple_jobs] over the listings of one batch;
    [i] is the index of the first of [items] in the batch. *)
Fixpoint extract_batch (env : Env) (cid : option Z) (sels : gmap string string)
    (batch_len : Z) (items : list JobDiscovered) (i : Z)
    (all_extracted_jobs : list Job) : M (list Job) :=
  match items with
  | [] => ret all_extracted_jobs
  | job_disc :: rest =>
      do job <- extract_job_details env job_disc cid sels 3;
      let all_extracted_jobs :=
        match job with
        | Some j => all_extracted_jobs ++ [j]
        | None => all_extracted_jobs
        end in
      do _ <- (if Z.ltb i (batch_len - 1)
               then perform env
                      (CWaitForTimeout (scraper_scroll_pause (settings env) * 1000))
               else ret tt);
      extract_batch env cid sels batch_len rest (i + 1)%Z all_extracted_jobs
  end.

(** The loop of [extract_multiple_jobs] over the batches: a fresh browser
    for each. *)
Fixpoint extract_batches (env : Env) (jobs_discovered : list JobDiscovered)
    (cid : option Z) (sels : gmap string string) (batch_size : Z)
    (starts : list Z) (all_extracted_jobs : list Job) : M (list Job) :=
  match starts with
  | [] => ret all_extracted_jobs
  | batch_num :: rest =>
      let batch := py_slice jobs_discovered batch_num (batch_num + batch_size) in
      do all_extracted_jobs <-
         with_browser env (fun _ =>
           extract_batch env cid sels (len batch) batch 0%Z all_extracted_jobs);
      extract_batches env jobs_discovered cid sels batch_size rest all_extracted_jobs
  end.

(** [extract_multiple_jobs] *)
Definition extract_multiple_jobs (env : Env) (jobs_discovered : list JobDiscovered)
    (cid : option Z) (sels : gmap string string) (batch_size : Z) : M (list Job) :=
  do starts <- lift (py_range 0 (len jobs_discovered) batch_size);
  extract_batches env jobs_discovered cid sels batch_size starts [].

(** ** src/cli/commands.py: the scrape command, for one company *)

(** [[job for job in jobs_discovered if not db.job_exists(job.url_hash)]] *)
Fixpoint filter_new (jobs_found : list JobDiscovered) : M (list JobDiscovered) :=
  match jobs_found with
  | [] => ret []
  | job :: rest =>
      do known <- job_exists (url_hash job);
      do rest' <- filter_new rest;
      ret (if known : bool then rest' else job :: rest')
  end.

(** [if job_limit and len(new_jobs) > job_limit: new_jobs = new_jobs[:job_limit]] *)
Definition apply_limit (job_limit : option Z) (new_jobs : list JobDiscovered)
  : list JobDiscovered :=
  match job_limit with
  | Some n =>
      if negb (Z.eqb n 0) && Z.ltb n (len new_jobs)
      then py_slice new_jobs 0 n
      else new_jobs
  | None => new_jobs
  end.

Definition batch_size : Z := 20.

(** [for job in jobs_extracted: db.add_job(job); saved_count += 1] *)
Fixpoint save_jobs (env : Env) (jobs_extracted : list Job) (saved_count : Z) : M Z :=
  match jobs_extracted with
  | [] => ret saved_count
  | job :: rest =>
      do _ <- add_job env job;
      save_jobs env rest (saved_count + 1)%Z
  end.

(** The batch of the scrape command that starts at [batch_start]. *)
Definition batch_at (size : Z) (new_jobs : list JobDiscovered) (batch_start : Z)
  : list JobDiscovered :=
  py_slice new_jobs batch_start (Z.min (batch_start + size) (len new_jobs)).

(** The loop of the scrape command over the batches. *)
Fixpoint save_batches (env : Env) (company : Company) (new_jobs : list JobDiscovered)
    (starts : list Z) (saved_count : Z) : M Z :=
  match starts with
  | [] => ret saved_count
  | batch_start :: rest =>
      let batch := batch_at batch_size new_jobs batch_start in
      do jobs_extracted <- extract_multiple_jobs env batch (company_id_of company)
                             (selectors company) batch_size;
      do saved_count <- save_jobs env jobs_extracted saved_count;
      save_batches env company new_jobs rest saved_count
  end.

(** The body of the [try] of [_scrape_async] for one company. *)
Definition scrape_steps (env : Env) (company : Company) (categories : list string)
    (job_limit : option Z) (rid : Z) : M unit :=
  do jobs_found <- discover_all_jobs_for_company env company categories;
  do _ <- update_scrape_run env rid (Some (len jobs_found)) None None None;
  do new_jobs <- filter_new jobs_found;
  let new_jobs := apply_limit job_limit new_jobs in
  match new_jobs with
  | [] => update_scrape_run env rid None None (Some "completed"%string) None
  | _ :: _ =>
      do starts <- lift (py_range 0 (len new_jobs) batch_size);
      do saved_count <- save_batches env company new_jobs starts 0%Z;
      do _ <- update_scrape_run env rid None (Some saved_count)
                (Some "completed"%string) None;
      update_company_last_scraped env (company_id_of company)
  end.

(** One turn of [for company in companies] in [_scrape_async]. *)
Definition scrape_company (env : Env) (company : Company) (categories : list string)
    (job_limit : option Z) : M unit :=
  do rid <- create_scrape_run env (company_id_of company) "Multiple categories";
  try_except
    (scrape_steps env company categories job_limit rid)
    (fun e => update_scrape_run env rid None None (Some "failed"%string) (Some e)).

(** ** src/storage/database.py: companies, and the jobs that wait for the analysis *)

(** [Database.get_company_by_name]: the row with this name ([name] is
    [UNIQUE]; the first one, should the table hold several). *)
Definition get_company_by_name (company_name : string) : M (option Company) :=
  fun s =>
    (Ok (List.find (fun c => String.eqb (name c) company_name) (companies (db s))), s).


(** [Database.add_company]: the [INSERT] gives the columns [name],
    [careers_url], [selectors] and [active]; it fails on the [UNIQUE]
    column [name].  ([created_at], which the scrape command does not
    read, is not part of [Company].) *)
Definition add_company (company : Company) : M Z :=
  fun s =>
    let d := db s in
    if existsb (fun c => String.eqb (name c) (name company)) (companies d)
    then (Raise "UNIQUE constraint failed: companies.name"%string, s)
    else
      let cid := next_id (map (fun c => default 0%Z (company_id_of c)) (companies d)) in
      let row := {| company_id_of := Some cid; name := name company;
                    careers_url := careers_url company;
                    selectors := selectors company;
                    active := active company; last_scraped := None |} in
      (Ok cid, set_db s {| companies := companies d ++ [row]; jobs := jobs d;
                           scrape_runs := scrape_runs d |}).

(** [Database.get_unprocessed_jobs]: the rows in the order of the table;
    a limit of 0 is no limit for [if limit:], and a negative [LIMIT] is
    none for SQLite. *)
Definition get_unprocessed_jobs (limit : option Z) : M (list Job) :=
  fun s =>
    let rows := List.filter (fun j => negb (processed j)) (jobs (db s)) in
    (Ok (match limit with
         | Some n =>
             if Z.eqb n 0 then rows
             else if Z.ltb n 0 then rows
             else firstn (Z.to_nat n) rows
         | None => rows
         end), s).

(** [Database.mark_job_processed] *)
Definition mark_job_processed (job_id : Z) : M unit :=
  fun s =>
    let d := db s in
    let upd j :=
      match id j with
      | Some i =>
          if Z.eqb i job_id
          then {| id := id j; company_id := company_id j; job_url := job_url j;
                  job_url_hash := job_url_hash j; job_title := job_title j;
                  job_team := job_team j; job_location := job_location j;
                  employment_type := employment_type j;
                  experience_level := experience_level j;
                  raw_description := raw_description j;
                  scraped_at := scraped_at j; processed := true |}
          else j
      | None => j
      end in
    (Ok tt, set_db s {| companies := companies d; jobs := map upd (jobs d);
                        scrape_runs := scrape_runs d |}).

(** ** src/cli/commands.py: the scrape command over the companies, and [init] *)



(** The loop of [init] over the entries of [companies.json]; an entry is
    the outcome of building the [Company] from its data. *)
Fixpoint load_companies (data : list (Res Company)) : M unit :=
  match data with
  | [] => ret tt
  | entry :: rest =>
      do company <- lift entry;
      do existing <- get_company_by_name (name company);
      do _ <- match existing with
              | Some _ => ret tt
              | None => do _ <- add_company company; ret tt
              end;
      load_companies rest
  end.

(** ** Vocabulary of the properties *)

(** The resources a [BrowserManager] holds. *)
Inductive Resource : Type := RPlaywright | RBrowser | RContext | RPage.


Definition release_call (r : Resource) : Call :=
  match r with
  | RPlaywright => CPlaywrightStop
  | RBrowser => CBrowserClose
  | RContext => CContextClose
  | RPage => CPageClose
  end.

Definition if_held (h : option Handle) (r : Resource) : list Resource :=
  match h with Some _ => [r] | None => [] end.

(** The resources held, in the order in which [start] acquires them. *)
Definition held (m : BrowserManager) : list Resource :=
  if_held (playwright m) RPlaywright ++ if_held (browser m) RBrowser
  ++ if_held (context m) RContext ++ if_held (page m) RPage.

(** The state after the calls [cs] were made. *)
Definition after (s : State) (cs : list Call) : State :=
  {| calls := calls s ++ cs; db := db s |}.

(** Releasing a resource never raises in [env]. *)
Definition releases_succeed (env : Env) : Prop :=
  forall h r, effect env h (release_call r) = Ok tt.

(** The number of [query_selector_all(selector)] calls in a trace. *)
Definition is_count_query (selector : string) (c : Call) : bool :=
  match c with
  | CQuerySelectorAll sel => String.eqb sel selector
  | _ => false
  end.

Definition count_queries (selector : string) (h : list Call) : nat :=
  length (List.filter (is_count_query selector) h).

(** From the trace [t] on, the successive [query_selector_all(selector)]
    calls match [counts] elements, one count for each call, whatever else
    is called in between. *)
Definition shows_counts (env : Env) (selector : string) (t : list Call)
    (counts : list Z) : Prop :=
  forall h c,
    nth_error counts (count_queries selector h) = Some c ->
    exists els, elements env (t ++ h) selector = Ok els /\ len els = c.

(** Scrolling to the bottom and pausing never raise in [env]. *)
Definition scrolling_succeeds (env : Env) : Prop :=
  forall h, effect env h (CEvaluate scroll_js) = Ok tt
            /\ forall ms, effect env h (CWaitForTimeout ms) = Ok tt.

(** The calls of one iteration of the scroll loop: scroll, pause, count. *)
Definition scroll_iteration (env : Env) (selector : string) : list Call :=
  [CEvaluate scroll_js;
   CWaitForTimeout (scraper_scroll_pause (settings env) * 1000);
   CQuerySelectorAll selector].

(** The number of scrolls to the bottom in a trace. *)
Definition scroll_iterations (h : list Call) : nat :=
  length (List.filter (fun c => match c with
                           | CEvaluate js => String.eqb js scroll_js
                           | _ => false
                           end) h).

(** The count read by iteration [i] of the loop, iteration 0 standing for
    the initial [previous_count = 0]. *)
Definition count_at (counts : list Z) (i : nat) : Z :=
  match i with
  | O => 0
  | S j => nth j counts 0
  end%Z.

(** The stopping rule in the words of the specification: read the counts in
    turn, stop at the first one that equals the one before it (the first
    is compared with 0) or after [max] of them; the answer is the number of
    counts read and the last count.  [None]: [counts] ends before the rule
    decides. *)
Fixpoint settle (max : nat) (previous : Z) (counts : list Z) : option (nat * Z) :=
  match max with
  | O => Some (O, previous)
  | S max' =>
      match counts with
      | [] => None
      | c :: rest =>
          if Z.eqb c previous then Some (1%nat, previous)
          else match settle max' c rest with
               | Some (n, r) => Some (S n, r)
               | None => None
               end
      end
  end.

(** Environments used to run the program on concrete inputs. *)
Definition default_settings : Settings :=
  {| scraper_headless := true; scraper_scroll_pause := 2; scraper_timeout := 30000 |}.

Definition blank_card : Card := {| card_query_selector := fun _ => Ok None |}.

Definition empty_db : Database := {| companies := []; jobs := []; scrape_runs := [] |}.
Definition initial_state : State := {| calls := []; db := empty_db |}.

(** A page on which the selector matches 5, then 9, then 9 elements (and 9
    from then on). *)
Definition page_5_9_9 : Env :=
  {| settings := default_settings;
     effect := fun _ _ => Ok tt;
     elements := fun h sel =>
       Ok (repeat blank_card (Z.to_nat (nth (count_queries sel h) [5; 9; 9] 9)%Z));
     element := fun _ _ => Ok None;
     urljoin := fun _ u => Ok u;
     now := fun _ => "2025-01-01T00:00:00"%string |}.


(** The listings of the cards from which [extract_job_from_card] returns
    one, in the order of the cards. *)
Fixpoint extracted (env : Env) (sels : gmap string string) (search_url : string)
    (cards : list Card) : list JobDiscovered :=
  match cards with
  | [] => []
  | card :: rest =>
      match extract_job_from_card env card sels search_url with
      | Ok (Some job) => job :: extracted env sels search_url rest
      | _ => extracted env sels search_url rest
      end
  end.

(** The calls of [discover_jobs] up to the wait for the first card. *)
Definition opening_calls (search_url card_selector : string) : list Call :=
  [CGoto search_url "domcontentloaded" 60000;
   CWaitForTimeout 3000;
   CWaitForSelector card_selector None 10000].

(** Sample listings: listing [i] has a URL of its own. *)
Definition sample_url (i : nat) : string :=
  ("https://jobs.example/job/" ++ string_of_list_ascii (repeat "x"%char i))%string.

Definition sample_listing (i : nat) : JobDiscovered :=
  {| url := sample_url i; title := "Engineer"; location := None; team := None;
     url_hash := generate_url_hash (sample_url i); search_category := None |}.

(** The calls of [start] and of [close] on a manager that holds everything. *)
Definition start_calls (env : Env) : list Call :=
  [CPlaywrightStart; CLaunch (scraper_headless (settings env)); CNewContext;
   CNewPage; CSetDefaultTimeout (scraper_timeout (settings env))].

Definition close_calls : list Call :=
  [CPageClose; CContextClose; CBrowserClose; CPlaywrightStop].

Definition started_manager : BrowserManager :=
  {| playwright := Some Acquired; browser := Some Acquired;
     context := Some Acquired; page := Some Acquired |}.

(** Starting and closing a browser never raise in [env]. *)
Definition session_succeeds (env : Env) : Prop :=
  forall h c, In c (start_calls env ++ close_calls) -> effect env h c = Ok tt.

(** One step of the merge: the listing [snd cj], found under the category
    [fst cj], enters the dict unless its fingerprint is already a key. *)
Definition add_listing (d : list (string * JobDiscovered))
    (cj : string * JobDiscovered) : list (string * JobDiscovered) :=
  if has_key d (url_hash (snd cj)) then d
  else d ++ [(url_hash (snd cj), set_search_category (snd cj) (fst cj))].

(** The listings of all the searches in the order of discovery, each with
    the category of its search. *)
Definition tagged (found : list (string * list JobDiscovered))
  : list (string * JobDiscovered) :=
  flat_map (fun cf => map (fun j => (fst cf, j)) (snd cf)) found.

(** The first listing with fingerprint [h], and its category. *)
Definition first_seen (h : string) (all : list (string * JobDiscovered))
  : option (string * JobDiscovered) :=
  List.find (fun cj => String.eqb (url_hash (snd cj)) h) all.

(** [searched env company s cats found s']: from the state [s], the searches
    of the categories [cats], one after the other, return the lists in
    [found] and end in [s']. *)
Inductive searched (env : Env) (company : Company)
  : State -> list string -> list (string * list JobDiscovered) -> State -> Prop :=
| searched_nil s : searched env company s [] [] s
| searched_cons s category listings s1 rest found s2 :
    discover_jobs env (search_url_of company category) (selectors company) s
    = (Ok listings, s1) ->
    searched env company s1 rest found s2 ->
    searched env company s (category :: rest) ((category, listings) :: found) s2.




(** A computation that leaves the database as it found it, however it ends. *)
Definition keeps_db {A} (m : M A) : Prop :=
  forall s, db (snd (m s)) = db s.

(** The listings whose fingerprint has no row in the [jobs] table. *)
Definition new_listings (d : Database) (found : list JobDiscovered)
  : list JobDiscovered :=
  List.filter
    (fun j => negb (existsb (fun row => String.eqb (job_url_hash row) (url_hash j))
                      (jobs d)))
    found.

(** The row of a run that failed with the message [e] after [discovered]
    listings were found. *)
Definition failed_run (env : Env) (company : Company) (s : State)
    (discovered : Z) (e : string) : ScrapeRun :=
  {| run_id := next_id (map run_id (scrape_runs (db s)));
     run_company_id := company_id_of company;
     search_term := Some "Multiple categories"%string;
     started_at := Some (now env (calls s));
     completed_at := None;
     jobs_discovered := discovered;
     jobs_scraped := 0;
     status := Some "failed"%string;
     error_message := truthy_opt (Some e) |}.





(** *** Sample sites *)

Definition text_node (t : string) : Node :=
  {| inner_text := Ok t; get_attribute := fun _ => Ok None |}.

Definition link_node (href : string) : Node :=
  {| inner_text := Ok EmptyString;
     get_attribute := fun a => Ok (if String.eqb a "href" then Some href else None) |}.

(** A card with a title in [h3] and a link in [a]. *)
Definition job_card (card_title href : string) : Card :=
  {| card_query_selector := fun sel =>
       if String.eqb sel "h3" then Ok (Some (text_node card_title))
       else if String.eqb sel "a" then Ok (Some (link_node href))
       else Ok None |}.

Definition site_selectors : gmap string string :=
  list_to_map [("job_card", "div.job"); ("job_title", "h3"); ("job_link", "a");
               ("detail_description", "div.description");
               ("detail_type", "span.type")]%string.

(** The page the browser is on: the target of the last [goto]. *)
Definition last_goto (h : list Call) : string :=
  fold_left (fun acc c => match c with CGoto target _ _ => target | _ => acc end)
    h EmptyString.

(** A site: which calls raise, the cards of each search page, the elements
    of each detail page.  Links that are not absolute are paths on
    [https://jobs.example]. *)
Definition site (effect_of : list Call -> Call -> Res unit)
    (cards_at : string -> list Card)
    (detail_at : string -> string -> option Node) : Env :=
  {| settings := default_settings;
     effect := effect_of;
     elements := fun h _ => Ok (cards_at (last_goto h));
     element := fun h sel => Ok (detail_at (last_goto h) sel);
     urljoin := fun _ u => Ok ("https://jobs.example" ++ u)%string;
     now := fun _ => "2025-01-01T00:00:00"%string |}.

Definition example_company : Company :=
  {| company_id_of := Some 1%Z; name := "Example";
     careers_url := "https://jobs.example/search?q=";
     selectors := site_selectors; active := true; last_scraped := None |}.

(** A site on which no awaited selector ever appears. *)
Definition timeout_site : Env :=
  site (fun _ c => match c with
                   | CWaitForSelector _ _ _ => Raise "Timeout exceeded"%string
                   | _ => Ok tt
                   end)
       (fun _ => [])
       (fun _ _ => None).

(** A site with two search pages that share the listing [/job/1]. *)
Definition two_category_site : Env :=
  site (fun _ _ => Ok tt)
       (fun page =>
          if String.eqb page "https://jobs.example/search?q=Backend+Engineer"
          then [job_card "Backend Engineer" "https://jobs.example/job/1";
                job_card "API Engineer" "/job/2"]
          else [job_card "Full Stack Engineer" "https://jobs.example/job/1";
                job_card "Web Engineer" "https://jobs.example/job/3"])%string
       (fun _ _ => None).

(** A site whose detail pages show a description and an employment type. *)
Definition detail_site : Env :=
  site (fun _ _ => Ok tt)
       (fun _ => [])
       (fun _ sel =>
          if String.eqb sel "div.description" then Some (text_node "  Build things.  ")
          else if String.eqb sel "span.type" then Some (text_node "Contract ")
          else None)%string.

(** A site on which the browser cannot reach a new context. *)
Definition no_context_site : Env :=
  site (fun _ c => match c with
                   | CNewContext => Raise "new_context failed"%string
                   | _ => Ok tt
                   end)
       (fun _ => [])
       (fun _ _ => None).

(** The number of browser launches in a trace. *)
Definition launches (h : list Call) : nat :=
  length (List.filter (fun c => match c with CLaunch _ => true | _ => false end) h).

(** A site with 45 listings, on which the third launch of a browser fails:
    the first is that of discovery, the second that of the first batch. *)
Definition third_launch_fails : Env :=
  site (fun h c => match c with
                   | CLaunch _ =>
                       if Nat.eqb (launches h) 2
                       then Raise "browser launch failed"%string
                       else Ok tt
                   | _ => Ok tt
                   end)
       (fun _ => map (fun i => job_card "Engineer" (sample_url i)) (seq 0 45))
       (fun _ sel =>
          if String.eqb sel "div.description" then Some (text_node "Description")
          else None)%string.

(** The value of a result, or [d] when it raised. *)
Definition value_or {A} (d : A) (r : Res A) : A :=
  match r with
  | Ok a => a
  | Raise _ => d
  end.

(** The run of the scrape command on [third_launch_fails], step by step. *)
Definition run_start : State :=
  snd (create_scrape_run third_launch_fails (company_id_of example_company)
         "Multiple categories" initial_state).

Definition run_discovery : Res (list JobDiscovered) * State :=
  discover_all_jobs_for_company third_launch_fails example_company
    ["Backend Engineer"%string] run_start.

Definition run_found : list JobDiscovered := value_or [] (fst run_discovery).

Definition run_recorded : State :=
  snd (update_scrape_run third_launch_fails
         (next_id (map run_id (scrape_runs (db initial_state))))
         (Some (len run_found)) None None None (snd run_discovery)).

Definition run_new_jobs : list JobDiscovered :=
  apply_limit None (new_listings (db run_recorded) run_found).

Definition run_batch1 : Res (list Job) * State :=
  extract_multiple_jobs third_launch_fails (batch_at batch_size run_new_jobs 0)
    (company_id_of example_company) (selectors example_company) batch_size
    run_recorded.

Definition run_jobs1 : list Job := value_or [] (fst run_batch1).

Definition run_saved : Res Z * State :=
  save_jobs third_launch_fails run_jobs1 0 (snd run_batch1).

Definition run_batch2 : Res (list Job) * State :=
  extract_multiple_jobs third_launch_fails (batch_at batch_size run_new_jobs 20)
    (company_id_of example_company) (selectors example_company) batch_size
    (snd run_saved).

(** A page whose count query raises, and a page on which scrolling raises. *)
Definition count_fails_site : Env :=
  {| settings := default_settings;
     effect := fun _ _ => Ok tt;
     elements := fun _ _ => Raise "Execution context was destroyed"%string;
     element := fun _ _ => Ok None;
     urljoin := fun _ u => Ok u;
     now := fun _ => "2025-01-01T00:00:00"%string |}.

Definition scroll_fails_site : Env :=
  site (fun _ c => match c with
                   | CEvaluate _ => Raise "Target closed"%string
                   | _ => Ok tt
                   end)
       (fun _ => [])
       (fun _ _ => None).

(** Every selector of [selectors], queried in turn from the trace [h] on,
    matches no element. *)
Fixpoint all_absent (env : Env) (h : list Call) (selectors : list string) : Prop :=
  match selectors with
  | [] => True
  | sel :: rest =>
      element env h sel = Ok None
      /\ all_absent env (h ++ [CQuerySelector sel]) rest
  end.

(** A site that cannot be reached, and on which the pause before a retry
    raises: the page is gone. *)
Definition offline_site : Env :=
  site (fun _ c => match c with
                   | CGoto _ _ _ => Raise "net::ERR_NAME_NOT_RESOLVED"%string
                   | CWaitForTimeout _ => Raise "Target closed"%string
                   | _ => Ok tt
                   end)
       (fun _ => [])
       (fun _ _ => None).

(** A site whose detail pages have an [article] element and nothing else. *)
Definition article_site : Env :=
  site (fun _ _ => Ok tt)
       (fun _ => [])
       (fun _ sel =>
          if String.eqb sel "article" then Some (text_node " Write code. ")
          else None)%string.

(** What identifies a job, and what identifies the listing it comes from. *)
Definition job_identity (j : Job) : string * string := (job_url j, job_url_hash j).
Definition listing_identity (jd : JobDiscovered) : string * string :=
  (url jd, url_hash jd).

(** Two listings of [detail_site], extracted in one call. *)
Definition detail_batch_run : Res (list Job) * State :=
  extract_multiple_jobs detail_site [sample_listing 1; sample_listing 2] (Some 1%Z)
    site_selectors 20 initial_state.

(** Every row of the [jobs] table carries the hash of its URL. *)
Definition hashes_of_urls (rows : list Job) : Prop :=
  Forall (fun row => job_url_hash row = generate_url_hash (job_url row)) rows.

(** A job as extraction returns it, for the URL [u]. *)
Definition sample_job (u : string) : Job :=
  {| id := None; company_id := 1; job_url := u;
     job_url_hash := generate_url_hash u; job_title := "Engineer";
     job_team := None; job_location := None;
     employment_type := Some "Full-time"%string; experience_level := None;
     raw_description := None; scraped_at := None; processed := false |}.

(** A computation that leaves the [scrape_runs] table as it found it,
    however it ends. *)
Definition keeps_runs {A} (m : M A) : Prop :=
  forall s, scrape_runs (db (snd (m s))) = scrape_runs (db s).

(** The table [scrape_runs] of [s] is [rows] followed by the row [row] of
    the current run. *)
Definition current_run (s : State) (rows : list ScrapeRun) (row : ScrapeRun) : Prop :=
  scrape_runs (db s) = rows ++ [row]
  /\ run_id row = next_id (map run_id rows).

(** A site with one search page of two cards, whose listings are in the
    [jobs] table already in [known_state]. *)
Definition known_site : Env :=
  site (fun _ _ => Ok tt)
       (fun _ => [job_card "Engineer" (sample_url 1); job_card "Engineer" (sample_url 2)])
       (fun _ _ => None).

Definition known_state : State :=
  snd (save_jobs known_site [sample_job (sample_url 1); sample_job (sample_url 2)] 0
         {| calls := [];
            db := {| companies := [example_company]; jobs := []; scrape_runs := [] |} |}).

Definition known_run : Res unit * State :=
  scrape_company known_site example_company ["Backend Engineer"%string] None known_state.

Definition known_discovery : Res (list JobDiscovered) * State :=
  discover_all_jobs_for_company known_site example_company ["Backend Engineer"%string]
    (snd (create_scrape_run known_site (company_id_of example_company)
            "Multiple categories" known_state)).

(** The row of a run that found [discovered] listings, none of them new. *)
Definition completed_run (env : Env) (company : Company) (s s1 : State)
    (discovered : Z) : ScrapeRun :=
  {| run_id := next_id (map run_id (scrape_runs (db s)));
     run_company_id := company_id_of company;
     search_term := Some "Multiple categories"%string;
     started_at := Some (now env (calls s));
     completed_at := Some (now env (calls s1));
     jobs_discovered := discovered;
     jobs_scraped := 0;
     status := Some "completed"%string;
     error_message := None |}.

(** No call on the browser raises (the queries for elements may). *)
Definition browser_cooperates (env : Env) : Prop :=
  forall h c, effect env h c = Ok tt.

(** A listing that carries the hash of its URL. *)
Definition hash_of_url (listing : JobDiscovered) : Prop :=
  url_hash listing = generate_url_hash (url listing).



(** A call that, if it is a navigation, goes to one of [targets]. *)
Definition navigates_within (targets : list string) (c : Call) : Prop :=
  match c with
  | CGoto target _ _ => In target targets
  | _ => True
  end.

(** A computation that only adds calls to the trace, and navigates to
    [targets] only, however it ends. *)
Definition stays_within {A} (targets : list string) (m : M A) : Prop :=
  forall s, exists cs,
    snd (m s) = after s cs /\ Forall (navigates_within targets) cs.

(** A computation that only appends rows to the [jobs] table, each with
    the property [P], however it ends. *)
Definition appends_jobs {A} (P : Job -> Prop) (m : M A) : Prop :=
  forall s, exists added,
    jobs (db (snd (m s))) = jobs (db s) ++ added /\ Forall P added.

(** The names in the [companies] table. *)
Definition company_names (s : State) : list string := map name (companies (db s)).

(** What a run may change in a row of the [companies] table: nothing, or
    the [last_scraped] of the company [cid]. *)
Definition last_scraped_only (cid : option Z) (c c' : Company) : Prop :=
  c' = c
  \/ (company_id_of c = cid
      /\ exists stamp,
           c' = {| company_id_of := company_id_of c; name := name c;
                   careers_url := careers_url c; selectors := selectors c;
                   active := active c; last_scraped := Some stamp |}).

(** A computation that changes at most [last_scraped] of the company
    [cid] in the [companies] table, however it ends. *)
Definition stamps_only {A} (cid : option Z) (m : M A) : Prop :=
  forall s, Forall2 (last_scraped_only cid) (companies (db s)) (companies (db (snd (m s)))).

(** * Properties *)

Local Open Scope Z_scope.

(** ** The monad *)

Lemma bind_ok {A B} (m : M A) (f : A -> M B) s a s' :
  m s = (Ok a, s') -> bind m f s = f a s'.
Proof. intros H. unfold bind. rewrite H. reflexivity. Qed.

Lemma bind_raise {A B} (m : M A) (f : A -> M B) s e s' :
  m s = (Raise e, s') -> bind m f s = (Raise e, s').
Proof. intros H. unfold bind. rewrite H. reflexivity. Qed.

Lemma try_except_ok {A} (m : M A) h s a s' :
  m s = (Ok a, s') -> try_except m h s = (Ok a, s').
Proof. intros H. unfold try_except. rewrite H. reflexivity. Qed.

Lemma try_except_raise {A} (m : M A) h s e s' :
  m s = (Raise e, s') -> try_except m h s = h e s'.
Proof. intros H. unfold try_except. rewrite H. reflexivity. Qed.

(** A [try] whose handler returns never raises. *)
Lemma try_except_total {A} (m : M A) (h : string -> M A) s :
  (forall e s1, exists a s2, h e s1 = (Ok a, s2)) ->
  exists a s', try_except m h s = (Ok a, s').
Proof.
  intros Hh. unfold try_except.
  destruct (m s) as [[a | e] s1]; [ eauto | apply Hh ].
Qed.

Lemma perform_eq env c s :
  perform env c s = (effect env (calls s) c, after s [c]).
Proof. reflexivity. Qed.

Lemma query_selector_all_eq env sel s :
  query_selector_all env sel s
  = (elements env (calls s) sel, after s [CQuerySelectorAll sel]).
Proof. reflexivity. Qed.

Lemma query_selector_eq env sel s :
  query_selector env sel s = (element env (calls s) sel, after s [CQuerySelector sel]).
Proof. reflexivity. Qed.

Lemma after_nil s : after s [] = s.
Proof. destruct s. unfold after. simpl. rewrite app_nil_r. reflexivity. Qed.

Lemma after_after s cs ds : after (after s cs) ds = after s (cs ++ ds).
Proof. unfold after. simpl. rewrite app_assoc. reflexivity. Qed.

Lemma calls_after s cs : calls (after s cs) = calls s ++ cs.
Proof. reflexivity. Qed.

Lemma db_after s cs : db (after s cs) = db s.
Proof. reflexivity. Qed.

(** ** Render session: [close] *)

Lemma release_if_eq env h r s :
  releases_succeed env ->
  release_if env h (release_call r) s = (Ok tt, after s (map release_call (if_held h r))).
Proof.
  intros Hrel. destruct h as [ [] | ]; simpl.
  - rewrite perform_eq, Hrel. reflexivity.
  - unfold ret. rewrite after_nil. reflexivity.
Qed.

Lemma close_eq env m s :
  releases_succeed env ->
  close env m s = (Ok tt, after s (map release_call (rev (held m)))).
Proof.
  intros Hrel. unfold close.
  rewrite (bind_ok _ _ _ _ _ (release_if_eq env (page m) RPage s Hrel)).
  rewrite (bind_ok _ _ _ _ _ (release_if_eq env (context m) RContext _ Hrel)).
  rewrite (bind_ok _ _ _ _ _ (release_if_eq env (browser m) RBrowser _ Hrel)).
  rewrite (release_if_eq env (playwright m) RPlaywright _ Hrel).
  rewrite !after_after. unfold held.
  rewrite !rev_app_distr, !map_app, <- !app_assoc.
  destruct (playwright m), (browser m), (context m), (page m); reflexivity.
Qed.

(** What a failed [start] leaves: the resources acquired before the call
    that raised, and nothing else. *)
Ltac trace_eq :=
  unfold after; simpl; rewrite ?app_nil_r, <- ?app_assoc; simpl; reflexivity.



(** ** Render session: [infinite_scroll] *)

Lemma count_queries_app sel h1 h2 :
  count_queries sel (h1 ++ h2) = (count_queries sel h1 + count_queries sel h2)%nat.
Proof.
  unfold count_queries. rewrite List.filter_app, length_app. reflexivity.
Qed.

Lemma count_queries_iteration env sel :
  count_queries sel (scroll_iteration env sel) = 1%nat.
Proof.
  unfold count_queries, scroll_iteration. cbn.
  rewrite String.eqb_refl. reflexivity.
Qed.

Lemma shows_counts_next env sel t c counts :
  shows_counts env sel t (c :: counts) ->
  shows_counts env sel (t ++ scroll_iteration env sel) counts.
Proof.
  intros H h c' Hc'.
  rewrite <- app_assoc. apply H.
  rewrite count_queries_app, count_queries_iteration. exact Hc'.
Qed.

Lemma scroll_to_bottom_eq env s :
  scrolling_succeeds env ->
  scroll_to_bottom env None s
  = (Ok tt, after s [CEvaluate scroll_js;
                     CWaitForTimeout (scraper_scroll_pause (settings env) * 1000)]).
Proof.
  intros Hs. unfold scroll_to_bottom.
  erewrite bind_ok by (rewrite perform_eq; rewrite (proj1 (Hs _)); reflexivity).
  rewrite perform_eq. rewrite (proj2 (Hs _)). rewrite after_after. reflexivity.
Qed.

(** The loop follows the stopping rule: [n] iterations, the last count. *)
Lemma scroll_loop_settle env sel max :
  scrolling_succeeds env ->
  forall fuel previous scroll_count s counts n r,
    Z.of_nat fuel = Z.max 0 (max - scroll_count) ->
    shows_counts env sel (calls s) counts ->
    settle fuel previous counts = Some (n, r) ->
    exists scroll_count',
      scroll_loop env sel max fuel previous scroll_count s
      = (Ok (r, scroll_count'),
         after s (concat (repeat (scroll_iteration env sel) n))).
Proof.
  intros Hs. induction fuel as [| fuel IH];
    intros previous scroll_count s counts n r Hfuel Hshow Hsettle.
  - simpl in Hsettle. injection Hsettle as <- <-.
    exists scroll_count. simpl. unfold ret. rewrite after_nil. reflexivity.
  - simpl in Hsettle. destruct counts as [| c rest]; [discriminate |].
    simpl scroll_loop.
    assert (Hlt : (scroll_count <? max) = true) by (apply Z.ltb_lt; lia).
    rewrite Hlt.
    erewrite bind_ok by (apply scroll_to_bottom_eq; assumption).
    destruct (Hshow [CEvaluate scroll_js;
                     CWaitForTimeout (scraper_scroll_pause (settings env) * 1000)] c)
      as [els [Hels Hlen]]; [reflexivity |].
    assert (Hq : query_selector_all env sel
                   (after s [CEvaluate scroll_js;
                             CWaitForTimeout (scraper_scroll_pause (settings env) * 1000)])
                 = (Ok els, after s (scroll_iteration env sel))).
    { rewrite query_selector_all_eq. simpl calls. rewrite Hels, after_after.
      reflexivity. }
    unfold len in Hlen.
    destruct (Z.eqb c previous) eqn:Hc.
    + injection Hsettle as <- <-.
      exists scroll_count.
      erewrite bind_ok.
      2:{ erewrite try_except_ok; [reflexivity |].
          erewrite bind_ok by exact Hq. rewrite Hlen, Hc. reflexivity. }
      unfold ret. trace_eq.
    + destruct (settle fuel c rest) as [[n' r'] |] eqn:Hrest; [| discriminate].
      injection Hsettle as <- <-.
      destruct (IH c (scroll_count + 1) (after s (scroll_iteration env sel)) rest n' r')
        as [sc' Hloop].
      * lia.
      * simpl calls. eapply shows_counts_next. exact Hshow.
      * exact Hrest.
      * exists sc'.
        erewrite bind_ok.
        2:{ erewrite try_except_ok; [reflexivity |].
            erewrite bind_ok by exact Hq. rewrite Hlen, Hc. reflexivity. }
        etransitivity; [exact Hloop |]. rewrite after_after. reflexivity.
Qed.

(** What the stopping rule computes. *)
Lemma settle_spec max : forall previous counts n r,
  settle max previous counts = Some (n, r) ->
  (n <= max)%nat
  /\ r = (match n with O => previous | S j => nth j counts 0 end)
  /\ (n = max \/ (0 < n)%nat /\ count_at counts n
                               = match n with
                                 | 1%nat => previous
                                 | _ => count_at counts (n - 1)
                                 end)
  /\ (forall i, (0 < i < n)%nat ->
        count_at counts i <> match i with
                             | 1%nat => previous
                             | _ => count_at counts (i - 1)
                             end).
Proof.
  induction max as [| max IH]; intros previous counts n r H.
  - simpl in H. injection H as <- <-. repeat split; auto. intros i Hi. lia.
  - simpl in H. destruct counts as [| c rest]; [discriminate |].
    destruct (Z.eqb c previous) eqn:Hc.
    + injection H as <- <-. apply Z.eqb_eq in Hc. subst c.
      repeat split; [lia | | intros i Hi; lia].
      right. split; [lia | reflexivity].
    + destruct (settle max c rest) as [[n' r'] |] eqn:Hrest; [| discriminate].
      injection H as <- <-. apply Z.eqb_neq in Hc.
      destruct (IH _ _ _ _ Hrest) as (Hle & Hr & Hstop & Hno).
      repeat split.
      * lia.
      * destruct n'; simpl; [exact Hr | exact Hr].
      * destruct Hstop as [-> | [Hpos Heq]]; [left; reflexivity | right].
        split; [lia |].
        destruct n' as [| [| k]]; [lia | exact Heq |].
        simpl in Heq |- *. exact Heq.
      * intros i Hi. destruct i as [| [| k]]; [lia | simpl; exact Hc |].
        specialize (Hno (S k)). 
        destruct k as [| k'].
        -- simpl in Hno |- *. apply Hno. lia.
        -- simpl in Hno |- *. apply Hno. lia.
Qed.

Lemma settle_from_zero max counts n r :
  settle max 0 counts = Some (n, r) ->
  (n <= max)%nat
  /\ r = count_at counts n
  /\ (n = max \/ (0 < n)%nat /\ count_at counts n = count_at counts (n - 1))
  /\ (forall i, (0 < i < n)%nat -> count_at counts i <> count_at counts (i - 1)).
Proof.
  intros H. destruct (settle_spec _ _ _ _ _ H) as (Hle & Hr & Hstop & Hno).
  repeat split.
  - exact Hle.
  - destruct n; exact Hr.
  - destruct Hstop as [-> | [Hpos Heq]]; [left; reflexivity | right].
    split; [exact Hpos |]. destruct n as [| [| k]]; [lia | exact Heq | exact Heq].
  - intros i Hi. specialize (Hno i Hi).
    destruct i as [| [| k]]; [lia | exact Hno | exact Hno].
Qed.

(** More fuel than the loop variant does not change the loop: the fuel
    [Z.to_nat max_scrolls] of [infinite_scroll] never runs out before the
    loop condition fails. *)
Lemma scroll_loop_fuel env sel max :
  forall fuel previous scroll_count s k,
    Z.of_nat fuel = Z.max 0 (max - scroll_count) ->
    scroll_loop env sel max (fuel + k) previous scroll_count s
    = scroll_loop env sel max fuel previous scroll_count s.
Proof.
  induction fuel as [| fuel IH]; intros previous scroll_count s k Hfuel.
  - destruct k as [| k]; [reflexivity |]. simpl.
    assert (Hge : (scroll_count <? max) = false) by (apply Z.ltb_ge; lia).
    rewrite Hge. reflexivity.
  - simpl. destruct (scroll_count <? max); [| reflexivity].
    unfold bind, try_except.
    destruct (scroll_to_bottom env None s) as [[[] | e] s1]; [| reflexivity].
    destruct (query_selector_all env sel s1) as [[els | e] s2]; [| reflexivity].
    destruct (Z.of_nat (length els) =? previous); [reflexivity |].
    unfold ret. apply IH. lia.
Qed.

(** C2, as amended.  With scrolling that never raises and successive counts
    [counts], [infinite_scroll] performs [n] iterations (scroll, pause,
    count) and returns the last count read, where [n] is the first
    iteration whose count equals the one before it (the first count being
    compared with 0), or [max_scrolls] when no such iteration comes
    earlier.  For the counts 5, 9, 9 and [max_scrolls = 20] this is 3
    iterations and the result 9. *)
Theorem infinite_scroll_stops_on_repeat env sel max s counts n r :
  scrolling_succeeds env ->
  shows_counts env sel (calls s) counts ->
  settle (Z.to_nat max) 0 counts = Some (n, r) ->
  infinite_scroll env sel max s
  = (Ok r, after s (concat (repeat (scroll_iteration env sel) n)))
  /\ (n <= Z.to_nat max)%nat
  /\ r = count_at counts n
  /\ (n = Z.to_nat max
      \/ (0 < n)%nat /\ count_at counts n = count_at counts (n - 1))
  /\ (forall i, (0 < i < n)%nat -> count_at counts i <> count_at counts (i - 1)).
Proof.
  intros Hs Hshow Hsettle. split; [| apply settle_from_zero; exact Hsettle].
  unfold infinite_scroll.
  destruct (scroll_loop_settle env sel max Hs (Z.to_nat max) 0 0 s counts n r)
    as [sc Hloop]; [lia | exact Hshow | exact Hsettle |].
  erewrite bind_ok by exact Hloop. reflexivity.
Qed.

Lemma page_5_9_9_shows_counts sel :
  shows_counts page_5_9_9 sel [] [5; 9; 9].
Proof.
  intros h c Hc. simpl. eexists. split; [reflexivity |].
  unfold len. rewrite repeat_length.
  destruct (count_queries sel h) as [| [| [| k]]]; simpl in Hc |- *;
    try (injection Hc as <-; reflexivity).
  destruct k; discriminate.
Qed.

Lemma page_5_9_9_scrolling : scrolling_succeeds page_5_9_9.
Proof. intros h. split; reflexivity. Qed.

(** The instance of C2 in the specification. *)
Lemma infinite_scroll_5_9_9 :
  scrolling_succeeds page_5_9_9
  /\ shows_counts page_5_9_9 "div.job" (calls initial_state) [5; 9; 9]
  /\ settle (Z.to_nat 20) 0 [5; 9; 9] = Some (3%nat, 9)
  /\ infinite_scroll page_5_9_9 "div.job" 20 initial_state
     = (Ok 9, after initial_state
                (concat (repeat (scroll_iteration page_5_9_9 "div.job") 3))).
Proof.
  split; [exact page_5_9_9_scrolling |].
  split; [apply page_5_9_9_shows_counts |].
  split; [reflexivity |].
  apply (infinite_scroll_stops_on_repeat page_5_9_9 "div.job" 20 initial_state
           [5; 9; 9] 3%nat 9).
  - exact page_5_9_9_scrolling.
  - apply page_5_9_9_shows_counts.
  - reflexivity.
Defined.

(** On the page with counts 5, 9, 9 the loop ends with
    [previous_count = 9] and [scroll_count = 2], after three scrolls. *)
Example scroll_loop_5_9_9 :
  scroll_loop page_5_9_9 "div.job" 20 20 0 0 initial_state
  = (Ok (9, 2), after initial_state
                  (concat (repeat (scroll_iteration page_5_9_9 "div.job") 3))).
Proof. vm_compute. reflexivity. Qed.

(** C2 as stated fails: on a page whose counts are 5, 9, 9, the call
    [infinite_scroll(page, selector)] does not return 9 after exactly 2
    scroll iterations; it scrolls three times. *)
Lemma infinite_scroll_5_9_9_not_two_iterations :
  shows_counts page_5_9_9 "div.job" (calls initial_state) [5; 9; 9]
  /\ ~ (exists s',
          infinite_scroll page_5_9_9 "div.job" 20 initial_state = (Ok 9, s')
          /\ scroll_iterations (calls s') = 2%nat).
Proof.
  split; [apply page_5_9_9_shows_counts |].
  intros [s' [Hrun Hiter]].
  assert (Hreal : infinite_scroll page_5_9_9 "div.job" 20 initial_state
                  = (Ok 9, after initial_state
                             (concat (repeat (scroll_iteration page_5_9_9 "div.job") 3))))
    by (vm_compute; reflexivity).
  rewrite Hreal in Hrun. injection Hrun as <-.
  vm_compute in Hiter. discriminate.
Qed.

(** ** Listing discovery: [discover_jobs] *)

Lemma discover_jobs_total env search_url sels s :
  exists found s', discover_jobs env search_url sels s = (Ok found, s').
Proof.
  unfold discover_jobs. apply try_except_total.
  intros e s1. exists [], s1. reflexivity.
Qed.

Lemma discover_jobs_raise env search_url sels s e s' :
  discover_steps env search_url sels s = (Raise e, s') ->
  discover_jobs env search_url sels s = (Ok [], s').
Proof.
  intros H. unfold discover_jobs. erewrite try_except_raise by exact H. reflexivity.
Qed.

Lemma discover_jobs_ok env search_url sels s found s' :
  discover_steps env search_url sels s = (Ok found, s') ->
  discover_jobs env search_url sels s = (Ok found, s').
Proof.
  intros H. unfold discover_jobs. erewrite try_except_ok by exact H. reflexivity.
Qed.

(** A card that raises, or lacks a title or a link, is left out; the others
    are kept in order. *)
Lemma extract_cards_eq env sels search_url cards : forall found s,
  extract_cards env sels search_url cards found s
  = (Ok (found ++ extracted env sels search_url cards), s).
Proof.
  induction cards as [| card rest IH]; intros found s; simpl.
  - unfold ret. rewrite app_nil_r. reflexivity.
  - unfold bind at 1. unfold try_except, bind, lift, ret.
    destruct (extract_job_from_card env card sels search_url) as [[job |] | e].
    + rewrite IH. rewrite <- app_assoc. reflexivity.
    + apply IH.
    + apply IH.
Qed.

(** The steps of [discover_jobs] once the first card has appeared. *)
Lemma discover_steps_opened env search_url sels card_sel s :
  sels !! "job_card"%string = Some card_sel ->
  effect env (calls s) (CGoto search_url "domcontentloaded" 60000) = Ok tt ->
  effect env (calls s ++ [CGoto search_url "domcontentloaded" 60000])
    (CWaitForTimeout 3000) = Ok tt ->
  effect env (calls s ++ [CGoto search_url "domcontentloaded" 60000; CWaitForTimeout 3000])
    (CWaitForSelector card_sel None 10000) = Ok tt ->
  discover_steps env search_url sels s
  = bind (infinite_scroll env card_sel 20)
      (fun _ => bind (query_selector_all env card_sel)
                  (fun job_elements => extract_cards env sels search_url job_elements []))
      (after s (opening_calls search_url card_sel)).
Proof.
  intros Hsel Hgoto Hwait Happear. unfold discover_steps.
  erewrite bind_ok by (rewrite perform_eq, Hgoto; reflexivity).
  erewrite bind_ok by (rewrite perform_eq; simpl calls; rewrite Hwait; reflexivity).
  unfold getitem. rewrite Hsel.
  erewrite bind_ok by reflexivity.
  erewrite bind_ok.
  2:{ erewrite try_except_ok; [reflexivity |].
      erewrite bind_ok; [reflexivity |].
      rewrite perform_eq. simpl calls. rewrite <- app_assoc. simpl app.
      rewrite Happear. reflexivity. }
  rewrite !after_after. reflexivity.
Qed.


(** C9.  [discover_jobs] always returns a list.  An exception raised by the
    navigation, by the settle delay, by the scrolling or by the query of
    the cards gives the empty list; the cards that raise are left out one
    by one, and the listings of the other cards are returned in order. *)
Theorem discover_jobs_never_raises env search_url sels s :
  (exists found s', discover_jobs env search_url sels s = (Ok found, s'))
  /\ (forall e,
        effect env (calls s) (CGoto search_url "domcontentloaded" 60000) = Raise e ->
        discover_jobs env search_url sels s
        = (Ok [], after s [CGoto search_url "domcontentloaded" 60000]))
  /\ (forall e,
        effect env (calls s) (CGoto search_url "domcontentloaded" 60000) = Ok tt ->
        effect env (calls s ++ [CGoto search_url "domcontentloaded" 60000])
          (CWaitForTimeout 3000) = Raise e ->
        discover_jobs env search_url sels s
        = (Ok [], after s [CGoto search_url "domcontentloaded" 60000;
                           CWaitForTimeout 3000]))
  /\ (forall card_sel,
        sels !! "job_card"%string = Some card_sel ->
        effect env (calls s) (CGoto search_url "domcontentloaded" 60000) = Ok tt ->
        effect env (calls s ++ [CGoto search_url "domcontentloaded" 60000])
          (CWaitForTimeout 3000) = Ok tt ->
        effect env (calls s ++ [CGoto search_url "domcontentloaded" 60000;
                                CWaitForTimeout 3000])
          (CWaitForSelector card_sel None 10000) = Ok tt ->
        (forall e s1,
           infinite_scroll env card_sel 20 (after s (opening_calls search_url card_sel))
           = (Raise e, s1) ->
           discover_jobs env search_url sels s = (Ok [], s1))
        /\ (forall n s1 e,
              infinite_scroll env card_sel 20 (after s (opening_calls search_url card_sel))
              = (Ok n, s1) ->
              elements env (calls s1) card_sel = Raise e ->
              discover_jobs env search_url sels s
              = (Ok [], after s1 [CQuerySelectorAll card_sel]))
        /\ (forall n s1 cards,
              infinite_scroll env card_sel 20 (after s (opening_calls search_url card_sel))
              = (Ok n, s1) ->
              elements env (calls s1) card_sel = Ok cards ->
              discover_jobs env search_url sels s
              = (Ok (extracted env sels search_url cards),
                 after s1 [CQuerySelectorAll card_sel]))).
Proof.
  split; [apply discover_jobs_total |].
  split.
  { intros e Hgoto. apply (discover_jobs_raise _ _ _ _ e).
    unfold discover_steps. erewrite bind_raise; [reflexivity |].
    rewrite perform_eq, Hgoto. reflexivity. }
  split.
  { intros e Hgoto Hwait. apply (discover_jobs_raise _ _ _ _ e).
    unfold discover_steps.
    erewrite bind_ok by (rewrite perform_eq, Hgoto; reflexivity).
    erewrite bind_raise; [reflexivity |].
    rewrite perform_eq. simpl calls. rewrite Hwait, after_after. reflexivity. }
  intros card_sel Hsel Hgoto Hwait Happear.
  pose proof (discover_steps_opened _ _ _ _ _ Hsel Hgoto Hwait Happear) as Hsteps.
  split; [| split].
  - intros e s1 Hscroll. apply (discover_jobs_raise _ _ _ _ e).
    rewrite Hsteps. erewrite bind_raise by exact Hscroll. reflexivity.
  - intros n s1 e Hscroll Hquery. apply (discover_jobs_raise _ _ _ _ e).
    rewrite Hsteps. erewrite bind_ok by exact Hscroll.
    erewrite bind_raise; [reflexivity |].
    rewrite query_selector_all_eq, Hquery. reflexivity.
  - intros n s1 cards Hscroll Hquery. apply discover_jobs_ok.
    rewrite Hsteps. erewrite bind_ok by exact Hscroll.
    erewrite bind_ok by (rewrite query_selector_all_eq, Hquery; reflexivity).
    rewrite extract_cards_eq. reflexivity.
Qed.

(** ** Slices and batches *)

Lemma firstn_add_skipn {A} (a b : nat) : forall l : list A,
  firstn (a + b) l = firstn a l ++ firstn b (skipn a l).
Proof.
  induction a as [| a IH]; intros l; [reflexivity |].
  destruct l as [| x l]; simpl.
  - rewrite firstn_nil. reflexivity.
  - rewrite IH. reflexivity.
Qed.

Lemma firstn_beyond {A} (n m : nat) (l : list A) :
  (length l <= n)%nat -> (length l <= m)%nat -> firstn n l = firstn m l.
Proof. intros Hn Hm. rewrite !firstn_all2 by assumption. reflexivity. Qed.

(** A slice with bounds that are not negative. *)
Lemma py_slice_nonneg {A} (l : list A) (lo hi : Z) :
  0 <= lo -> 0 <= hi ->
  py_slice l lo hi = firstn (Z.to_nat hi - Z.to_nat lo) (skipn (Z.to_nat lo) l).
Proof.
  intros Hlo Hhi. unfold py_slice, clamp, len.
  rewrite (proj2 (Z.ltb_ge lo 0)) by lia.
  rewrite (proj2 (Z.ltb_ge hi 0)) by lia.
  destruct (Z_le_gt_dec (Z.of_nat (length l)) lo) as [Hbig | Hsmall].
  - rewrite (skipn_all2 l) by lia.
    rewrite (skipn_all2 l) by lia.
    rewrite !firstn_nil. reflexivity.
  - rewrite (Z.min_l lo) by lia.
    destruct (Z_le_gt_dec hi (Z.of_nat (length l))) as [Hin | Hout].
    + rewrite (Z.min_l hi) by lia. f_equal. lia.
    + rewrite (Z.min_r hi) by lia.
      apply firstn_beyond; rewrite length_skipn; lia.
Qed.

Lemma batch_at_eq (size : Z) (l : list JobDiscovered) (k : nat) :
  0 < size ->
  batch_at size l (Z.of_nat k * size)
  = firstn (Z.to_nat size) (skipn (k * Z.to_nat size) l).
Proof.
  intros Hsize. unfold batch_at, len.
  rewrite py_slice_nonneg by lia.
  replace (Z.to_nat (Z.of_nat k * size)) with (k * Z.to_nat size)%nat by nia.
  destruct (Z_le_gt_dec (Z.of_nat k * size + size) (Z.of_nat (length l)))
    as [Hin | Hout].
  - rewrite Z.min_l by lia. f_equal. nia.
  - rewrite Z.min_r by lia.
    destruct (le_gt_dec (length l) (k * Z.to_nat size)) as [Hbig | Hsmall].
    + rewrite (skipn_all2 l) by lia. rewrite !firstn_nil. reflexivity.
    + apply firstn_beyond; rewrite length_skipn; nia.
Qed.

Lemma chunks_concat {A} (sz : nat) (l : list A) (n : nat) :
  concat (map (fun k => firstn sz (skipn (k * sz) l)) (seq 0 n)) = firstn (n * sz) l.
Proof.
  induction n as [| n IH]; [reflexivity |].
  rewrite seq_S, map_app, concat_app, IH. simpl.
  rewrite app_nil_r, (Nat.add_comm sz), firstn_add_skipn. reflexivity.
Qed.

(** The starts of the batches, and the batches: a partition of the list
    into consecutive pieces. *)
Lemma batches_partition (size : Z) (l : list JobDiscovered) :
  0 < size ->
  exists starts,
    py_range 0 (len l) size = Ok starts
    /\ concat (map (batch_at size l) starts) = l.
Proof.
  intros Hsize. unfold py_range.
  rewrite (proj2 (Z.eqb_neq size 0)) by lia.
  rewrite (proj2 (Z.ltb_lt 0 size)) by lia.
  eexists. split; [reflexivity |].
  rewrite map_map.
  rewrite (map_ext _ (fun k => firstn (Z.to_nat size) (skipn (k * Z.to_nat size) l)))
    by (intros k; rewrite Z.add_0_l; apply batch_at_eq; exact Hsize).
  rewrite chunks_concat. apply firstn_all2.
  unfold len.
  set (n := Z.of_nat (length l)).
  assert (Hq : n <= ((n - 0 + size - 1) / size) * size).
  { pose proof (Z.div_mod (n - 0 + size - 1) size ltac:(lia)) as Hdm.
    pose proof (Z.mod_pos_bound (n - 0 + size - 1) size Hsize) as Hmod. nia. }
  assert (Hn : 0 <= (n - 0 + size - 1) / size) by (apply Z.div_pos; lia).
  nia.
Qed.

(** ** Batch pipeline driver: the job limit *)





(** ** Browser sessions *)

Lemma session_releases env : session_succeeds env -> releases_succeed env.
Proof.
  intros Hs h r. apply Hs. apply in_or_app. right.
  destruct r; simpl; auto.
Qed.

Lemma start_eq env s :
  session_succeeds env ->
  start env new_manager s = (Ok tt, started_manager, after s (start_calls env)).
Proof.
  intros Hs. unfold start, perform. simpl.
  rewrite (Hs _ CPlaywrightStart) by (simpl; auto).
  rewrite (Hs _ (CLaunch _)) by (simpl; auto).
  rewrite (Hs _ CNewContext) by (simpl; auto).
  rewrite (Hs _ CNewPage) by (simpl; auto).
  rewrite (Hs _ (CSetDefaultTimeout _)) by (simpl; auto 10).
  f_equal. trace_eq.
Qed.

Lemma close_started env s :
  session_succeeds env ->
  close env started_manager s = (Ok tt, after s close_calls).
Proof.
  intros Hs. rewrite close_eq by (apply session_releases; exact Hs). reflexivity.
Qed.

Lemma with_browser_eq {A} env (body : BrowserManager -> M A) s :
  session_succeeds env ->
  with_browser env body s
  = (fst (body started_manager (after s (start_calls env))),
     after (snd (body started_manager (after s (start_calls env)))) close_calls).
Proof.
  intros Hs. unfold with_browser. rewrite start_eq by exact Hs.
  destruct (body started_manager (after s (start_calls env))) as [r s2].
  rewrite close_started by exact Hs. reflexivity.
Qed.

Lemma bind_inv_ok {A B} (m : M A) (f : A -> M B) s b s' :
  bind m f s = (Ok b, s') ->
  exists a s1, m s = (Ok a, s1) /\ f a s1 = (Ok b, s').
Proof.
  unfold bind. destruct (m s) as [[a | e] s1]; [eauto | discriminate].
Qed.

(** ** Listing discovery: the merge across categories *)

Lemma merge_jobs_fold category found : forall d,
  merge_jobs d category found
  = fold_left add_listing (map (fun j => (category, j)) found) d.
Proof.
  unfold merge_jobs. induction found as [| j rest IH]; intros d; [reflexivity |].
  simpl. rewrite IH. reflexivity.
Qed.

Lemma search_categories_eq env company categories : forall d s,
  exists found s',
    searched env company s categories found s'
    /\ map fst found = categories
    /\ search_categories env company categories d s
       = (Ok (fold_left add_listing (tagged found) d), s').
Proof.
  induction categories as [| category rest IH]; intros d s.
  - exists [], s. repeat split. constructor.
  - destruct (discover_jobs_total env (search_url_of company category)
                (selectors company) s) as [listings [s1 Hd]].
    destruct (IH (merge_jobs d category listings) s1) as [found [s' [Hs [Hc Hrun]]]].
    exists ((category, listings) :: found), s'. split; [| split].
    + econstructor; eassumption.
    + simpl. rewrite Hc. reflexivity.
    + simpl search_categories. erewrite bind_ok by exact Hd.
      rewrite Hrun. unfold tagged. simpl. rewrite fold_left_app.
      rewrite <- merge_jobs_fold. reflexivity.
Qed.

Lemma has_key_In d h : has_key d h = true <-> In h (map fst d).
Proof.
  unfold has_key. rewrite existsb_exists. split.
  - intros [kv [Hin Heq]]. apply String.eqb_eq in Heq. subst h.
    apply in_map. exact Hin.
  - intros Hin. apply in_map_iff in Hin. destruct Hin as [kv [Heq Hin]].
    exists kv. split; [exact Hin |]. apply String.eqb_eq. exact Heq.
Qed.

Lemma first_seen_app h all x :
  first_seen h (all ++ [x])
  = match first_seen h all with
    | Some r => Some r
    | None => if String.eqb (url_hash (snd x)) h then Some x else None
    end.
Proof.
  unfold first_seen. induction all as [| y all IH]; simpl.
  - reflexivity.
  - destruct (String.eqb (url_hash (snd y)) h); [reflexivity | exact IH].
Qed.

Lemma first_seen_Some h all cj :
  first_seen h all = Some cj -> In cj all /\ url_hash (snd cj) = h.
Proof.
  unfold first_seen. intros H. apply find_some in H. destruct H as [Hin Heq].
  split; [exact Hin |]. apply String.eqb_eq. exact Heq.
Qed.


Lemma NoDup_snoc {A} (l : list A) (x : A) :
  List.NoDup l -> ~ In x l -> List.NoDup (l ++ [x]).
Proof.
  induction l as [| y l IH]; simpl; intros Hn Hx.
  - constructor; [intros [] | constructor].
  - inversion Hn as [| ? ? Hy Hl]; subst. constructor.
    + intros Hin. apply in_app_or in Hin. destruct Hin as [Hin | [<- | []]].
      * contradiction.
      * apply Hx. left. reflexivity.
    + apply IH; [exact Hl |]. intros Hin. apply Hx. right. exact Hin.
Qed.

(** What the dict holds after the listings [all] were merged into the
    empty dict. *)
Record merge_invariant (all d : list (string * JobDiscovered)) : Prop := {
  keys_are_hashes : forall kv, In kv d -> fst kv = url_hash (snd kv);
  keys_distinct : List.NoDup (map fst d);
  keys_seen : forall h, In h (map fst d) <-> first_seen h all <> None;
  values_first : forall j,
    In j (map snd d) <->
    exists c j0, first_seen (url_hash j) all = Some (c, j0)
                 /\ j = set_search_category j0 c
}.

Lemma merge_invariant_holds all :
  merge_invariant all (fold_left add_listing all []).
Proof.
  induction all as [| [c j] all IH] using rev_ind.
  - simpl. constructor.
    + intros kv [].
    + constructor.
    + intros h. simpl. split; [intros [] | intros H; apply H; reflexivity].
    + intros j. simpl. split; [intros [] | intros [c [j0 [H _]]]; discriminate].
  - rewrite fold_left_app. simpl.
    set (d := fold_left add_listing all []) in *.
    destruct IH as [Hk Hd Hs Hv].
    unfold add_listing. simpl fst. simpl snd.
    destruct (has_key d (url_hash j)) eqn:Hkey.
    + (* the fingerprint is known: nothing changes *)
      assert (Hseen : first_seen (url_hash j) all <> None)
        by (apply Hs, has_key_In; exact Hkey).
      assert (Hsame : forall h, first_seen h (all ++ [(c, j)]) = first_seen h all).
      { intros h. rewrite first_seen_app. simpl.
        destruct (first_seen h all) eqn:Hf; [reflexivity |].
        destruct (String.eqb (url_hash j) h) eqn:Heq; [| reflexivity].
        apply String.eqb_eq in Heq. subst h. contradiction. }
      constructor; try assumption.
      * intros h. rewrite Hsame. apply Hs.
      * intros j'. rewrite Hsame. apply Hv.
    + (* a new fingerprint: the listing enters at the end *)
      assert (Hnew : ~ In (url_hash j) (map fst d)).
      { intros Hin. apply has_key_In in Hin. congruence. }
      assert (Hnone : first_seen (url_hash j) all = None).
      { destruct (first_seen (url_hash j) all) eqn:Hf; [| reflexivity].
        exfalso. apply Hnew, Hs. congruence. }
      constructor.
      * intros kv Hin. apply in_app_or in Hin. destruct Hin as [Hin | [<- | []]].
        -- apply Hk. exact Hin.
        -- reflexivity.
      * rewrite map_app. simpl. apply NoDup_snoc; assumption.
      * intros h. rewrite map_app, in_app_iff, first_seen_app. simpl. split.
        -- intros [Hin | [<- | []]].
           ++ apply Hs in Hin. destruct (first_seen h all); [discriminate | contradiction].
           ++ rewrite Hnone, String.eqb_refl. discriminate.
        -- intros H. destruct (first_seen h all) eqn:Hf.
           ++ left. apply Hs. congruence.
           ++ destruct (String.eqb (url_hash j) h) eqn:Heq; [| contradiction].
              right. left. apply String.eqb_eq. exact Heq.
      * intros j'. rewrite map_app, in_app_iff, first_seen_app. simpl. split.
        -- intros [Hin | [<- | []]].
           ++ apply Hv in Hin. destruct Hin as (c0 & j0 & Hf & ->).
              exists c0, j0. rewrite Hf. split; reflexivity.
           ++ exists c, j. simpl. rewrite Hnone, String.eqb_refl. split; reflexivity.
        -- intros (c0 & j0 & Hf & ->). simpl in Hf.
           destruct (first_seen (url_hash j0) all) eqn:Hf0.
           ++ injection Hf as ->. left. apply Hv. exists c0, j0.
              simpl. split; [exact Hf0 | reflexivity].
           ++ destruct (String.eqb (url_hash j) (url_hash j0)); [| discriminate].
              injection Hf as <- <-. right. left. reflexivity.
Qed.

Lemma res_bind_inv_ok {A B} (r : Res A) (f : A -> Res B) b :
  res_bind r f = Ok b -> exists a, r = Ok a /\ f a = Ok b.
Proof. destruct r as [a | e]; simpl; [eauto | discriminate]. Qed.

(** A listing made from a card carries the hash of its own URL, which is
    the normalised link of the card, and no category yet. *)
Lemma extract_job_from_card_listing env card sels base_url j :
  extract_job_from_card env card sels base_url = Ok (Some j) ->
  url_hash j = generate_url_hash (url j)
  /\ search_category j = None
  /\ exists href, normalize_url env base_url href = Ok (url j).
Proof.
  unfold extract_job_from_card. intros H.
  apply res_bind_inv_ok in H. destruct H as [title_sel [_ H]].
  apply res_bind_inv_ok in H. destruct H as [title_elem [_ H]].
  apply res_bind_inv_ok in H. destruct H as [title_text [_ H]].
  apply res_bind_inv_ok in H. destruct H as [link_sel [_ H]].
  apply res_bind_inv_ok in H. destruct H as [link_elem [_ H]].
  apply res_bind_inv_ok in H. destruct H as [job_url [Hurl H]].
  apply res_bind_inv_ok in H. destruct H as [loc [_ H]].
  apply res_bind_inv_ok in H. destruct H as [tm [_ H]].
  destruct job_url as [u |]; [| discriminate].
  destruct title_text as [tt0 |]; [| discriminate].
  destruct (PyStr.truthy u && PyStr.truthy tt0); [| discriminate].
  injection H as <-. simpl. split; [reflexivity |]. split; [reflexivity |].
  destruct link_elem as [n |]; [| discriminate].
  apply res_bind_inv_ok in Hurl. destruct Hurl as [href [_ Hurl]].
  destruct href as [h |]; [| discriminate].
  apply res_bind_inv_ok in Hurl. destruct Hurl as [u' [Hn Hu]].
  injection Hu as ->. exists h. exact Hn.
Qed.

Lemma extracted_listings env sels base_url cards j :
  In j (extracted env sels base_url cards) ->
  exists card, In card cards /\ extract_job_from_card env card sels base_url = Ok (Some j).
Proof.
  induction cards as [| card rest IH]; simpl; [intros [] |].
  destruct (extract_job_from_card env card sels base_url) as [[j0 |] | e] eqn:Hc.
  - intros [<- | Hin]; [exists card; auto |].
    destruct (IH Hin) as [c [Hc1 Hc2]]. exists c. auto.
  - intros Hin. destruct (IH Hin) as [c [Hc1 Hc2]]. exists c. auto.
  - intros Hin. destruct (IH Hin) as [c [Hc1 Hc2]]. exists c. auto.
Qed.

(** What [discover_jobs] returns is the empty list or the listings of the
    cards of the page. *)
Lemma discover_jobs_inv env search_url sels s found s' :
  discover_jobs env search_url sels s = (Ok found, s') ->
  found = [] \/ exists cards, found = extracted env sels search_url cards.
Proof.
  unfold discover_jobs, try_except.
  destruct (discover_steps env search_url sels s) as [[f | e] s1] eqn:Hsteps.
  2:{ intros [= <- <-]. left. reflexivity. }
  intros [= <- <-]. unfold discover_steps in Hsteps.
  apply bind_inv_ok in Hsteps. destruct Hsteps as (_ & s2 & _ & Hsteps).
  apply bind_inv_ok in Hsteps. destruct Hsteps as (_ & s3 & _ & Hsteps).
  apply bind_inv_ok in Hsteps. destruct Hsteps as (sel & s4 & _ & Hsteps).
  apply bind_inv_ok in Hsteps. destruct Hsteps as (appeared & s5 & _ & Hsteps).
  destruct appeared.
  - apply bind_inv_ok in Hsteps. destruct Hsteps as (_ & s6 & _ & Hsteps).
    apply bind_inv_ok in Hsteps. destruct Hsteps as (cards & s7 & _ & Hsteps).
    rewrite extract_cards_eq in Hsteps. injection Hsteps as <- _.
    right. exists cards. reflexivity.
  - injection Hsteps as <- _. left. reflexivity.
Qed.

Lemma discover_jobs_listing env search_url sels s found s' j :
  discover_jobs env search_url sels s = (Ok found, s') ->
  In j found ->
  url_hash j = generate_url_hash (url j).
Proof.
  intros Hd Hin. destruct (discover_jobs_inv _ _ _ _ _ _ Hd) as [-> | [cards ->]].
  - destruct Hin.
  - destruct (extracted_listings _ _ _ _ _ Hin) as [card [_ Hc]].
    apply (extract_job_from_card_listing _ _ _ _ _ Hc).
Qed.

Lemma searched_listing env company s categories found s' c j :
  searched env company s categories found s' ->
  In (c, j) (tagged found) ->
  url_hash j = generate_url_hash (url j).
Proof.
  induction 1 as [| s category listings s1 rest found s2 Hd Hs IH]; simpl.
  - intros [].
  - intros Hin. apply in_app_or in Hin. destruct Hin as [Hin | Hin].
    + apply in_map_iff in Hin. destruct Hin as [j' [[= _ ->] Hin]].
      eapply discover_jobs_listing; eassumption.
    + apply IH. exact Hin.
Qed.

Lemma map_hash_values d :
  (forall kv : string * JobDiscovered, In kv d -> fst kv = url_hash (snd kv)) ->
  map url_hash (map snd d) = map fst d.
Proof.
  intros H. rewrite map_map. apply map_ext_in. intros kv Hin.
  symmetry. apply H. exact Hin.
Qed.


(** ** Detail extraction *)

Lemma lift_eq {A} (r : Res A) s : lift r s = (r, s).
Proof. reflexivity. Qed.




(** A job returned by the retry loop was built by an attempt that ended in
    the state in which the loop returns. *)
Lemma retry_loop_success env jd cid sels max_retries :
  forall remaining attempt_no s job s',
    retry_loop env jd cid sels max_retries remaining attempt_no s
    = (Ok (Some job), s') ->
    exists s0, attempt env jd cid sels s0 = (Ok job, s').
Proof.
  induction remaining as [| remaining IH]; intros attempt_no s job s' H.
  - simpl in H. discriminate.
  - simpl in H. apply bind_inv_ok in H. destruct H as (r & s1 & Htry & Hrest).
    unfold try_except in Htry.
    destruct (bind (attempt env jd cid sels) (fun job0 => ret (Some (Some job0))) s)
      as [[a | e] s2] eqn:Hatt.
    + injection Htry as <- <-.
      apply bind_inv_ok in Hatt. destruct Hatt as (job0 & s3 & Hatt & Hret).
      injection Hret as <- <-. injection Hrest as <- <-.
      exists s. exact Hatt.
    + destruct (attempt_no <? max_retries - 1).
      * apply bind_inv_ok in Htry. destruct Htry as (u & s3 & _ & Hret).
        injection Hret as <- <-. apply IH in Hrest. exact Hrest.
      * injection Htry as <- <-. discriminate.
Qed.






(** ** The scraper never writes to the database *)

Lemma keeps_db_ret {A} (a : A) : keeps_db (ret a).
Proof. intros s. reflexivity. Qed.

Lemma keeps_db_lift {A} (r : Res A) : keeps_db (lift r).
Proof. intros s. reflexivity. Qed.

Lemma keeps_db_perform env c : keeps_db (perform env c).
Proof. intros s. reflexivity. Qed.

Lemma keeps_db_query_all env sel : keeps_db (query_selector_all env sel).
Proof. intros s. reflexivity. Qed.

Lemma keeps_db_query env sel : keeps_db (query_selector env sel).
Proof. intros s. reflexivity. Qed.

Lemma keeps_db_bind {A B} (m : M A) (f : A -> M B) :
  keeps_db m -> (forall a, keeps_db (f a)) -> keeps_db (bind m f).
Proof.
  intros Hm Hf s. unfold bind. specialize (Hm s).
  destruct (m s) as [[a | e] s1]; simpl in *.
  - rewrite (Hf a s1). exact Hm.
  - exact Hm.
Qed.

Lemma keeps_db_try {A} (m : M A) (h : string -> M A) :
  keeps_db m -> (forall e, keeps_db (h e)) -> keeps_db (try_except m h).
Proof.
  intros Hm Hh s. unfold try_except. specialize (Hm s).
  destruct (m s) as [[a | e] s1]; simpl in *.
  - exact Hm.
  - rewrite (Hh e s1). exact Hm.
Qed.

Lemma keeps_db_start env self s : db (snd (start env self s)) = db s.
Proof.
  unfold start, perform. simpl.
  repeat match goal with
         | |- context [match effect env ?h ?c with _ => _ end] =>
             destruct (effect env h c) as [[] | ?]
         end; reflexivity.
Qed.

Lemma keeps_db_close env self : keeps_db (close env self).
Proof.
  unfold close, release_if.
  repeat (apply keeps_db_bind; [| intros ?]);
    match goal with |- keeps_db (match ?h with _ => _ end) => destruct h end;
    first [apply keeps_db_perform | apply keeps_db_ret].
Qed.

Lemma keeps_db_with_browser {A} env (body : BrowserManager -> M A) :
  (forall mgr, keeps_db (body mgr)) -> keeps_db (with_browser env body).
Proof.
  intros Hb s. unfold with_browser.
  pose proof (keeps_db_start env new_manager s) as Hs.
  destruct (start env new_manager s) as [[[[] | e] mgr] s1]; simpl in *; [| exact Hs].
  pose proof (Hb mgr s1) as H1.
  destruct (body mgr s1) as [r s2]. simpl in H1.
  pose proof (keeps_db_close env mgr s2) as H2.
  destruct (close env mgr s2) as [[[] | e] s3]; simpl in *; congruence.
Qed.

Create HintDb keeps.
#[local] Hint Resolve keeps_db_ret keeps_db_lift keeps_db_perform keeps_db_query_all
  keeps_db_query : keeps.

Ltac keeps_step :=
  match goal with
  | |- keeps_db (bind _ _) => apply keeps_db_bind; [| intros ?]
  | |- keeps_db (try_except _ _) => apply keeps_db_try; [| intros ?]
  | |- keeps_db (with_browser _ _) => apply keeps_db_with_browser; intros ?
  | |- keeps_db (match ?x with _ => _ end) => destruct x
  | |- keeps_db _ => solve [auto with keeps]
  end.
Ltac keeps := repeat keeps_step.

Lemma keeps_db_scroll_loop env sel max : forall fuel previous scroll_count,
  keeps_db (scroll_loop env sel max fuel previous scroll_count).
Proof.
  induction fuel as [| fuel IH]; intros previous scroll_count; simpl.
  - keeps.
  - destruct (scroll_count <? max); [| keeps].
    unfold scroll_to_bottom. keeps.
Qed.
#[local] Hint Resolve keeps_db_scroll_loop : keeps.

Lemma keeps_db_infinite_scroll env sel max : keeps_db (infinite_scroll env sel max).
Proof. unfold infinite_scroll. keeps. Qed.
#[local] Hint Resolve keeps_db_infinite_scroll : keeps.

Lemma keeps_db_extract_cards env sels search_url cards : forall found,
  keeps_db (extract_cards env sels search_url cards found).
Proof. induction cards as [| card rest IH]; intros found; simpl; keeps. Qed.
#[local] Hint Resolve keeps_db_extract_cards : keeps.

Lemma keeps_db_discover_jobs env search_url sels :
  keeps_db (discover_jobs env search_url sels).
Proof. unfold discover_jobs, discover_steps. keeps. Qed.
#[local] Hint Resolve keeps_db_discover_jobs : keeps.

Lemma keeps_db_search_categories env company categories : forall d,
  keeps_db (search_categories env company categories d).
Proof. induction categories as [| category rest IH]; intros d; simpl; keeps. Qed.
#[local] Hint Resolve keeps_db_search_categories : keeps.

Lemma keeps_db_discover_all env company categories :
  keeps_db (discover_all_jobs_for_company env company categories).
Proof. unfold discover_all_jobs_for_company. keeps. Qed.

Lemma keeps_db_fallback env fallbacks : forall fields,
  keeps_db (fallback_description env fallbacks fields).
Proof. induction fallbacks as [| sel rest IH]; intros fields; simpl; keeps. Qed.
#[local] Hint Resolve keeps_db_fallback : keeps.

Lemma keeps_db_optional_field env sels key field fields :
  keeps_db (optional_field env sels key field fields).
Proof. unfold optional_field. keeps. Qed.
#[local] Hint Resolve keeps_db_optional_field : keeps.

Lemma keeps_db_extract_fields env sels : keeps_db (_extract_fields env sels).
Proof. unfold _extract_fields. keeps. Qed.
#[local] Hint Resolve keeps_db_extract_fields : keeps.

Lemma keeps_db_attempt env jd cid sels : keeps_db (attempt env jd cid sels).
Proof. unfold attempt. keeps. Qed.
#[local] Hint Resolve keeps_db_attempt : keeps.

Lemma keeps_db_retry_loop env jd cid sels max_retries : forall remaining attempt_no,
  keeps_db (retry_loop env jd cid sels max_retries remaining attempt_no).
Proof.
  induction remaining as [| remaining IH]; intros attempt_no; simpl; keeps.
Qed.
#[local] Hint Resolve keeps_db_retry_loop : keeps.

Lemma keeps_db_extract_batch env cid sels batch_len items : forall i acc,
  keeps_db (extract_batch env cid sels batch_len items i acc).
Proof.
  induction items as [| jd rest IH]; intros i acc; simpl; keeps;
    unfold extract_job_details; keeps.
Qed.
#[local] Hint Resolve keeps_db_extract_batch : keeps.

Lemma keeps_db_extract_batches env listings cid sels size starts : forall acc,
  keeps_db (extract_batches env listings cid sels size starts acc).
Proof. induction starts as [| batch_num rest IH]; intros acc; simpl; keeps. Qed.
#[local] Hint Resolve keeps_db_extract_batches : keeps.

Lemma keeps_db_extract_multiple_jobs env listings cid sels size :
  keeps_db (extract_multiple_jobs env listings cid sels size).
Proof. unfold extract_multiple_jobs. keeps. Qed.

(** ** Batch pipeline driver *)

Lemma job_exists_eq h s :
  job_exists h s
  = (Ok (existsb (fun row => String.eqb (job_url_hash row) h) (jobs (db s))), s).
Proof.
  unfold job_exists. f_equal. f_equal.
  induction (jobs (db s)) as [| row rows IH]; [reflexivity |].
  simpl. destruct (String.eqb (job_url_hash row) h); simpl.
  - apply Z.ltb_lt. lia.
  - exact IH.
Qed.

Lemma filter_new_eq found : forall s,
  filter_new found s = (Ok (new_listings (db s) found), s).
Proof.
  induction found as [| j rest IH]; intros s; [reflexivity |].
  simpl filter_new.
  erewrite bind_ok by apply job_exists_eq.
  erewrite bind_ok by apply IH.
  unfold ret. simpl.
  destruct (existsb _ (jobs (db s))); reflexivity.
Qed.

(** Saving a batch appends one row for each of its jobs and touches
    nothing else. *)
Lemma save_jobs_ok env : forall extracted_jobs n s n' s',
  save_jobs env extracted_jobs n s = (Ok n', s') ->
  calls s' = calls s
  /\ n' = n + len extracted_jobs
  /\ scrape_runs (db s') = scrape_runs (db s)
  /\ map job_url_hash (jobs (db s'))
     = map job_url_hash (jobs (db s)) ++ map job_url_hash extracted_jobs.
Proof.
  induction extracted_jobs as [| job rest IH]; intros n s n' s' H.
  - injection H as <- <-. unfold len. simpl. rewrite app_nil_r.
    repeat split; lia.
  - simpl in H. apply bind_inv_ok in H. destruct H as (jid & s1 & Hadd & H).
    apply IH in H. destruct H as (Hc & Hn & Hr & Hj).
    unfold add_job in Hadd.
    destruct (existsb _ (jobs (db s))); [discriminate |].
    destruct (existsb _ (jobs (db s))); [discriminate |].
    injection Hadd as _ <-. simpl in *.
    repeat split.
    + exact Hc.
    + unfold len in *. simpl. lia.
    + exact Hr.
    + rewrite Hj, map_app. simpl. rewrite <- app_assoc. reflexivity.
Qed.

Lemma next_id_above ids i : In i ids -> i < next_id ids.
Proof.
  unfold next_id. induction ids as [| j ids IH]; simpl; [intros [] |].
  intros [-> | Hin]; [lia |]. specialize (IH Hin). lia.
Qed.

(** An update of the run [next_id ...] leaves the older rows alone. *)
Lemma update_older_rows (f : ScrapeRun -> ScrapeRun) (rows : list ScrapeRun) :
  map (fun r => if Z.eqb (run_id r) (next_id (map run_id rows)) then f r else r) rows
  = rows.
Proof.
  transitivity (map (fun r : ScrapeRun => r) rows); [| apply map_id].
  apply map_ext_in. intros r Hin.
  assert (Hlt : run_id r < next_id (map run_id rows))
    by (apply next_id_above, in_map; exact Hin).
  rewrite (proj2 (Z.eqb_neq _ _)) by lia. reflexivity.
Qed.

(** C1.  A run with 45 new listings forms the three consecutive batches of
    20, 20 and 5 listings.  When the extraction of the first batch returns
    and its jobs are saved, and the extraction of the second batch raises
    [e], the run ends there: no call is made after the failure, the rows
    saved for the first batch stay in the [jobs] table, and the row of the
    run has the status [failed] and the message [e] (no message when [e] is
    the empty string). *)
Theorem failed_batch_keeps_saved_batches
    env company categories job_limit s found s1 jobs1 s3 n1 s4 e s5 :
  let rid := next_id (map run_id (scrape_runs (db s))) in
  let s0 := snd (create_scrape_run env (company_id_of company)
                   "Multiple categories" s) in
  let s2 := snd (update_scrape_run env rid (Some (len found)) None None None s1) in
  let new_jobs := apply_limit job_limit (new_listings (db s2) found) in
  discover_all_jobs_for_company env company categories s0 = (Ok found, s1) ->
  len new_jobs = 45 ->
  extract_multiple_jobs env (batch_at batch_size new_jobs 0)
    (company_id_of company) (selectors company) batch_size s2 = (Ok jobs1, s3) ->
  save_jobs env jobs1 0 s3 = (Ok n1, s4) ->
  extract_multiple_jobs env (batch_at batch_size new_jobs 20)
    (company_id_of company) (selectors company) batch_size s4 = (Raise e, s5) ->
  (py_range 0 (len new_jobs) batch_size = Ok [0; 20; 40]
   /\ map len (map (batch_at batch_size new_jobs) [0; 20; 40]) = [20; 20; 5]
   /\ concat (map (batch_at batch_size new_jobs) [0; 20; 40]) = new_jobs)
  /\ exists s6,
       scrape_company env company categories job_limit s = (Ok tt, s6)
       /\ calls s6 = calls s5
       /\ jobs (db s6) = jobs (db s4)
       /\ map job_url_hash (jobs (db s6))
          = map job_url_hash (jobs (db s)) ++ map job_url_hash jobs1
       /\ scrape_runs (db s6)
          = scrape_runs (db s) ++ [failed_run env company s (len found) e].
Proof.
  intros rid s0 s2 new_jobs Hdisc Hlen Hb1 Hsave Hb2.
  assert (Hrange : py_range 0 (len new_jobs) batch_size = Ok [0; 20; 40])
    by (rewrite Hlen; reflexivity).
  assert (Hlength : length new_jobs = 45%nat) by (unfold len in Hlen; lia).
  split.
  { split; [exact Hrange |]. split.
    - assert (B0 : batch_at batch_size new_jobs 0
                   = firstn 20 (skipn 0 new_jobs))
        by exact (batch_at_eq batch_size new_jobs 0%nat eq_refl).
      assert (B1 : batch_at batch_size new_jobs 20
                   = firstn 20 (skipn 20 new_jobs))
        by exact (batch_at_eq batch_size new_jobs 1%nat eq_refl).
      assert (B2 : batch_at batch_size new_jobs 40
                   = firstn 20 (skipn 40 new_jobs))
        by exact (batch_at_eq batch_size new_jobs 2%nat eq_refl).
      cbn [map]. rewrite B0, B1, B2. unfold len.
      rewrite !length_firstn, !length_skipn, Hlength. reflexivity.
    - destruct (batches_partition batch_size new_jobs eq_refl) as [starts [Hs Hc]].
      rewrite Hrange in Hs. injection Hs as <-. exact Hc. }
  assert (Hdb1 : db s1 = db s0).
  { pose proof (keeps_db_discover_all env company categories s0) as H.
    rewrite Hdisc in H. exact H. }
  assert (Hdb3 : db s3 = db s2).
  { pose proof (keeps_db_extract_multiple_jobs env (batch_at batch_size new_jobs 0)
                  (company_id_of company) (selectors company) batch_size s2) as H.
    rewrite Hb1 in H. exact H. }
  assert (Hdb5 : db s5 = db s4).
  { pose proof (keeps_db_extract_multiple_jobs env (batch_at batch_size new_jobs 20)
                  (company_id_of company) (selectors company) batch_size s4) as H.
    rewrite Hb2 in H. exact H. }
  destruct (save_jobs_ok env jobs1 0 s3 n1 s4 Hsave) as (Hc4 & Hn1 & Hr4 & Hj4).
  assert (Hsteps : scrape_steps env company categories job_limit rid s0
                   = (Raise e, s5)).
  { unfold scrape_steps.
    erewrite bind_ok by exact Hdisc.
    rewrite (bind_ok _ _ s1 tt s2) by reflexivity.
    rewrite (bind_ok _ _ s2 (new_listings (db s2) found) s2) by apply filter_new_eq.
    change (apply_limit job_limit (new_listings (db s2) found)) with new_jobs.
    assert (Hcons : forall a b : M unit,
               match new_jobs with [] => a | _ :: _ => b end = b).
    { intros a b. clear - Hlength. destruct new_jobs; [discriminate | reflexivity]. }
    cbv zeta. rewrite Hcons.
    rewrite Hrange. erewrite bind_ok by reflexivity.
    erewrite bind_raise; [reflexivity |].
    cbn [save_batches].
    erewrite bind_ok by exact Hb1.
    erewrite bind_ok by exact Hsave.
    erewrite bind_raise by exact Hb2. reflexivity. }
  eexists. split.
  { unfold scrape_company.
    erewrite bind_ok by reflexivity.
    erewrite try_except_raise by exact Hsteps. reflexivity. }
  split; [reflexivity |].
  split; [cbn; rewrite Hdb5; reflexivity |].
  split.
  { cbn. rewrite Hdb5, Hj4, Hdb3. cbn. rewrite Hdb1. reflexivity. }
  cbn. rewrite Hdb5, Hr4, Hdb3. cbn. rewrite Hdb1. cbn.
  rewrite !map_app. cbn.
  unfold rid. rewrite !update_older_rows, !Z.eqb_refl. cbn.
  rewrite ?Z.eqb_refl. unfold failed_run. cbn.
  destruct e; reflexivity.
Qed.

(** ** Fingerprints *)
















(** ** The properties on sample sites *)

Example sha256_abc :
  Sha256.hexdigest "abc"
  = "ba7816bf8f01cfea414140de5dae2223b00361a396177a9cb410ff61f20015ad"%string.
Proof. vm_compute. reflexivity. Qed.

Example sha256_empty :
  Sha256.hexdigest ""
  = "e3b0c44298fc1c149afbf4c8996fb92427ae41e4649b934ca495991b7852b855"%string.
Proof. vm_compute. reflexivity. Qed.

Example generate_url_hash_job :
  generate_url_hash "https://a.example/jobs/1"
  = "a353124ef9bd45f0898da557ca53cbe89b310c86ebb0e8c5e043817899274d25"%string.
Proof. vm_compute. reflexivity. Qed.

Example strip_spaces : PyStr.strip "  Contract " = "Contract"%string.
Proof. vm_compute. reflexivity. Qed.

Example search_url_backend :
  search_url_of example_company "Backend Engineer"
  = "https://jobs.example/search?q=Backend+Engineer"%string.
Proof. vm_compute. reflexivity. Qed.

(** The two searches of [two_category_site] give three listings; the shared
    one keeps the title and the category of the first search. *)
Example two_categories_merged :
  map (fun j => (url j, title j, search_category j))
    (match fst (discover_all_jobs_for_company two_category_site example_company
                  ["Backend Engineer"; "Full Stack Engineer"]%string initial_state) with
     | Ok found => found
     | Raise _ => []
     end)
  = [("https://jobs.example/job/1", "Backend Engineer", Some "Backend Engineer");
     ("https://jobs.example/job/2", "API Engineer", Some "Backend Engineer");
     ("https://jobs.example/job/3", "Web Engineer", Some "Full Stack Engineer")]%string.
Proof. vm_compute. reflexivity. Qed.


Example start_fails_at_new_context :
  start no_context_site new_manager initial_state
  = (Raise "new_context failed"%string,
     {| playwright := Some Acquired; browser := Some Acquired;
        context := None; page := None |},
     after initial_state [CPlaywrightStart; CLaunch true; CNewContext]).
Proof. reflexivity. Qed.




(** C10 on a detail page that shows an employment type. *)
Definition detail_run : Res (option Job) * State :=
  extract_job_details detail_site (sample_listing 1) (Some 1) site_selectors 3
    initial_state.

Definition detail_job : Job :=
  match fst detail_run with
  | Ok (Some job) => job
  | _ => {| id := None; company_id := 0; job_url := ""; job_url_hash := "";
            job_title := ""; job_team := None; job_location := None;
            employment_type := None; experience_level := None;
            raw_description := None; scraped_at := None; processed := false |}
  end.

Example detail_job_fields :
  (job_title detail_job, employment_type detail_job, raw_description detail_job)
  = ("Engineer"%string, Some "Contract"%string, Some "Build things."%string).
Proof. vm_compute. reflexivity. Qed.


(** Without a [detail_type] selector the employment type is [Full-time]. *)
Example employment_type_default :
  match fst (extract_job_details detail_site (sample_listing 1) (Some 1)
               (delete "detail_type"%string site_selectors) 3 initial_state) with
  | Ok (Some job) => employment_type job
  | _ => None
  end = Some "Full-time"%string.
Proof. vm_compute. reflexivity. Qed.


(** C1 on a site with 45 listings where the browser of the second batch
    cannot be launched. *)
Lemma failed_batch_on_third_launch :
  discover_all_jobs_for_company third_launch_fails example_company
    ["Backend Engineer"%string] run_start = (Ok run_found, snd run_discovery)
  /\ len run_new_jobs = 45
  /\ extract_multiple_jobs third_launch_fails (batch_at batch_size run_new_jobs 0)
       (company_id_of example_company) (selectors example_company) batch_size
       run_recorded = (Ok run_jobs1, snd run_batch1)
  /\ save_jobs third_launch_fails run_jobs1 0 (snd run_batch1) = (Ok 20, snd run_saved)
  /\ extract_multiple_jobs third_launch_fails (batch_at batch_size run_new_jobs 20)
       (company_id_of example_company) (selectors example_company) batch_size
       (snd run_saved) = (Raise "browser launch failed"%string, snd run_batch2)
  /\ (py_range 0 (len run_new_jobs) batch_size = Ok [0; 20; 40]
      /\ map len (map (batch_at batch_size run_new_jobs) [0; 20; 40]) = [20; 20; 5]
      /\ concat (map (batch_at batch_size run_new_jobs) [0; 20; 40]) = run_new_jobs)
  /\ exists s6,
       scrape_company third_launch_fails example_company
         ["Backend Engineer"%string] None initial_state = (Ok tt, s6)
       /\ calls s6 = calls (snd run_batch2)
       /\ jobs (db s6) = jobs (db (snd run_saved))
       /\ map job_url_hash (jobs (db s6))
          = map job_url_hash (jobs (db initial_state)) ++ map job_url_hash run_jobs1
       /\ scrape_runs (db s6)
          = scrape_runs (db initial_state)
            ++ [failed_run third_launch_fails example_company initial_state
                  (len run_found) "browser launch failed"].
Proof.
  assert (H1 : discover_all_jobs_for_company third_launch_fails example_company
                 ["Backend Engineer"%string] run_start
               = (Ok run_found, snd run_discovery)) by (vm_compute; reflexivity).
  assert (H2 : len run_new_jobs = 45) by (vm_compute; reflexivity).
  assert (H3 : extract_multiple_jobs third_launch_fails
                 (batch_at batch_size run_new_jobs 0)
                 (company_id_of example_company) (selectors example_company)
                 batch_size run_recorded
               = (Ok run_jobs1, snd run_batch1)) by (vm_compute; reflexivity).
  assert (H4 : save_jobs third_launch_fails run_jobs1 0 (snd run_batch1)
               = (Ok 20, snd run_saved)) by (vm_compute; reflexivity).
  assert (H5 : extract_multiple_jobs third_launch_fails
                 (batch_at batch_size run_new_jobs 20)
                 (company_id_of example_company) (selectors example_company)
                 batch_size (snd run_saved)
               = (Raise "browser launch failed"%string, snd run_batch2))
    by (vm_compute; reflexivity).
  split; [exact H1 |]. split; [exact H2 |]. split; [exact H3 |].
  split; [exact H4 |]. split; [exact H5 |].
  exact (failed_batch_keeps_saved_batches third_launch_fails example_company
           ["Backend Engineer"%string] None initial_state
           run_found (snd run_discovery) run_jobs1 (snd run_batch1) 20
           (snd run_saved) "browser launch failed"%string (snd run_batch2)
           H1 H2 H3 H4 H5).
Defined.

(** The same run as a whole: 20 rows saved, the run marked failed with the
    message, and the browser of the second batch never started. *)
Example failed_run_outcome :
  match scrape_company third_launch_fails example_company
          ["Backend Engineer"%string] None initial_state with
  | (Ok _, s6) =>
      (length (jobs (db s6)),
       map (fun r => (status r, error_message r, jobs_discovered r))
         (scrape_runs (db s6)),
       launches (calls s6))
  | (Raise _, _) => (O, [], O)
  end
  = (20%nat, [(Some "failed", Some "browser launch failed", 45)]%string, 3%nat).
Proof. vm_compute. reflexivity. Qed.

(** ** More on the render session *)

Lemma scroll_iterations_app h1 h2 :
  scroll_iterations (h1 ++ h2) = (scroll_iterations h1 + scroll_iterations h2)%nat.
Proof. unfold scroll_iterations. rewrite List.filter_app, length_app. reflexivity. Qed.

Lemma scroll_loop_scrolls env sel max : forall fuel previous scroll_count s,
  exists cs,
    snd (scroll_loop env sel max fuel previous scroll_count s) = after s cs
    /\ (scroll_iterations cs <= fuel)%nat.
Proof.
  induction fuel as [| fuel IH]; intros previous scroll_count s.
  - exists []. simpl. rewrite after_nil. split; [reflexivity | unfold scroll_iterations; simpl; lia].
  - simpl. destruct (scroll_count <? max).
    2:{ exists []. simpl. rewrite after_nil. split; [reflexivity | unfold scroll_iterations; simpl; lia]. }
    unfold bind at 1. unfold scroll_to_bottom. unfold bind at 1.
    rewrite perform_eq.
    destruct (effect env (calls s) (CEvaluate scroll_js)) as [[] | e].
    2:{ exists [CEvaluate scroll_js]. split; [reflexivity |].
        unfold scroll_iterations. simpl. lia. }
    rewrite perform_eq.
    destruct (effect env (calls (after s [CEvaluate scroll_js])) _) as [[] | e].
    2:{ eexists. rewrite after_after. split; [reflexivity |].
        unfold scroll_iterations. simpl. lia. }
    rewrite after_after.
    unfold bind at 1. unfold try_except, bind. rewrite query_selector_all_eq.
    destruct (elements env _ sel) as [els | e]; simpl.
    + rewrite after_after.
      destruct (Z.of_nat (length els) =? previous); simpl.
      * eexists. split; [reflexivity |]. unfold scroll_iterations. simpl. lia.
      * match goal with
        | |- context [scroll_loop _ _ _ _ ?p ?c ?st] =>
            destruct (IH p c st) as [cs [Hcs Hn]]
        end.
        eexists. rewrite Hcs, after_after. split; [reflexivity |].
        rewrite scroll_iterations_app. unfold scroll_iterations at 1. simpl. lia.
    + rewrite after_after. eexists. split; [reflexivity |].
      unfold scroll_iterations. simpl. lia.
Qed.

(** X1.  Whatever the page does, [infinite_scroll] scrolls at most
    [max_scrolls] times. *)
Theorem infinite_scroll_scrolls_at_most_max env sel max s :
  exists cs,
    snd (infinite_scroll env sel max s) = after s cs
    /\ (scroll_iterations cs <= Z.to_nat max)%nat.
Proof.
  destruct (scroll_loop_scrolls env sel max (Z.to_nat max) 0 0 s) as [cs [Hcs Hn]].
  exists cs. split; [| exact Hn].
  unfold infinite_scroll, bind.
  destruct (scroll_loop env sel max (Z.to_nat max) 0 0 s) as [[r | e] s1];
    exact Hcs.
Qed.

(** X2.  A count query that raises ends the scroll loop without an
    exception: the loop returns the count and the scroll counter it had
    before the iteration. *)
Theorem scroll_loop_swallows_count_error env sel max fuel previous scroll_count s e :
  scroll_count < max ->
  scrolling_succeeds env ->
  elements env (calls s ++ [CEvaluate scroll_js;
                            CWaitForTimeout (scraper_scroll_pause (settings env) * 1000)])
    sel = Raise e ->
  scroll_loop env sel max (S fuel) previous scroll_count s
  = (Ok (previous, scroll_count), after s (scroll_iteration env sel)).
Proof.
  intros Hlt Hs He. simpl.
  rewrite (proj2 (Z.ltb_lt _ _) Hlt).
  erewrite bind_ok by (apply scroll_to_bottom_eq; exact Hs).
  erewrite bind_ok.
  2:{ erewrite try_except_raise; [reflexivity |].
      erewrite bind_raise; [reflexivity |].
      rewrite query_selector_all_eq. simpl calls. rewrite He. reflexivity. }
  unfold ret. rewrite after_after. reflexivity.
Qed.

Lemma count_error_on_first_scroll :
  0 < 20
  /\ scrolling_succeeds count_fails_site
  /\ infinite_scroll count_fails_site "div.job" 20 initial_state
     = (Ok 0, after initial_state (scroll_iteration count_fails_site "div.job")).
Proof.
  assert (Hs : scrolling_succeeds count_fails_site) by (intros h; split; reflexivity).
  split; [lia |]. split; [exact Hs |].
  unfold infinite_scroll.
  erewrite bind_ok
    by exact (scroll_loop_swallows_count_error count_fails_site "div.job" 20 19 0 0
                initial_state "Execution context was destroyed"
                eq_refl Hs eq_refl).
  reflexivity.
Defined.

(** X3.  A scroll that raises is not swallowed: [infinite_scroll] raises
    the exception of [page.evaluate]. *)
Theorem infinite_scroll_raises_scroll_error env sel max s e :
  0 < max ->
  effect env (calls s) (CEvaluate scroll_js) = Raise e ->
  infinite_scroll env sel max s = (Raise e, after s [CEvaluate scroll_js]).
Proof.
  intros Hmax He. unfold infinite_scroll.
  destruct (Z.to_nat max) as [| fuel] eqn:Hfuel; [lia |].
  erewrite bind_raise; [reflexivity |].
  simpl. rewrite (proj2 (Z.ltb_lt 0 max) Hmax).
  erewrite bind_raise; [reflexivity |].
  unfold scroll_to_bottom.
  erewrite bind_raise; [reflexivity |].
  rewrite perform_eq, He. reflexivity.
Qed.

Lemma scroll_error_on_scroll_fails_site :
  0 < 20
  /\ effect scroll_fails_site (calls initial_state) (CEvaluate scroll_js)
     = Raise "Target closed"%string
  /\ infinite_scroll scroll_fails_site "div.job" 20 initial_state
     = (Raise "Target closed"%string, after initial_state [CEvaluate scroll_js]).
Proof.
  split; [lia |]. split; [reflexivity |].
  exact (infinite_scroll_raises_scroll_error scroll_fails_site "div.job" 20
           initial_state "Target closed" eq_refl eq_refl).
Defined.

(** ** More on browser sessions *)

Lemma start_ok_manager env s mgr s1 :
  start env new_manager s = (Ok tt, mgr, s1) -> mgr = started_manager.
Proof.
  unfold start. rewrite !perform_eq.
  repeat match goal with
         | |- context [effect env ?h ?c] => destruct (effect env h c) as [[] | ?]
         end;
    intros H; inversion H; reflexivity.
Qed.

Lemma start_within_start_calls env s r m' s1 :
  start env new_manager s = (r, m', s1) ->
  exists n, s1 = after s (firstn n (start_calls env)).
Proof.
  unfold start. rewrite !perform_eq.
  destruct (effect env (calls s) CPlaywrightStart) as [[] | ?].
  2:{ intros H; inversion H; subst. exists 1%nat. reflexivity. }
  simpl calls.
  destruct (effect env _ (CLaunch _)) as [[] | ?].
  2:{ intros H; inversion H; subst. exists 2%nat. unfold after. simpl.
      rewrite <- app_assoc. reflexivity. }
  destruct (effect env _ CNewContext) as [[] | ?].
  2:{ intros H; inversion H; subst. exists 3%nat. unfold after. simpl.
      rewrite <- !app_assoc. reflexivity. }
  destruct (effect env _ CNewPage) as [[] | ?].
  2:{ intros H; inversion H; subst. exists 4%nat. unfold after. simpl.
      rewrite <- !app_assoc. reflexivity. }
  intros H; inversion H; subst. exists 5%nat. unfold after. simpl.
  rewrite <- !app_assoc. reflexivity.
Qed.

(** X4.  Once the browser of an [async with BrowserManager()] block has
    started, an exception of the block still closes it: page, context,
    browser and Playwright are released, in this order, and then the
    exception of the block is raised. *)
Theorem with_browser_closes_when_body_raises {A} env (body : BrowserManager -> M A)
    s mgr s1 e s2 :
  releases_succeed env ->
  start env new_manager s = (Ok tt, mgr, s1) ->
  body mgr s1 = (Raise e, s2) ->
  with_browser env body s = (Raise e, after s2 close_calls).
Proof.
  intros Hrel Hstart Hbody. unfold with_browser.
  rewrite Hstart, Hbody, (close_eq env mgr s2 Hrel).
  rewrite (start_ok_manager _ _ _ _ Hstart). reflexivity.
Qed.

Lemma with_browser_closes_on_detail_site :
  releases_succeed detail_site
  /\ with_browser detail_site (fun _ => raise (A := unit) "boom"%string) initial_state
     = (Raise "boom"%string,
        after (after initial_state (start_calls detail_site)) close_calls).
Proof.
  assert (Hrel : releases_succeed detail_site) by (intros h r; reflexivity).
  split; [exact Hrel |].
  exact (with_browser_closes_when_body_raises detail_site
           (fun _ => raise (A := unit) "boom"%string) initial_state started_manager
           (after initial_state (start_calls detail_site)) "boom"
           (after initial_state (start_calls detail_site))
           Hrel eq_refl eq_refl).
Defined.

(** X5.  When the browser fails to start, discovery raises the exception of
    the start and makes no further call: the block is not entered and what
    the start had acquired is not released. *)
Theorem discovery_failed_start_releases_nothing env company categories s e m' s1 :
  start env new_manager s = (Raise e, m', s1) ->
  discover_all_jobs_for_company env company categories s = (Raise e, s1)
  /\ exists n, s1 = after s (firstn n (start_calls env)).
Proof.
  intros Hstart. split.
  - unfold discover_all_jobs_for_company, with_browser. rewrite Hstart. reflexivity.
  - exact (start_within_start_calls _ _ _ _ _ Hstart).
Qed.

Lemma discovery_on_no_context_site :
  discover_all_jobs_for_company no_context_site example_company
    ["Backend Engineer"%string] initial_state
  = (Raise "new_context failed"%string,
     after initial_state [CPlaywrightStart; CLaunch true; CNewContext]).
Proof.
  exact (proj1 (discovery_failed_start_releases_nothing no_context_site example_company
                  ["Backend Engineer"%string] initial_state "new_context failed"
                  {| playwright := Some Acquired; browser := Some Acquired;
                     context := None; page := None |}
                  (after initial_state [CPlaywrightStart; CLaunch true; CNewContext])
                  eq_refl)).
Defined.

(** ** More on listing discovery *)

Lemma extract_job_from_card_required env card sels base_url j :
  extract_job_from_card env card sels base_url = Ok (Some j) ->
  PyStr.truthy (url j) = true /\ PyStr.truthy (title j) = true.
Proof.
  unfold extract_job_from_card. intros H.
  repeat (apply res_bind_inv_ok in H; destruct H as [? [_ H]]).
  repeat match type of H with
         | match ?x with _ => _ end = _ => destruct x eqn:?; try discriminate
         end.
  match goal with
  | Hc : (_ && _)%bool = true |- _ => apply andb_true_iff in Hc; destruct Hc
  end.
  inversion H; subst; simpl. split; assumption.
Qed.

(** X6.  Every listing that [discover_jobs] returns has a URL and a title
    that are not empty, carries the hash of its URL, and has no search
    category yet. *)
Theorem discovered_listings_are_complete env search_url sels s :
  Forall (fun j => PyStr.truthy (url j) = true
                   /\ PyStr.truthy (title j) = true
                   /\ url_hash j = generate_url_hash (url j)
                   /\ search_category j = None)
    (value_or [] (fst (discover_jobs env search_url sels s))).
Proof.
  destruct (discover_jobs env search_url sels s) as [[found | e] s'] eqn:Hd;
    simpl; [| constructor].
  apply List.Forall_forall. intros j Hj.
  destruct (discover_jobs_inv _ _ _ _ _ _ Hd) as [-> | [cards ->]]; [destruct Hj |].
  apply extracted_listings in Hj. destruct Hj as [card [_ Hcard]].
  destruct (extract_job_from_card_required _ _ _ _ _ Hcard) as [Hu Ht].
  destruct (extract_job_from_card_listing _ _ _ _ _ Hcard) as [Hh [Hc _]].
  auto.
Qed.

Lemma extracted_without_selector env sels base_url key cards :
  In key ["job_title"; "job_link"]%string ->
  sels !! key = None ->
  extracted env sels base_url cards = [].
Proof.
  intros Hkey Hnone.
  induction cards as [| card cards IH]; [reflexivity |].
  simpl. rewrite IH.
  assert (Hraise : exists e, extract_job_from_card env card sels base_url = Raise e).
  { unfold extract_job_from_card, getitem.
    destruct Hkey as [<- | [<- | []]].
    - rewrite Hnone. simpl. eauto.
    - destruct (sels !! "job_title"%string); simpl; [| eauto].
      destruct (card_query_selector card s); simpl; [| eauto].
      match goal with
      | |- context [res_bind ?r _] => destruct r; simpl; [| eauto]
      end.
      rewrite Hnone. simpl. eauto. }
  destruct Hraise as [e ->]. reflexivity.
Qed.

(** X7.  When the selectors of a company lack one of the keys [job_card],
    [job_title] and [job_link], [discover_jobs] returns the empty list: the
    [KeyError] is swallowed like every other exception. *)
Theorem discover_jobs_without_selector env search_url sels s key :
  In key ["job_card"; "job_title"; "job_link"]%string ->
  sels !! key = None ->
  fst (discover_jobs env search_url sels s) = Ok [].
Proof.
  intros [<- | Hkey] Hnone.
  - unfold discover_jobs, try_except, discover_steps, bind.
    rewrite !perform_eq.
    destruct (effect env (calls s) _) as [[] | ?]; [| reflexivity].
    destruct (effect env _ (CWaitForTimeout 3000)) as [[] | ?]; [| reflexivity].
    unfold lift, getitem. rewrite Hnone. reflexivity.
  - destruct (discover_jobs_total env search_url sels s) as [found [s' Hd]].
    rewrite Hd. simpl.
    destruct (discover_jobs_inv _ _ _ _ _ _ Hd) as [-> | [cards ->]]; [reflexivity |].
    rewrite (extracted_without_selector env sels search_url key cards Hkey Hnone).
    reflexivity.
Qed.

Lemma discover_jobs_without_job_link :
  fst (discover_jobs two_category_site
         "https://jobs.example/search?q=Backend+Engineer"
         (delete "job_link"%string site_selectors) initial_state)
  = Ok [].
Proof.
  exact (discover_jobs_without_selector two_category_site
           "https://jobs.example/search?q=Backend+Engineer"
           (delete "job_link"%string site_selectors) initial_state "job_link"
           (or_intror (or_intror (or_introl eq_refl))) eq_refl).
Defined.

Lemma has_key_app d1 d2 h : has_key (d1 ++ d2) h = (has_key d1 h || has_key d2 h)%bool.
Proof. unfold has_key. apply existsb_app. Qed.

Lemma merge_jobs_known category found : forall d,
  (forall j, In j found -> has_key d (url_hash j) = true) ->
  merge_jobs d category found = d.
Proof.
  induction found as [| j found IH]; intros d Hd; [reflexivity |].
  unfold merge_jobs. simpl. rewrite (Hd j (or_introl eq_refl)).
  apply IH. intros j' Hj'. apply Hd. right. exact Hj'.
Qed.

Lemma merge_jobs_keeps_keys category found h : forall d,
  has_key d h = true -> has_key (merge_jobs d category found) h = true.
Proof.
  induction found as [| j found IH]; intros d Hd; [exact Hd |].
  unfold merge_jobs. simpl.
  destruct (has_key d (url_hash j)); apply IH; [exact Hd |].
  rewrite has_key_app, Hd. reflexivity.
Qed.

Lemma merge_jobs_has_found category found : forall d j,
  In j found -> has_key (merge_jobs d category found) (url_hash j) = true.
Proof.
  induction found as [| j0 found IH]; intros d j Hj; [destruct Hj |].
  unfold merge_jobs. simpl.
  destruct Hj as [-> | Hj]; [| apply IH; exact Hj].
  destruct (has_key d (url_hash j)) eqn:Hk; apply merge_jobs_keeps_keys.
  - exact Hk.
  - rewrite has_key_app. simpl. rewrite String.eqb_refl, orb_true_r. reflexivity.
Qed.

(** X8.  Merging is idempotent: listings that were merged once change
    nothing when they are found again, under whatever category; the entry
    and the category of the first search stay. *)
Theorem merge_jobs_again_changes_nothing d category category' found :
  merge_jobs (merge_jobs d category found) category' found
  = merge_jobs d category found.
Proof.
  apply merge_jobs_known. intros j Hj. apply merge_jobs_has_found. exact Hj.
Qed.

(** X9.  With no category to search, discovery still starts a browser and
    closes it, and returns the empty list. *)
Theorem discovery_without_categories env company s :
  session_succeeds env ->
  discover_all_jobs_for_company env company [] s
  = (Ok [], after s (start_calls env ++ close_calls)).
Proof.
  intros Hs. unfold discover_all_jobs_for_company.
  rewrite (with_browser_eq env _ s Hs). simpl.
  rewrite after_after. reflexivity.
Qed.

Lemma discovery_without_categories_on_detail_site :
  discover_all_jobs_for_company detail_site example_company [] initial_state
  = (Ok [], after initial_state (start_calls detail_site ++ close_calls)).
Proof.
  exact (discovery_without_categories detail_site example_company initial_state
           (fun h c _ => eq_refl)).
Defined.

(** ** More on detail extraction *)

Lemma retry_loop_returns env jd cid sels max_retries :
  (forall h, effect env h (CWaitForTimeout 2000) = Ok tt) ->
  forall remaining attempt_no s,
    exists r s', retry_loop env jd cid sels max_retries remaining attempt_no s
                 = (Ok r, s').
Proof.
  intros Hwait. induction remaining as [| remaining IH]; intros attempt_no s.
  - simpl. unfold ret. eauto.
  - cbn [retry_loop]. unfold bind at 1. unfold try_except. unfold bind at 1.
    destruct (attempt env jd cid sels s) as [[job | e] s1].
    + unfold ret. eauto.
    + destruct (attempt_no <? max_retries - 1).
      * unfold bind. rewrite perform_eq, Hwait. unfold ret. apply IH.
      * unfold ret. eauto.
Qed.

(** X10.  [extract_job_details] raises only when the pause before a retry
    raises: where a pause of 2000 ms never raises, it returns a job or
    [None], whatever else the page does. *)
Theorem extract_job_details_returns env jd cid sels max_retries s :
  (forall h, effect env h (CWaitForTimeout 2000) = Ok tt) ->
  exists r s', extract_job_details env jd cid sels max_retries s = (Ok r, s').
Proof. intros Hwait. apply retry_loop_returns. exact Hwait. Qed.

Lemma extract_job_details_returns_on_timeout_site :
  exists r s',
    extract_job_details timeout_site (sample_listing 1) (Some 1) site_selectors 3
      initial_state = (Ok r, s').
Proof.
  exact (extract_job_details_returns timeout_site (sample_listing 1) (Some 1)
           site_selectors 3 initial_state (fun h => eq_refl)).
Defined.

(** X11.  When an attempt that is not the last fails and the pause before
    the retry raises, that exception leaves [extract_job_details], and the
    loop over the batch with it: the rest of the batch is not visited. *)
Theorem backoff_error_leaves_extract_job_details env jd cid sels s e1 s1 e2 :
  attempt env jd cid sels s = (Raise e1, s1) ->
  effect env (calls s1) (CWaitForTimeout 2000) = Raise e2 ->
  (forall max_retries,
     1 < max_retries ->
     extract_job_details env jd cid sels max_retries s
     = (Raise e2, after s1 [CWaitForTimeout 2000]))
  /\ forall batch_len rest i acc,
       extract_batch env cid sels batch_len (jd :: rest) i acc s
       = (Raise e2, after s1 [CWaitForTimeout 2000]).
Proof.
  intros Hattempt Hwait.
  assert (Hdetails : forall max_retries,
             1 < max_retries ->
             extract_job_details env jd cid sels max_retries s
             = (Raise e2, after s1 [CWaitForTimeout 2000])).
  { intros max_retries Hmax. unfold extract_job_details.
    destruct (Z.to_nat max_retries) as [| remaining] eqn:Hn; [lia |].
    cbn [retry_loop].
    erewrite bind_raise; [reflexivity |].
    erewrite try_except_raise by (erewrite bind_raise; [reflexivity | exact Hattempt]).
    rewrite (proj2 (Z.ltb_lt 0 (max_retries - 1))) by lia.
    erewrite bind_raise; [reflexivity |].
    rewrite perform_eq, Hwait. reflexivity. }
  split; [exact Hdetails |].
  intros batch_len rest i acc. cbn [extract_batch].
  erewrite bind_raise; [reflexivity |]. apply Hdetails. lia.
Qed.

Lemma backoff_error_on_offline_site :
  extract_job_details offline_site (sample_listing 1) (Some 1) site_selectors 3
    initial_state
  = (Raise "Target closed"%string,
     after initial_state [CGoto (sample_url 1) "networkidle" 60000;
                          CWaitForTimeout 2000]).
Proof.
  exact (proj1 (backoff_error_leaves_extract_job_details offline_site (sample_listing 1)
                  (Some 1) site_selectors initial_state
                  "net::ERR_NAME_NOT_RESOLVED"
                  (after initial_state [CGoto (sample_url 1) "networkidle" 60000])
                  "Target closed" eq_refl eq_refl)
               3 eq_refl).
Defined.

Lemma attempt_makes_job env jd cid sels s job s' :
  attempt env jd cid sels s = (Ok job, s') ->
  exists job_data, make_job cid jd job_data = Ok job.
Proof.
  unfold attempt. intros H.
  repeat (apply bind_inv_ok in H; destruct H as (? & ? & _ & H)).
  rewrite lift_eq in H. inversion H. eauto.
Qed.

Lemma or_str_truthy a b : PyStr.truthy b = true -> PyStr.truthy (or_str a b) = true.
Proof.
  intros Hb. unfold or_str, truthy_opt.
  destruct a as [v |]; [| exact Hb].
  destruct (PyStr.truthy v) eqn:Hv; [exact Hv | exact Hb].
Qed.

(** X12.  The job that [extract_job_details] returns is the listing's: it
    has the URL and the fingerprint of the listing and the company id
    given, it has no row id, no scrape time and no experience level yet, is
    not processed, and its title is not empty when the listing's is not. *)
Theorem extracted_job_is_the_listing env jd cid sels max_retries s job s' :
  extract_job_details env jd cid sels max_retries s = (Ok (Some job), s') ->
  job_url job = url jd
  /\ job_url_hash job = url_hash jd
  /\ cid = Some (company_id job)
  /\ id job = None
  /\ scraped_at job = None
  /\ experience_level job = None
  /\ processed job = false
  /\ (PyStr.truthy (title jd) = true -> PyStr.truthy (job_title job) = true).
Proof.
  intros H. apply retry_loop_success in H. destruct H as [s0 H].
  apply attempt_makes_job in H. destruct H as [job_data H].
  unfold make_job in H. destruct cid as [c |]; [| discriminate].
  inversion H; subst; simpl.
  repeat (split; [reflexivity |]).
  apply or_str_truthy.
Qed.

Lemma extracted_job_on_detail_site :
  job_url detail_job = sample_url 1
  /\ job_url_hash detail_job = generate_url_hash (sample_url 1)
  /\ Some 1 = Some (company_id detail_job)
  /\ id detail_job = None
  /\ scraped_at detail_job = None
  /\ experience_level detail_job = None
  /\ processed detail_job = false
  /\ (PyStr.truthy "Engineer" = true -> PyStr.truthy (job_title detail_job) = true).
Proof.
  assert (Hrun : extract_job_details detail_site (sample_listing 1) (Some 1)
                   site_selectors 3 initial_state
                 = (Ok (Some detail_job), snd detail_run))
    by (vm_compute; reflexivity).
  exact (extracted_job_is_the_listing detail_site (sample_listing 1) (Some 1)
           site_selectors 3 initial_state detail_job (snd detail_run) Hrun).
Defined.

(** X13.  The description falls back on [main], [article] and [body] in
    this order: the first of them that matches gives the description and
    the later ones are not queried; when none matches, the fields stay as
    they were. *)
Theorem fallback_description_first_match env before fields : forall s,
  all_absent env (calls s) before ->
  fallback_description env before fields s
  = (Ok fields, after s (map CQuerySelector before))
  /\ forall sel rest n t,
       element env (calls s ++ map CQuerySelector before) sel = Ok (Some n) ->
       inner_text n = Ok t ->
       fallback_description env (before ++ sel :: rest) fields s
       = (Ok (<["raw_description"%string := PyStr.strip t]> fields),
          after s (map CQuerySelector (before ++ [sel]))).
Proof.
  induction before as [| sel0 before IH]; intros s Habsent.
  - split.
    + simpl. rewrite after_nil. reflexivity.
    + intros sel rest n t Hel Ht. simpl in *. rewrite app_nil_r in Hel.
      erewrite bind_ok by (rewrite query_selector_eq, Hel; reflexivity).
      cbv beta iota.
      erewrite bind_ok by (rewrite lift_eq; unfold text_of; rewrite Ht; reflexivity).
      reflexivity.
  - destruct Habsent as [Hnone Hrest].
    destruct (IH (after s [CQuerySelector sel0]) Hrest) as [IH1 IH2].
    split.
    + cbn [fallback_description map].
      erewrite bind_ok by (rewrite query_selector_eq, Hnone; reflexivity).
      cbv beta iota. rewrite IH1, after_after. reflexivity.
    + intros sel rest n t Hel Ht.
      cbn [fallback_description map app].
      erewrite bind_ok by (rewrite query_selector_eq, Hnone; reflexivity).
      cbv beta iota. rewrite (IH2 sel rest n t); [| | exact Ht].
      * rewrite after_after. reflexivity.
      * simpl calls. rewrite <- app_assoc. exact Hel.
Qed.

Lemma fallback_description_on_article_site :
  fallback_description article_site ["main"; "article"; "body"]%string ∅ initial_state
  = (Ok (<["raw_description"%string := "Write code."%string]> ∅),
     after initial_state [CQuerySelector "main"; CQuerySelector "article"]).
Proof.
  exact (proj2 (fallback_description_first_match article_site ["main"%string] ∅
                  initial_state (conj eq_refl I))
           "article"%string ["body"%string] (text_node " Write code. ")
           " Write code. "%string eq_refl eq_refl).
Defined.

(** ** Extraction in batches *)

Lemma bind_ret {A} (m : M A) s : bind m ret s = m s.
Proof. unfold bind, ret. destruct (m s) as [[a | e] s1]; reflexivity. Qed.

Lemma with_browser_inv_ok {A} env (body : BrowserManager -> M A) s r s' :
  with_browser env body s = (Ok r, s') ->
  exists mgr s1 s2, body mgr s1 = (Ok r, s2).
Proof.
  unfold with_browser.
  destruct (start env new_manager s) as [[[[] | e] mgr] s1]; [| discriminate].
  destruct (body mgr s1) as [r2 s2] eqn:Hbody.
  destruct (close env mgr s2) as [[[] | e] s3]; [| discriminate].
  intros H. inversion H; subst. eauto.
Qed.

Lemma extract_job_details_identity env jd cid sels max_retries s job s' :
  extract_job_details env jd cid sels max_retries s = (Ok (Some job), s') ->
  job_identity job = listing_identity jd.
Proof.
  intros H. apply retry_loop_success in H. destruct H as [s0 H].
  apply attempt_makes_job in H. destruct H as [job_data H].
  unfold make_job in H. destruct cid as [c |]; [| discriminate].
  inversion H; subst. reflexivity.
Qed.

Lemma extract_batch_sublist env cid sels batch_len : forall items i acc s res s',
  extract_batch env cid sels batch_len items i acc s = (Ok res, s') ->
  exists extra,
    res = acc ++ extra
    /\ sublist (map job_identity extra) (map listing_identity items).
Proof.
  induction items as [| jd items IH]; intros i acc s res s' H.
  - inversion H; subst. exists []. rewrite app_nil_r. split; constructor.
  - cbn [extract_batch] in H.
    apply bind_inv_ok in H. destruct H as (job & s1 & Hjob & H).
    apply bind_inv_ok in H. destruct H as (? & s2 & _ & H).
    apply IH in H. destruct H as (extra & -> & Hsub).
    destruct job as [j |].
    + exists (j :: extra). rewrite <- app_assoc. split; [reflexivity |].
      simpl. rewrite (extract_job_details_identity _ _ _ _ _ _ _ _ Hjob).
      apply sublist_skip. exact Hsub.
    + exists extra. split; [reflexivity |]. simpl. apply sublist_cons. exact Hsub.
Qed.

Lemma extract_batches_sublist env listings cid sels size : forall starts acc s res s',
  extract_batches env listings cid sels size starts acc s = (Ok res, s') ->
  exists extra,
    res = acc ++ extra
    /\ sublist (map job_identity extra)
         (map listing_identity
            (concat (map (fun b => py_slice listings b (b + size)) starts))).
Proof.
  induction starts as [| b starts IH]; intros acc s res s' H.
  - inversion H; subst. exists []. rewrite app_nil_r. split; constructor.
  - cbn [extract_batches] in H.
    apply bind_inv_ok in H. destruct H as (acc1 & s1 & Hbatch & H).
    apply with_browser_inv_ok in Hbatch. destruct Hbatch as (mgr & s0 & s2 & Hbatch).
    apply extract_batch_sublist in Hbatch. destruct Hbatch as (e1 & -> & Hsub1).
    apply IH in H. destruct H as (e2 & -> & Hsub2).
    exists (e1 ++ e2). rewrite <- app_assoc. split; [reflexivity |].
    cbn [map concat]. rewrite !map_app. apply sublist_app; assumption.
Qed.

Lemma sublist_map {A B} (f : A -> B) (l1 l2 : list A) :
  sublist l1 l2 -> sublist (map f l1) (map f l2).
Proof. induction 1; simpl; constructor; assumption. Qed.

Lemma py_range_negative_step (n step : Z) :
  0 <= n -> step < 0 -> py_range 0 n step = Ok [].
Proof.
  intros Hn Hstep. unfold py_range.
  rewrite (proj2 (Z.eqb_neq step 0)) by lia.
  rewrite (proj2 (Z.ltb_ge 0 step)) by lia.
  assert (Hq : (0 - n - step - 1) / - step < 1)
    by (apply Z.div_lt_upper_bound; lia).
  replace (Z.to_nat ((0 - n - step - 1) / - step)) with 0%nat by lia.
  reflexivity.
Qed.

Lemma slices_concat {A} (l : list A) (size : Z) (n : nat) :
  0 < size ->
  concat (map (fun b => py_slice l b (b + size))
            (map (fun k => 0 + Z.of_nat k * size) (seq 0 n)))
  = firstn (n * Z.to_nat size) l.
Proof.
  intros Hsize. rewrite map_map.
  rewrite (map_ext _ (fun k => firstn (Z.to_nat size) (skipn (k * Z.to_nat size) l))).
  - apply chunks_concat.
  - intros k. rewrite py_slice_nonneg by lia. f_equal; [| f_equal]; nia.
Qed.

Lemma extract_multiple_jobs_sublist env listings cid sels size s res s' :
  extract_multiple_jobs env listings cid sels size s = (Ok res, s') ->
  sublist (map job_identity res) (map listing_identity listings).
Proof.
  unfold extract_multiple_jobs. intros H.
  apply bind_inv_ok in H. destruct H as (starts & s1 & Hstarts & H).
  rewrite lift_eq in Hstarts. inversion Hstarts as [[Hrange Hs]]. subst s1.
  apply extract_batches_sublist in H. destruct H as (extra & -> & Hsub).
  simpl app. etransitivity; [exact Hsub |].
  apply sublist_map.
  destruct (Z_lt_ge_dec 0 size) as [Hpos | Hneg].
  - unfold py_range in Hrange.
    rewrite (proj2 (Z.eqb_neq size 0)) in Hrange by lia.
    rewrite (proj2 (Z.ltb_lt 0 size)) in Hrange by lia.
    inversion Hrange. rewrite slices_concat by exact Hpos. apply sublist_take.
  - destruct (Z.eq_dec size 0) as [-> | Hnz]; [discriminate |].
    rewrite py_range_negative_step in Hrange by (unfold len; lia).
    inversion Hrange. apply sublist_nil_l.
Qed.

(** X14.  The jobs that [extract_multiple_jobs] returns are those of a
    subsequence of the listings: at most one job for each listing, in the
    order of the listings, each with the URL and the fingerprint of its
    listing; whatever the batch size. *)
Theorem extracted_jobs_follow_the_listings env listings cid sels size s res s' :
  extract_multiple_jobs env listings cid sels size s = (Ok res, s') ->
  sublist (map job_identity res) (map listing_identity listings)
  /\ len res <= len listings.
Proof.
  intros H. apply extract_multiple_jobs_sublist in H.
  split; [exact H |].
  apply sublist_length in H. rewrite !length_map in H. unfold len. lia.
Qed.

Lemma extracted_jobs_on_detail_site :
  sublist (map job_identity (value_or [] (fst detail_batch_run)))
    (map listing_identity [sample_listing 1; sample_listing 2]).
Proof.
  assert (Hrun : extract_multiple_jobs detail_site [sample_listing 1; sample_listing 2]
                   (Some 1) site_selectors 20 initial_state
                 = (Ok (value_or [] (fst detail_batch_run)), snd detail_batch_run))
    by (vm_compute; reflexivity).
  exact (proj1 (extracted_jobs_follow_the_listings detail_site
                  [sample_listing 1; sample_listing 2] (Some 1) site_selectors 20
                  initial_state (value_or [] (fst detail_batch_run))
                  (snd detail_batch_run) Hrun)).
Defined.

(** X15.  Listings that fit into one batch are extracted in one browser
    session: [extract_multiple_jobs] is then one [async with] block around
    the loop over all the listings. *)
Theorem one_batch_one_session env listings cid sels size s :
  listings <> [] ->
  len listings <= size ->
  extract_multiple_jobs env listings cid sels size s
  = with_browser env
      (fun _ => extract_batch env cid sels (len listings) listings 0 []) s.
Proof.
  intros Hne Hfit. unfold extract_multiple_jobs.
  assert (Hlen : 0 < len listings)
    by (unfold len; destruct listings; [congruence | simpl; lia]).
  assert (Hrange : py_range 0 (len listings) size = Ok [0]).
  { unfold py_range.
    rewrite (proj2 (Z.eqb_neq size 0)) by lia.
    rewrite (proj2 (Z.ltb_lt 0 size)) by lia.
    replace ((len listings - 0 + size - 1) / size) with 1.
    - reflexivity.
    - apply Z.div_unique with (r := len listings - 1); lia. }
  rewrite Hrange. rewrite (bind_ok _ _ s [0] s) by reflexivity.
  cbn [extract_batches].
  assert (Hslice : py_slice listings 0 (0 + size) = listings).
  { rewrite py_slice_nonneg by lia. simpl skipn.
    apply firstn_all2. unfold len in Hfit. lia. }
  rewrite Hslice. apply bind_ret.
Qed.

Lemma one_batch_on_detail_site :
  extract_multiple_jobs detail_site [sample_listing 1; sample_listing 2] (Some 1)
    site_selectors 20 initial_state
  = with_browser detail_site
      (fun _ => extract_batch detail_site (Some 1) site_selectors 2
                  [sample_listing 1; sample_listing 2] 0 []) initial_state.
Proof.
  exact (one_batch_one_session detail_site [sample_listing 1; sample_listing 2]
           (Some 1) site_selectors 20 initial_state
           ltac:(discriminate) ltac:(vm_compute; discriminate)).
Defined.

(** X16.  With a negative batch size [extract_multiple_jobs] extracts
    nothing and reports nothing: it returns the empty list without starting
    a browser, as it does for an empty list of listings. *)
Theorem no_batch_no_browser env listings cid sels size s :
  size < 0 \/ (listings = [] /\ size <> 0) ->
  extract_multiple_jobs env listings cid sels size s = (Ok [], s).
Proof.
  intros Hcase. unfold extract_multiple_jobs.
  assert (Hrange : py_range 0 (len listings) size = Ok []).
  { destruct Hcase as [Hneg | [-> Hnz]].
    - apply py_range_negative_step; [unfold len; lia | exact Hneg].
    - destruct (Z_lt_ge_dec size 0) as [Hneg | Hpos].
      + apply py_range_negative_step; [unfold len; simpl; lia | exact Hneg].
      + unfold py_range.
        rewrite (proj2 (Z.eqb_neq size 0)) by lia.
        rewrite (proj2 (Z.ltb_lt 0 size)) by lia.
        change (len []) with 0.
        replace ((0 - 0 + size - 1) / size) with 0; [reflexivity |].
        symmetry. apply Z.div_small. lia. }
  rewrite Hrange. reflexivity.
Qed.

Lemma negative_batch_size_on_detail_site :
  extract_multiple_jobs detail_site [sample_listing 1; sample_listing 2] (Some 1)
    site_selectors (-1) initial_state
  = (Ok [], initial_state).
Proof.
  exact (no_batch_no_browser detail_site [sample_listing 1; sample_listing 2] (Some 1)
           site_selectors (-1) initial_state (or_introl eq_refl)).
Defined.

(** ** The [jobs] table *)

Lemma existsb_app_last {A} (f : A -> bool) (l : list A) (x : A) :
  f x = true -> existsb f (l ++ [x]) = true.
Proof. intros H. rewrite existsb_app. simpl. rewrite H, orb_true_r. reflexivity. Qed.

Lemma add_job_inv env job s i s' :
  add_job env job s = (Ok i, s') ->
  existsb (fun j => String.eqb (job_url j) (job_url job)) (jobs (db s)) = false
  /\ existsb (fun j => String.eqb (job_url_hash j) (job_url_hash job)) (jobs (db s)) = false
  /\ i = next_id (map (fun j => default 0 (id j)) (jobs (db s)))
  /\ calls s' = calls s
  /\ companies (db s') = companies (db s)
  /\ scrape_runs (db s') = scrape_runs (db s)
  /\ exists row,
       jobs (db s') = jobs (db s) ++ [row]
       /\ id row = Some i
       /\ job_url row = job_url job
       /\ job_url_hash row = job_url_hash job.
Proof.
  unfold add_job.
  destruct (existsb _ (jobs (db s))) eqn:Hurl; [discriminate |].
  destruct (existsb (fun j => String.eqb (job_url_hash j) _) (jobs (db s))) eqn:Hhash;
    [discriminate |].
  intros H. inversion H; subst. simpl.
  repeat (split; [reflexivity |]).
  eexists. repeat (split; [reflexivity |]). reflexivity.
Qed.

(** X17.  A job that [add_job] stored exists for [job_exists]; its row id
    is larger than every id of the table before; and adding the same job
    again raises and leaves the database as it is. *)
Theorem add_job_then_job_exists env job s i s' :
  add_job env job s = (Ok i, s') ->
  fst (job_exists (job_url_hash job) s') = Ok true
  /\ (forall row k, In row (jobs (db s)) -> id row = Some k -> k < i)
  /\ exists e, add_job env job s' = (Raise e, s').
Proof.
  intros H. apply add_job_inv in H.
  destruct H as (_ & _ & -> & _ & _ & _ & row & Hrows & _ & Hurl & Hhash).
  split; [| split].
  - rewrite job_exists_eq, Hrows. simpl. f_equal.
    apply existsb_app_last. rewrite Hhash. apply String.eqb_refl.
  - intros r k Hin Hid. apply next_id_above.
    apply in_map_iff. exists r. rewrite Hid. split; [reflexivity | exact Hin].
  - unfold add_job. rewrite Hrows.
    rewrite existsb_app_last by (rewrite Hurl; apply String.eqb_refl).
    eauto.
Qed.

Lemma add_job_on_empty_table :
  fst (job_exists (generate_url_hash (sample_url 1))
         (snd (add_job detail_site (sample_job (sample_url 1)) initial_state)))
  = Ok true.
Proof.
  exact (proj1 (add_job_then_job_exists detail_site (sample_job (sample_url 1))
                  initial_state 1
                  (snd (add_job detail_site (sample_job (sample_url 1)) initial_state))
                  eq_refl)).
Defined.

Lemma existsb_false_iff {A} (f : A -> bool) (l : list A) :
  existsb f l = false <-> forall x, In x l -> f x = false.
Proof.
  split.
  - intros H x Hx. destruct (f x) eqn:Hf; [| reflexivity].
    rewrite <- H. symmetry. apply existsb_exists. eauto.
  - intros H. destruct (existsb f l) eqn:He; [| reflexivity].
    apply existsb_exists in He. destruct He as (x & Hx & Hf).
    rewrite (H x Hx) in Hf. discriminate.
Qed.

Lemma save_jobs_unique env : forall extracted_jobs n s,
  hashes_of_urls (jobs (db s)) ->
  hashes_of_urls extracted_jobs ->
  List.NoDup (map job_url_hash extracted_jobs) ->
  (forall j, In j extracted_jobs ->
             ~ In (job_url_hash j) (map job_url_hash (jobs (db s)))) ->
  exists s',
    save_jobs env extracted_jobs n s = (Ok (n + len extracted_jobs), s')
    /\ hashes_of_urls (jobs (db s'))
    /\ map job_url_hash (jobs (db s'))
       = map job_url_hash (jobs (db s)) ++ map job_url_hash extracted_jobs.
Proof.
  induction extracted_jobs as [| job rest IH]; intros n s Hdb Hjobs Hnd Hnew.
  - exists s. simpl. unfold ret, len. simpl. rewrite Z.add_0_r, app_nil_r. auto.
  - inversion Hjobs as [| ? ? Hjob Hrest]; subst.
    inversion Hnd as [| ? ? Hnotin Hnd']; subst.
    assert (Hhash : existsb (fun j => String.eqb (job_url_hash j) (job_url_hash job))
                      (jobs (db s)) = false).
    { apply existsb_false_iff. intros row Hrow.
      destruct (String.eqb_spec (job_url_hash row) (job_url_hash job)) as [Heq |];
        [| reflexivity].
      exfalso. apply (Hnew job (or_introl eq_refl)).
      rewrite <- Heq. apply in_map. exact Hrow. }
    assert (Hurl : existsb (fun j => String.eqb (job_url j) (job_url job))
                     (jobs (db s)) = false).
    { apply existsb_false_iff. intros row Hrow.
      destruct (String.eqb_spec (job_url row) (job_url job)) as [Heq |];
        [| reflexivity].
      exfalso. apply (Hnew job (or_introl eq_refl)).
      rewrite Hjob, <- Heq.
      rewrite <- (proj1 (List.Forall_forall _ _) Hdb row Hrow).
      apply in_map. exact Hrow. }
    destruct (add_job env job s) as [[i | e] s1] eqn:Hadd.
    2:{ unfold add_job in Hadd. rewrite Hurl, Hhash in Hadd. discriminate. }
    destruct (add_job_inv _ _ _ _ _ Hadd)
      as (_ & _ & _ & _ & _ & _ & row & Hrows & _ & Hrow_url & Hrow_hash).
    destruct (IH (n + 1) s1) as (s' & Hsave & Hdb' & Hhashes).
    + rewrite Hrows. apply Forall_app. split; [exact Hdb |].
      constructor; [| constructor]. rewrite Hrow_url, Hrow_hash. exact Hjob.
    + exact Hrest.
    + exact Hnd'.
    + intros j Hj Hin. rewrite Hrows, map_app in Hin.
      apply in_app_or in Hin. destruct Hin as [Hin | [Hin | []]].
      * exact (Hnew j (or_intror Hj) Hin).
      * apply Hnotin. rewrite <- Hrow_hash, Hin. apply in_map. exact Hj.
    + exists s'. cbn [save_jobs]. rewrite (bind_ok _ _ s i s1 Hadd).
      rewrite Hsave. split; [| split].
      * f_equal. f_equal. unfold len. simpl length. lia.
      * exact Hdb'.
      * rewrite Hhashes, Hrows, map_app. simpl. rewrite <- app_assoc, Hrow_hash.
        reflexivity.
Qed.

(** X18.  Saving never meets the [UNIQUE] constraints of the [jobs] table
    when the rows and the jobs carry the hashes of their URLs, the jobs
    have pairwise different fingerprints and none of them is in the table:
    every job is stored, and the rows still carry the hashes of their
    URLs. *)
Theorem save_jobs_meets_no_unique_constraint env extracted_jobs n s :
  hashes_of_urls (jobs (db s)) ->
  hashes_of_urls extracted_jobs ->
  List.NoDup (map job_url_hash extracted_jobs) ->
  (forall j, In j extracted_jobs ->
             ~ In (job_url_hash j) (map job_url_hash (jobs (db s)))) ->
  exists s',
    save_jobs env extracted_jobs n s = (Ok (n + len extracted_jobs), s')
    /\ hashes_of_urls (jobs (db s'))
    /\ map job_url_hash (jobs (db s'))
       = map job_url_hash (jobs (db s)) ++ map job_url_hash extracted_jobs
    /\ calls s' = calls s.
Proof.
  intros Hdb Hjobs Hnd Hnew.
  destruct (save_jobs_unique env extracted_jobs n s Hdb Hjobs Hnd Hnew)
    as (s' & Hsave & Hdb' & Hhashes).
  exists s'. repeat (split; [assumption |]).
  apply save_jobs_ok in Hsave. tauto.
Qed.

Lemma save_two_jobs_on_empty_table :
  exists s',
    save_jobs detail_site [sample_job (sample_url 1); sample_job (sample_url 2)] 0
      initial_state = (Ok (0 + 2), s')
    /\ hashes_of_urls (jobs (db s'))
    /\ map job_url_hash (jobs (db s'))
       = [] ++ [generate_url_hash (sample_url 1); generate_url_hash (sample_url 2)]
    /\ calls s' = [].
Proof.
  refine (save_jobs_meets_no_unique_constraint detail_site
            [sample_job (sample_url 1); sample_job (sample_url 2)] 0 initial_state
            _ _ _ _).
  - constructor.
  - repeat constructor.
  - constructor; [| constructor; [intros [] | constructor]].
    intros [H | []]. vm_compute in H. discriminate H.
  - intros j _ [].
Defined.

(** X19.  Listings whose fingerprints were saved are no longer new: after
    [save_jobs], the filter of the scrape command leaves out every listing
    with the fingerprint of a saved job. *)
Theorem saved_jobs_are_not_new env extracted_jobs n s n' s' found :
  save_jobs env extracted_jobs n s = (Ok n', s') ->
  Forall (fun listing => ~ In (url_hash listing) (map job_url_hash extracted_jobs))
    (new_listings (db s') found)
  /\ incl (new_listings (db s') found) (new_listings (db s) found).
Proof.
  intros H. apply save_jobs_ok in H. destruct H as (_ & _ & _ & Hhashes).
  assert (Hex : forall rows h,
             existsb (fun row => String.eqb (job_url_hash row) h) rows = true
             <-> In h (map job_url_hash rows)).
  { intros rows h. rewrite existsb_exists, in_map_iff. split.
    - intros (row & Hrow & Heq). apply String.eqb_eq in Heq. eauto.
    - intros (row & Heq & Hrow). exists row. split; [exact Hrow |].
      apply String.eqb_eq. exact Heq. }
  split.
  - apply List.Forall_forall. intros listing Hl Hin.
    unfold new_listings in Hl. apply filter_In in Hl. destruct Hl as [_ Hl].
    apply negb_true_iff in Hl.
    assert (Ht : existsb (fun row => String.eqb (job_url_hash row) (url_hash listing))
                   (jobs (db s')) = true).
    { apply Hex. rewrite Hhashes. apply in_or_app. right. exact Hin. }
    congruence.
  - intros listing Hl. unfold new_listings in *.
    apply filter_In in Hl. destruct Hl as [Hfound Hl].
    apply filter_In. split; [exact Hfound |].
    apply negb_true_iff in Hl. apply negb_true_iff.
    destruct (existsb _ (jobs (db s))) eqn:He; [| reflexivity].
    apply Hex in He.
    assert (Ht : existsb (fun row => String.eqb (job_url_hash row) (url_hash listing))
                   (jobs (db s')) = true).
    { apply Hex. rewrite Hhashes. apply in_or_app. left. exact He. }
    congruence.
Qed.

Lemma saved_job_is_not_new :
  new_listings
    (db (snd (save_jobs detail_site [sample_job (sample_url 1)] 0 initial_state)))
    [sample_listing 1; sample_listing 2]
  = [sample_listing 2]
  /\ Forall (fun listing =>
               ~ In (url_hash listing)
                   (map job_url_hash [sample_job (sample_url 1)]))
       (new_listings
          (db (snd (save_jobs detail_site [sample_job (sample_url 1)] 0 initial_state)))
          [sample_listing 1; sample_listing 2]).
Proof.
  split; [vm_compute; reflexivity |].
  exact (proj1 (saved_jobs_are_not_new detail_site [sample_job (sample_url 1)] 0
                  initial_state 1
                  (snd (save_jobs detail_site [sample_job (sample_url 1)] 0
                          initial_state))
                  [sample_listing 1; sample_listing 2] eq_refl)).
Defined.

(** ** The scrape command and the [scrape_runs] table *)

Lemma keeps_db_runs {A} (m : M A) : keeps_db m -> keeps_runs m.
Proof. intros H s. rewrite H. reflexivity. Qed.

Lemma keeps_runs_bind {A B} (m : M A) (f : A -> M B) :
  keeps_runs m -> (forall a, keeps_runs (f a)) -> keeps_runs (bind m f).
Proof.
  intros Hm Hf s. unfold bind. specialize (Hm s).
  destruct (m s) as [[a | e] s1]; simpl in *.
  - rewrite (Hf a s1). exact Hm.
  - exact Hm.
Qed.

Lemma keeps_runs_add_job env job : keeps_runs (add_job env job).
Proof.
  intros s. unfold add_job.
  destruct (existsb _ (jobs (db s))); [reflexivity |].
  destruct (existsb _ (jobs (db s))); reflexivity.
Qed.

Lemma keeps_runs_save_jobs env : forall extracted_jobs n,
  keeps_runs (save_jobs env extracted_jobs n).
Proof.
  induction extracted_jobs as [| job rest IH]; intros n.
  - intros s. reflexivity.
  - cbn [save_jobs]. apply keeps_runs_bind; [apply keeps_runs_add_job |].
    intros _. apply IH.
Qed.

Lemma keeps_runs_save_batches env company new_jobs : forall starts n,
  keeps_runs (save_batches env company new_jobs starts n).
Proof.
  induction starts as [| b starts IH]; intros n.
  - intros s. reflexivity.
  - cbn [save_batches]. apply keeps_runs_bind.
    + apply keeps_db_runs, keeps_db_extract_multiple_jobs.
    + intros extracted_jobs. apply keeps_runs_bind; [apply keeps_runs_save_jobs |].
      intros n'. apply IH.
Qed.

Lemma update_current_run env rows row discovered scraped new_status new_error s :
  current_run s rows row ->
  update_scrape_run env (run_id row) discovered scraped new_status new_error s
  = (Ok tt,
     set_db s {| companies := companies (db s); jobs := jobs (db s);
                 scrape_runs :=
                   rows ++ [update_run_row (now env (calls s)) discovered scraped
                              new_status new_error row] |}).
Proof.
  intros [Hrows Hid]. unfold update_scrape_run. rewrite Hrows, map_app.
  cbn [map]. rewrite Z.eqb_refl. rewrite Hid.
  rewrite (update_older_rows
             (update_run_row (now env (calls s)) discovered scraped new_status new_error)
             rows).
  reflexivity.
Qed.

Lemma current_run_kept (s s' : State) rows row :
  current_run s rows row ->
  scrape_runs (db s') = scrape_runs (db s) ->
  current_run s' rows row.
Proof. intros [Hrows Hid] Heq. split; [rewrite Heq; exact Hrows | exact Hid]. Qed.

Lemma current_run_updated env rows row discovered scraped new_status new_error s :
  current_run s rows row ->
  current_run
    (snd (update_scrape_run env (run_id row) discovered scraped new_status new_error s))
    rows
    (update_run_row (now env (calls s)) discovered scraped new_status new_error row).
Proof.
  intros H. rewrite (update_current_run env rows row _ _ _ _ s H).
  destruct H as [_ Hid]. split; [reflexivity | exact Hid].
Qed.

(** The steps of one company, from a state in which the run has its row:
    the run keeps its row, and when the steps end without an exception the
    row says [completed]. *)
Lemma scrape_steps_run env company categories job_limit rows row s r s' :
  current_run s rows row ->
  scrape_steps env company categories job_limit (run_id row) s = (r, s') ->
  exists row',
    current_run s' rows row'
    /\ run_company_id row' = run_company_id row
    /\ match r with
       | Ok _ => status row' = Some "completed"%string /\ completed_at row' <> None
       | Raise _ => status row' = status row /\ completed_at row' = completed_at row
       end.
Proof.
  intros Hrun H. unfold scrape_steps in H.
  unfold bind at 1 in H.
  pose proof (keeps_db_discover_all env company categories s) as Hdisc.
  destruct (discover_all_jobs_for_company env company categories s)
    as [[found | e] s1]; simpl in Hdisc.
  2:{ inversion H; subst. exists row. split; [| split; [reflexivity | split; reflexivity]].
      apply (current_run_kept s); [exact Hrun | rewrite Hdisc; reflexivity]. }
  assert (Hrun1 : current_run s1 rows row)
    by (apply (current_run_kept s); [exact Hrun | rewrite Hdisc; reflexivity]).
  unfold bind at 1 in H.
  pose proof (current_run_updated env rows row (Some (len found)) None None None s1 Hrun1)
    as Hrun2.
  rewrite (update_current_run env rows row _ _ _ _ s1 Hrun1) in Hrun2, H.
  cbn [snd] in Hrun2.
  set (s2 := set_db s1 _) in *.
  set (row2 := update_run_row _ _ _ _ _ row) in *.
  change (run_id row) with (run_id row2) in H.
  unfold bind at 1 in H. rewrite filter_new_eq in H.
  destruct (apply_limit job_limit (new_listings (db s2) found)) as [| l new_jobs].
  - rewrite (update_current_run env rows row2 _ _ _ _ s2 Hrun2) in H.
    inversion H; subst.
    eexists. split; [split; [reflexivity | exact (proj2 Hrun2)] |].
    split; [reflexivity |]. split; [reflexivity | discriminate].
  - unfold bind at 1 in H. rewrite lift_eq in H.
    destruct (py_range 0 (len (l :: new_jobs)) batch_size) as [starts | e].
    2:{ inversion H; subst. exists row2. split; [exact Hrun2 | split; [reflexivity | split; reflexivity]]. }
    unfold bind at 1 in H.
    pose proof (keeps_runs_save_batches env company (l :: new_jobs) starts 0 s2) as Hsave.
    destruct (save_batches env company (l :: new_jobs) starts 0 s2)
      as [[saved_count | e] s3]; simpl in Hsave.
    2:{ inversion H; subst. exists row2. split; [| split; [reflexivity | split; reflexivity]].
        apply (current_run_kept s2); [exact Hrun2 | exact Hsave]. }
    assert (Hrun3 : current_run s3 rows row2)
      by (apply (current_run_kept s2); [exact Hrun2 | exact Hsave]).
    unfold bind at 1 in H.
    rewrite (update_current_run env rows row2 _ _ _ _ s3 Hrun3) in H.
    inversion H; subst.
    eexists. split; [split; [reflexivity | exact (proj2 Hrun3)] |].
    split; [reflexivity |]. split; [reflexivity | discriminate].
Qed.



(** X21.  When discovery finds no listing that is new (or the limit leaves
    none), the run is completed at once: no browser is started for
    extraction, the [jobs] table is not touched, and neither is the
    company's [last_scraped]; the run records the number of listings found
    and 0 jobs scraped. *)
Theorem nothing_new_completes_the_run env company categories job_limit s found s1 :
  discover_all_jobs_for_company env company categories
    (snd (create_scrape_run env (company_id_of company) "Multiple categories" s))
  = (Ok found, s1) ->
  apply_limit job_limit (new_listings (db s) found) = [] ->
  exists s',
    scrape_company env company categories job_limit s = (Ok tt, s')
    /\ calls s' = calls s1
    /\ jobs (db s') = jobs (db s)
    /\ companies (db s') = companies (db s)
    /\ scrape_runs (db s')
       = scrape_runs (db s) ++ [completed_run env company s s1 (len found)].
Proof.
  intros Hdisc Hnew.
  pose proof (keeps_db_discover_all env company categories
                (snd (create_scrape_run env (company_id_of company)
                        "Multiple categories" s))) as Hdb.
  rewrite Hdisc in Hdb. simpl in Hdb.
  unfold scrape_company, bind at 1.
  unfold create_scrape_run in *. cbn [snd] in Hdisc.
  set (rows := scrape_runs (db s)) in *.
  set (row0 := {| run_id := next_id (map run_id rows) |}) in *.
  assert (Hrun1 : current_run s1 rows row0) by (split; [rewrite Hdb |]; reflexivity).
  change (next_id (map run_id rows)) with (run_id row0) at 2.
  unfold scrape_steps.
  erewrite try_except_ok; [eexists; split; [reflexivity |] |].
  2:{ rewrite (bind_ok _ _ _ _ _ Hdisc).
      unfold bind at 1.
      rewrite (update_current_run env rows row0 _ _ _ _ s1 Hrun1).
      unfold bind at 1. rewrite filter_new_eq.
      replace (new_listings _ found) with (new_listings (db s) found)
        by (unfold new_listings; cbn [db set_db jobs]; rewrite Hdb; reflexivity).
      rewrite Hnew.
      set (row2 := update_run_row (now env (calls s1)) (Some (len found)) None None
                     None row0).
      change (run_id row0) with (run_id row2).
      rewrite (update_current_run env rows row2) by (split; reflexivity).
      reflexivity. }
  cbn [calls db set_db jobs companies scrape_runs].
  rewrite Hdb. cbn [jobs companies]. repeat (split; [reflexivity |]).
  reflexivity.
Qed.

Lemma nothing_new_on_known_site :
  fst known_run = Ok tt
  /\ jobs (db (snd known_run)) = jobs (db known_state)
  /\ companies (db (snd known_run)) = companies (db known_state)
  /\ scrape_runs (db (snd known_run))
     = [completed_run known_site example_company known_state (snd known_discovery) 2].
Proof.
  assert (Hdisc : discover_all_jobs_for_company known_site example_company
                    ["Backend Engineer"%string]
                    (snd (create_scrape_run known_site (company_id_of example_company)
                            "Multiple categories" known_state))
                  = (Ok (value_or [] (fst known_discovery)), snd known_discovery))
    by (vm_compute; reflexivity).
  assert (Hnew : apply_limit None
                   (new_listings (db known_state) (value_or [] (fst known_discovery)))
                 = [])
    by (vm_compute; reflexivity).
  destruct (nothing_new_completes_the_run known_site example_company
              ["Backend Engineer"%string] None known_state
              (value_or [] (fst known_discovery)) (snd known_discovery) Hdisc Hnew)
    as (s' & Hrun & _ & Hjobs & Hcompanies & Hruns).
  unfold known_run. rewrite Hrun. cbn [fst snd].
  split; [reflexivity |]. split; [exact Hjobs |]. split; [exact Hcompanies |].
  rewrite Hruns. vm_compute. reflexivity.
Defined.

(** ** A run on a browser that cooperates *)

Lemma sublist_In {A} (l k : list A) x : sublist l k -> In x l -> In x k.
Proof.
  induction 1 as [| y l k _ IH | y l k _ IH]; simpl; [tauto | | ].
  - intros [-> | H]; [left; reflexivity | right; apply IH; exact H].
  - intros H. right. apply IH. exact H.
Qed.

Lemma sublist_ListNoDup {A} (l k : list A) : sublist l k -> List.NoDup k -> List.NoDup l.
Proof.
  induction 1 as [| y l k Hsub IH | y l k Hsub IH]; intros Hnd.
  - constructor.
  - inversion Hnd as [| ? ? Hnotin Hnd']; subst. constructor; [| apply IH; exact Hnd'].
    intros Hin. apply Hnotin. eapply sublist_In; eassumption.
  - inversion Hnd; subst. apply IH. assumption.
Qed.

Lemma sublist_ListForall {A} (P : A -> Prop) (l k : list A) :
  sublist l k -> Forall P k -> Forall P l.
Proof.
  intros Hsub Hk. apply List.Forall_forall. intros x Hx.
  apply (proj1 (List.Forall_forall P k) Hk). eapply sublist_In; eassumption.
Qed.

Lemma sublist_ListFilter {A} (f : A -> bool) (l : list A) : sublist (List.filter f l) l.
Proof.
  induction l as [| x l IH]; simpl; [constructor |].
  destruct (f x); [apply sublist_skip | apply sublist_cons]; exact IH.
Qed.

Lemma py_slice_sublist {A} (l : list A) lo hi : sublist (py_slice l lo hi) l.
Proof.
  unfold py_slice. etransitivity; [apply sublist_take | apply sublist_drop].
Qed.

Lemma apply_limit_sublist job_limit new_jobs : sublist (apply_limit job_limit new_jobs) new_jobs.
Proof.
  unfold apply_limit. destruct job_limit as [n |]; [| reflexivity].
  destruct (negb (n =? 0) && (n <? len new_jobs))%bool;
    [apply py_slice_sublist | reflexivity].
Qed.

Lemma ListNoDup_app_disjoint {A} (l k : list A) x :
  List.NoDup (l ++ k) -> In x l -> ~ In x k.
Proof.
  induction l as [| y l IH]; simpl; [tauto |].
  intros Hnd [-> | Hin] Hk; inversion Hnd as [| ? ? Hnotin Hnd']; subst.
  - apply Hnotin. apply in_or_app. right. exact Hk.
  - exact (IH Hnd' Hin Hk).
Qed.

Lemma known_hash_iff rows h :
  existsb (fun row => String.eqb (job_url_hash row) h) rows = true
  <-> In h (map job_url_hash rows).
Proof.
  rewrite existsb_exists, in_map_iff. split.
  - intros (row & Hrow & Heq). apply String.eqb_eq in Heq. eauto.
  - intros (row & Heq & Hrow). exists row. split; [exact Hrow |].
    apply String.eqb_eq. exact Heq.
Qed.

Lemma new_listings_unknown d found listing :
  In listing (new_listings d found) ->
  ~ In (url_hash listing) (map job_url_hash (jobs d)).
Proof.
  unfold new_listings. intros H Hin. apply filter_In in H. destruct H as [_ H].
  apply negb_true_iff in H. apply known_hash_iff in Hin. congruence.
Qed.

(** What discovery returns: listings with pairwise different fingerprints,
    each the hash of its URL. *)
Lemma discovered_listings env company categories s found s' :
  discover_all_jobs_for_company env company categories s = (Ok found, s') ->
  List.NoDup (map url_hash found) /\ Forall hash_of_url found.
Proof.
  unfold discover_all_jobs_for_company. intros H.
  apply with_browser_inv_ok in H. destruct H as (mgr & s0 & s1 & H).
  apply bind_inv_ok in H. destruct H as (all_jobs & s2 & Hsearch & H).
  inversion H; subst. clear H.
  destruct (search_categories_eq env company categories [] s0)
    as (searches & s3 & Hsearched & _ & Hrun).
  rewrite Hrun in Hsearch. inversion Hsearch; subst. clear Hsearch.
  pose proof (merge_invariant_holds (tagged searches)) as [Hk Hd Hs Hv].
  split.
  - rewrite map_hash_values by exact Hk. exact Hd.
  - apply List.Forall_forall. intros j Hj. apply Hv in Hj.
    destruct Hj as (c & j0 & Hfirst & ->).
    apply first_seen_Some in Hfirst. destruct Hfirst as [Hin _].
    unfold hash_of_url. simpl.
    eapply searched_listing; eassumption.
Qed.

Lemma session_of_cooperation env : browser_cooperates env -> session_succeeds env.
Proof. intros H h c _. apply H. Qed.

Lemma extract_batch_returns env cid sels batch_len :
  browser_cooperates env ->
  forall items i acc s,
    exists res s', extract_batch env cid sels batch_len items i acc s = (Ok res, s').
Proof.
  intros Hco. induction items as [| jd items IH]; intros i acc s.
  - simpl. unfold ret. eauto.
  - cbn [extract_batch].
    destruct (retry_loop_returns env jd cid sels 3 (fun h => Hco h _)
                (Z.to_nat 3) 0 s) as (job & s1 & Hjob).
    unfold extract_job_details. rewrite (bind_ok _ _ _ _ _ Hjob).
    destruct (i <? batch_len - 1).
    + erewrite bind_ok by (rewrite perform_eq, Hco; reflexivity). apply IH.
    + erewrite bind_ok by reflexivity. apply IH.
Qed.

Lemma extract_batches_returns env listings cid sels size :
  browser_cooperates env ->
  forall starts acc s,
    exists res s', extract_batches env listings cid sels size starts acc s = (Ok res, s').
Proof.
  intros Hco. induction starts as [| b starts IH]; intros acc s.
  - simpl. unfold ret. eauto.
  - cbn [extract_batches].
    unfold bind at 1.
    rewrite (with_browser_eq env _ s (session_of_cooperation env Hco)).
    destruct (extract_batch_returns env cid sels
                (len (py_slice listings b (b + size))) Hco
                (py_slice listings b (b + size)) 0 acc (after s (start_calls env)))
      as (res & s1 & Hbatch).
    rewrite Hbatch. cbn [fst snd]. apply IH.
Qed.

Lemma extract_multiple_jobs_returns env listings cid sels size s :
  browser_cooperates env ->
  size <> 0 ->
  exists res s', extract_multiple_jobs env listings cid sels size s = (Ok res, s').
Proof.
  intros Hco Hsize. unfold extract_multiple_jobs, py_range.
  rewrite (proj2 (Z.eqb_neq size 0) Hsize).
  erewrite bind_ok by reflexivity.
  apply extract_batches_returns. exact Hco.
Qed.

(** One batch: what was extracted from listings that are not in the table
    is saved without meeting a [UNIQUE] constraint. *)
Lemma extracted_batch_saved env batch cid sels size n s res s1 :
  hashes_of_urls (jobs (db s)) ->
  Forall hash_of_url batch ->
  List.NoDup (map url_hash batch) ->
  (forall l, In l batch -> ~ In (url_hash l) (map job_url_hash (jobs (db s)))) ->
  extract_multiple_jobs env batch cid sels size s = (Ok res, s1) ->
  exists s2,
    save_jobs env res n s1 = (Ok (n + len res), s2)
    /\ hashes_of_urls (jobs (db s2))
    /\ map job_url_hash (jobs (db s2))
       = map job_url_hash (jobs (db s)) ++ map job_url_hash res
    /\ incl (map job_url_hash res) (map url_hash batch).
Proof.
  intros Hdb Hbatch Hnd Hnew Hext.
  pose proof (keeps_db_extract_multiple_jobs env batch cid sels size s) as Hkeep.
  rewrite Hext in Hkeep. simpl in Hkeep.
  apply extract_multiple_jobs_sublist in Hext.
  assert (Hhashes : sublist (map job_url_hash res) (map url_hash batch)).
  { apply (sublist_map snd) in Hext. rewrite !map_map in Hext. exact Hext. }
  assert (Hincl : incl (map job_url_hash res) (map url_hash batch))
    by (intros h Hh; eapply sublist_In; eassumption).
  destruct (save_jobs_unique env res n s1) as (s2 & Hsave & Hdb2 & Hrows).
  - rewrite Hkeep. exact Hdb.
  - apply List.Forall_forall. intros j Hj.
    assert (Hid : In (job_identity j) (map listing_identity batch))
      by (eapply sublist_In; [exact Hext | apply in_map; exact Hj]).
    apply in_map_iff in Hid. destruct Hid as (l & Hl & Hin).
    unfold job_identity, listing_identity in Hl. inversion Hl as [[Hu Hh]].
    apply (proj1 (List.Forall_forall _ _) Hbatch l Hin).
  - eapply sublist_ListNoDup; eassumption.
  - intros j Hj. rewrite Hkeep.
    assert (Hh : In (job_url_hash j) (map url_hash batch))
      by (apply Hincl, in_map; exact Hj).
    apply in_map_iff in Hh. destruct Hh as (l & <- & Hin). apply Hnew. exact Hin.
  - exists s2. rewrite Hkeep in Hrows. auto.
Qed.

Lemma save_batches_completes env company new_jobs :
  browser_cooperates env ->
  forall starts n s,
    hashes_of_urls (jobs (db s)) ->
    Forall hash_of_url (concat (map (batch_at batch_size new_jobs) starts)) ->
    List.NoDup (map url_hash (concat (map (batch_at batch_size new_jobs) starts))) ->
    (forall l, In l (concat (map (batch_at batch_size new_jobs) starts)) ->
               ~ In (url_hash l) (map job_url_hash (jobs (db s)))) ->
    exists n' s',
      save_batches env company new_jobs starts n s = (Ok n', s')
      /\ hashes_of_urls (jobs (db s')).
Proof.
  intros Hco. induction starts as [| b starts IH]; intros n s Hdb Hall Hnd Hnew.
  - exists n, s. split; [reflexivity | exact Hdb].
  - cbn [map concat] in Hall, Hnd, Hnew.
    set (batch := batch_at batch_size new_jobs b) in *.
    apply Forall_app in Hall. destruct Hall as [Hbatch Hrest].
    rewrite map_app in Hnd.
    destruct (extract_multiple_jobs_returns env batch (company_id_of company)
                (selectors company) batch_size s Hco ltac:(discriminate))
      as (res & s1 & Hext).
    destruct (extracted_batch_saved env batch _ _ _ n s res s1 Hdb Hbatch
                (NoDup_app_remove_r _ _ Hnd)
                (fun l Hl => Hnew l (in_or_app _ _ _ (or_introl Hl))) Hext)
      as (s2 & Hsave & Hdb2 & Hrows & Hincl).
    destruct (IH (n + len res) s2 Hdb2 Hrest (NoDup_app_remove_l _ _ Hnd))
      as (n' & s' & Hloop & Hdb').
    + intros l Hl Hin. rewrite Hrows in Hin. apply in_app_or in Hin.
      destruct Hin as [Hin | Hin].
      * exact (Hnew l (in_or_app _ _ _ (or_intror Hl)) Hin).
      * apply Hincl in Hin.
        exact (ListNoDup_app_disjoint _ _ _ Hnd Hin (in_map url_hash _ _ Hl)).
    + exists n', s'. cbn [save_batches]. fold batch.
      rewrite (bind_ok _ _ _ _ _ Hext), (bind_ok _ _ _ _ _ Hsave).
      split; [exact Hloop | exact Hdb'].
Qed.

(** X22.  On a browser that cooperates, and a [jobs] table whose rows
    carry the hashes of their URLs, the run of a company is always
    completed: no insert meets a [UNIQUE] constraint, because discovery
    returns each fingerprint once and the filter leaves out the
    fingerprints of the table.  The table still carries the hashes of its
    URLs afterwards. *)
Theorem cooperative_run_is_completed env company categories job_limit s :
  browser_cooperates env ->
  hashes_of_urls (jobs (db s)) ->
  exists s' row,
    scrape_company env company categories job_limit s = (Ok tt, s')
    /\ scrape_runs (db s') = scrape_runs (db s) ++ [row]
    /\ status row = Some "completed"%string
    /\ error_message row = None
    /\ hashes_of_urls (jobs (db s')).
Proof.
  intros Hco Hdb.
  unfold scrape_company, bind at 1, create_scrape_run.
  set (rows := scrape_runs (db s)).
  set (row0 := {| run_id := next_id (map run_id rows) |}).
  set (s0 := set_db s _).
  assert (Hrun0 : current_run s0 rows row0) by (split; reflexivity).
  change (next_id (map run_id rows)) with (run_id row0).
  enough (Hsteps : exists s' row,
             scrape_steps env company categories job_limit (run_id row0) s0 = (Ok tt, s')
             /\ scrape_runs (db s') = rows ++ [row]
             /\ status row = Some "completed"%string
             /\ error_message row = None
             /\ hashes_of_urls (jobs (db s'))).
  { destruct Hsteps as (s' & row & Hsteps & Hrest). exists s', row.
    split; [apply try_except_ok; exact Hsteps | exact Hrest]. }
  destruct (search_categories_eq env company categories [] (after s0 (start_calls env)))
    as (searches & s1' & _ & _ & Hsearch).
  assert (Hdisc : exists found s1,
             discover_all_jobs_for_company env company categories s0 = (Ok found, s1)).
  { unfold discover_all_jobs_for_company.
    rewrite (with_browser_eq env _ s0 (session_of_cooperation env Hco)).
    rewrite (bind_ok _ _ _ _ _ Hsearch). eauto. }
  destruct Hdisc as (found & s1 & Hdisc).
  destruct (discovered_listings _ _ _ _ _ _ Hdisc) as [Hnd Hfound].
  pose proof (keeps_db_discover_all env company categories s0) as Hdb1.
  rewrite Hdisc in Hdb1. simpl in Hdb1.
  assert (Hrun1 : current_run s1 rows row0)
    by (apply (current_run_kept s0); [exact Hrun0 | rewrite Hdb1; reflexivity]).
  unfold scrape_steps. rewrite (bind_ok _ _ _ _ _ Hdisc).
  unfold bind at 1.
  rewrite (update_current_run env rows row0 _ _ _ _ s1 Hrun1).
  set (row2 := update_run_row _ _ _ _ _ row0).
  set (s2 := set_db s1 _).
  assert (Hrun2 : current_run s2 rows row2) by (split; reflexivity).
  assert (Hjobs2 : jobs (db s2) = jobs (db s))
    by (unfold s2; cbn [db set_db jobs]; rewrite Hdb1; reflexivity).
  change (run_id row0) with (run_id row2).
  unfold bind at 1. rewrite filter_new_eq.
  set (new_jobs := apply_limit job_limit (new_listings (db s2) found)).
  assert (Hsub : sublist new_jobs found).
  { unfold new_jobs. etransitivity; [apply apply_limit_sublist |].
    apply sublist_ListFilter. }
  destruct new_jobs as [| l new_jobs'] eqn:Hnew_jobs.
  - rewrite (update_current_run env rows row2 _ _ _ _ s2 Hrun2).
    eexists _, _. split; [reflexivity |].
    cbn [db set_db scrape_runs jobs error_message status update_run_row].
    rewrite Hjobs2. auto.
  - rewrite <- Hnew_jobs in *. clear Hnew_jobs.
    destruct (batches_partition batch_size new_jobs ltac:(reflexivity))
      as (starts & Hrange & Hconcat).
    rewrite Hrange. rewrite (bind_ok _ _ s2 starts s2) by reflexivity.
    destruct (save_batches_completes env company new_jobs Hco starts 0 s2)
      as (n' & s3 & Hsave & Hdb3).
    + rewrite Hjobs2. exact Hdb.
    + rewrite Hconcat. eapply sublist_ListForall; eassumption.
    + rewrite Hconcat. eapply sublist_ListNoDup; [| exact Hnd].
      apply sublist_map. exact Hsub.
    + rewrite Hconcat. intros l0 Hl0.
      apply new_listings_unknown with (found := found).
      eapply sublist_In; [apply apply_limit_sublist | exact Hl0].
    + pose proof (keeps_runs_save_batches env company new_jobs starts 0 s2) as Hruns.
      rewrite Hsave in Hruns. simpl in Hruns.
      assert (Hrun3 : current_run s3 rows row2)
        by (apply (current_run_kept s2); [exact Hrun2 | exact Hruns]).
      rewrite (bind_ok _ _ _ _ _ Hsave).
      unfold bind at 1.
      rewrite (update_current_run env rows row2 _ _ _ _ s3 Hrun3).
      eexists _, _. split; [reflexivity |].
      cbn [db set_db scrape_runs jobs error_message status update_run_row
           update_company_last_scraped snd].
      auto.
Qed.

Lemma cooperative_run_on_known_site :
  exists s' row,
    scrape_company known_site example_company ["Backend Engineer"%string] (Some 5)
      initial_state = (Ok tt, s')
    /\ scrape_runs (db s') = [] ++ [row]
    /\ status row = Some "completed"%string
    /\ error_message row = None
    /\ hashes_of_urls (jobs (db s')).
Proof.
  exact (cooperative_run_is_completed known_site example_company
           ["Backend Engineer"%string] (Some 5) initial_state
           (fun h c => eq_refl) (List.Forall_nil _)).
Defined.

(** ** The scrape command over the companies *)



(** X24.  A negative job limit is not refused: the slice [new_jobs[:n]]
    then drops the last [-n] new listings. *)
Theorem negative_limit_drops_the_last (job_limit : Z) (new_jobs : list JobDiscovered) :
  job_limit < 0 ->
  apply_limit (Some job_limit) new_jobs
  = firstn (length new_jobs - Z.to_nat (- job_limit)) new_jobs.
Proof.
  intros Hneg. unfold apply_limit.
  rewrite (proj2 (Z.eqb_neq job_limit 0)) by lia.
  rewrite (proj2 (Z.ltb_lt job_limit (len new_jobs))) by (unfold len; lia).
  cbn [negb andb]. unfold py_slice, clamp.
  rewrite (proj2 (Z.ltb_lt job_limit 0) Hneg), Z.ltb_irrefl.
  rewrite (Z.min_l 0) by (unfold len; lia).
  simpl skipn. f_equal. unfold len. lia.
Qed.

Lemma negative_limit_on_12_listings :
  apply_limit (Some (-3)) (map sample_listing (seq 0 12))
  = map sample_listing (seq 0 9).
Proof.
  exact (negative_limit_drops_the_last (-3) (map sample_listing (seq 0 12)) eq_refl).
Defined.

(** ** Where the scraper navigates *)

Lemma stays_ret {A} targets (a : A) : stays_within targets (ret a).
Proof. intros s. exists []. rewrite after_nil. split; [reflexivity | constructor]. Qed.

Lemma stays_lift {A} targets (r : Res A) : stays_within targets (lift r).
Proof. intros s. exists []. rewrite after_nil. split; [reflexivity | constructor]. Qed.

Lemma stays_perform targets env c :
  navigates_within targets c -> stays_within targets (perform env c).
Proof. intros Hc s. exists [c]. split; [reflexivity | constructor; [exact Hc | constructor]]. Qed.

Lemma stays_query_all targets env sel : stays_within targets (query_selector_all env sel).
Proof.
  intros s. exists [CQuerySelectorAll sel].
  split; [reflexivity | constructor; [exact I | constructor]].
Qed.

Lemma stays_query targets env sel : stays_within targets (query_selector env sel).
Proof.
  intros s. exists [CQuerySelector sel].
  split; [reflexivity | constructor; [exact I | constructor]].
Qed.

Lemma stays_bind {A B} targets (m : M A) (f : A -> M B) :
  stays_within targets m -> (forall a, stays_within targets (f a)) ->
  stays_within targets (bind m f).
Proof.
  intros Hm Hf s. unfold bind. destruct (Hm s) as (cs & Hs & Hcs).
  destruct (m s) as [[a | e] s1]; simpl in Hs; subst s1.
  - destruct (Hf a (after s cs)) as (cs' & Hs' & Hcs').
    exists (cs ++ cs'). rewrite Hs', after_after.
    split; [reflexivity | apply Forall_app; split; assumption].
  - exists cs. split; [reflexivity | exact Hcs].
Qed.

Lemma stays_try {A} targets (m : M A) (h : string -> M A) :
  stays_within targets m -> (forall e, stays_within targets (h e)) ->
  stays_within targets (try_except m h).
Proof.
  intros Hm Hh s. unfold try_except. destruct (Hm s) as (cs & Hs & Hcs).
  destruct (m s) as [[a | e] s1]; simpl in Hs; subst s1.
  - exists cs. split; [reflexivity | exact Hcs].
  - destruct (Hh e (after s cs)) as (cs' & Hs' & Hcs').
    exists (cs ++ cs'). rewrite Hs', after_after.
    split; [reflexivity | apply Forall_app; split; assumption].
Qed.

Lemma start_calls_navigate_nowhere targets env n :
  Forall (navigates_within targets) (firstn n (start_calls env)).
Proof.
  apply List.Forall_forall. intros c Hc. apply (sublist_In _ _ _ (sublist_take _ n)) in Hc.
  unfold start_calls in Hc. simpl in Hc.
  repeat (destruct Hc as [<- | Hc]; [exact I |]). destruct Hc.
Qed.

Lemma stays_close targets env self : stays_within targets (close env self).
Proof.
  unfold close, release_if.
  repeat (apply stays_bind; [| intros ?]);
    match goal with |- stays_within _ (match ?h with _ => _ end) => destruct h end;
    first [apply stays_perform; exact I | apply stays_ret].
Qed.

Lemma stays_with_browser {A} targets env (body : BrowserManager -> M A) :
  (forall mgr, stays_within targets (body mgr)) ->
  stays_within targets (with_browser env body).
Proof.
  intros Hb s. unfold with_browser.
  destruct (start env new_manager s) as [[r mgr] s1] eqn:Hstart.
  destruct (start_within_start_calls _ _ _ _ _ Hstart) as (n & ->).
  pose proof (start_calls_navigate_nowhere targets env n) as Hn.
  destruct r as [[] | e]; [| eexists; split; [reflexivity | exact Hn]].
  destruct (Hb mgr (after s (firstn n (start_calls env)))) as (cs & Hs & Hcs).
  destruct (body mgr _) as [r s2]. simpl in Hs. subst s2.
  destruct (stays_close targets env mgr
              (after (after s (firstn n (start_calls env))) cs)) as (cs' & Hs' & Hcs').
  exists (firstn n (start_calls env) ++ cs ++ cs').
  split.
  - destruct (close env mgr _) as [[[] | e] s3]; simpl in Hs'; subst s3;
      rewrite !after_after; reflexivity.
  - repeat (apply Forall_app; split); assumption.
Qed.

Create HintDb stays.
#[local] Hint Resolve stays_ret stays_lift stays_query_all stays_query : stays.

Ltac stays_step :=
  match goal with
  | |- stays_within _ (bind _ _) => apply stays_bind; [| intros ?]
  | |- stays_within _ (try_except _ _) => apply stays_try; [| intros ?]
  | |- stays_within _ (with_browser _ _) => apply stays_with_browser; intros ?
  | |- stays_within _ (perform _ _) => apply stays_perform; solve [exact I | simpl; auto]
  | |- stays_within _ (match ?x with _ => _ end) => destruct x
  | |- stays_within _ _ => solve [auto with stays]
  end.
Ltac stays := repeat stays_step.

Lemma stays_scroll_loop targets env sel max : forall fuel previous scroll_count,
  stays_within targets (scroll_loop env sel max fuel previous scroll_count).
Proof.
  induction fuel as [| fuel IH]; intros previous scroll_count; simpl.
  - stays.
  - destruct (scroll_count <? max); [| stays].
    unfold scroll_to_bottom. stays.
Qed.
#[local] Hint Resolve stays_scroll_loop : stays.

Lemma stays_infinite_scroll targets env sel max :
  stays_within targets (infinite_scroll env sel max).
Proof. unfold infinite_scroll. stays. Qed.
#[local] Hint Resolve stays_infinite_scroll : stays.

Lemma stays_extract_cards targets env sels search_url cards : forall found,
  stays_within targets (extract_cards env sels search_url cards found).
Proof. induction cards as [| card rest IH]; intros found; simpl; stays. Qed.
#[local] Hint Resolve stays_extract_cards : stays.

Lemma stays_discover_jobs targets env search_url sels :
  In search_url targets ->
  stays_within targets (discover_jobs env search_url sels).
Proof. intros Hin. unfold discover_jobs, discover_steps. stays. Qed.

Lemma stays_search_categories targets env company : forall categories d,
  incl (map (search_url_of company) categories) targets ->
  stays_within targets (search_categories env company categories d).
Proof.
  induction categories as [| category rest IH]; intros d Hincl; simpl; [stays |].
  apply stays_bind.
  - apply stays_discover_jobs. apply Hincl. left. reflexivity.
  - intros found. apply IH. intros u Hu. apply Hincl. right. exact Hu.
Qed.

Lemma stays_fallback targets env fallbacks : forall fields,
  stays_within targets (fallback_description env fallbacks fields).
Proof. induction fallbacks as [| sel rest IH]; intros fields; simpl; stays. Qed.
#[local] Hint Resolve stays_fallback : stays.

Lemma stays_optional_field targets env sels key field fields :
  stays_within targets (optional_field env sels key field fields).
Proof. unfold optional_field. stays. Qed.
#[local] Hint Resolve stays_optional_field : stays.

Lemma stays_extract_fields targets env sels : stays_within targets (_extract_fields env sels).
Proof. unfold _extract_fields. stays. Qed.
#[local] Hint Resolve stays_extract_fields : stays.

Lemma stays_attempt targets env jd cid sels :
  In (url jd) targets -> stays_within targets (attempt env jd cid sels).
Proof. intros Hin. unfold attempt. stays. Qed.

Lemma stays_retry_loop targets env jd cid sels max_retries :
  In (url jd) targets ->
  forall remaining attempt_no,
    stays_within targets (retry_loop env jd cid sels max_retries remaining attempt_no).
Proof.
  intros Hin. induction remaining as [| remaining IH]; intros attempt_no; simpl.
  - stays.
  - apply stays_bind.
    + apply stays_try; [| intros e; stays].
      apply stays_bind; [apply stays_attempt; exact Hin | intros job; stays].
    + intros [result |]; [stays | apply IH].
Qed.

Lemma stays_extract_batch targets env cid sels batch_len : forall items i acc,
  incl (map url items) targets ->
  stays_within targets (extract_batch env cid sels batch_len items i acc).
Proof.
  induction items as [| jd rest IH]; intros i acc Hincl; simpl; [stays |].
  apply stays_bind.
  - unfold extract_job_details. apply stays_retry_loop. apply Hincl. left. reflexivity.
  - intros job. apply stays_bind; [stays |].
    intros _. apply IH. intros u Hu. apply Hincl. right. exact Hu.
Qed.

Lemma stays_extract_batches targets env listings cid sels size :
  incl (map url listings) targets ->
  forall starts acc,
    stays_within targets (extract_batches env listings cid sels size starts acc).
Proof.
  intros Hincl. induction starts as [| b rest IH]; intros acc; simpl; [stays |].
  apply stays_bind; [| intros acc'; apply IH].
  apply stays_with_browser. intros mgr. apply stays_extract_batch.
  intros u Hu. apply Hincl.
  apply in_map_iff in Hu. destruct Hu as (jd & <- & Hjd). apply in_map.
  eapply sublist_In; [apply py_slice_sublist | exact Hjd].
Qed.

(** X25.  The scraper navigates nowhere else: discovery only adds calls to
    the trace and every [goto] among them goes to the search URL of one
    of the categories; extraction only adds calls and every [goto] goes to
    the URL of one of the listings given; however they end. *)
Theorem scraper_navigates_to_known_urls env company categories listings cid sels size :
  stays_within (map (search_url_of company) categories)
    (discover_all_jobs_for_company env company categories)
  /\ stays_within (map url listings)
       (extract_multiple_jobs env listings cid sels size).
Proof.
  split.
  - unfold discover_all_jobs_for_company. apply stays_with_browser. intros mgr.
    apply stays_bind; [| intros all_jobs; stays].
    apply stays_search_categories. intros u Hu. exact Hu.
  - unfold extract_multiple_jobs. apply stays_bind; [stays |].
    intros starts. apply stays_extract_batches. intros u Hu. exact Hu.
Qed.

(** ** The scrape command and the [jobs] table *)

Lemma appends_of_keeps_db {A} P (m : M A) : keeps_db m -> appends_jobs P m.
Proof.
  intros H s. exists []. rewrite H, app_nil_r. split; [reflexivity | constructor].
Qed.

Lemma appends_bind {A B} P (Q : A -> Prop) (m : M A) (f : A -> M B) :
  appends_jobs P m ->
  (forall s a s', m s = (Ok a, s') -> Q a) ->
  (forall a, Q a -> appends_jobs P (f a)) ->
  appends_jobs P (bind m f).
Proof.
  intros Hm HQ Hf s. unfold bind. destruct (Hm s) as (added & Hs & Hadded).
  destruct (m s) as [[a | e] s1] eqn:Hrun; simpl in Hs.
  - destruct (Hf a (HQ _ _ _ Hrun) s1) as (added' & Hs' & Hadded').
    exists (added ++ added'). rewrite Hs', Hs, <- app_assoc.
    split; [reflexivity | apply Forall_app; split; assumption].
  - exists added. split; assumption.
Qed.

Lemma appends_try {A} P (m : M A) (h : string -> M A) :
  appends_jobs P m -> (forall e, appends_jobs P (h e)) ->
  appends_jobs P (try_except m h).
Proof.
  intros Hm Hh s. unfold try_except. destruct (Hm s) as (added & Hs & Hadded).
  destruct (m s) as [[a | e] s1]; simpl in Hs.
  - exists added. split; assumption.
  - destruct (Hh e s1) as (added' & Hs' & Hadded').
    exists (added ++ added'). rewrite Hs', Hs, <- app_assoc.
    split; [reflexivity | apply Forall_app; split; assumption].
Qed.

Lemma appends_nothing {A} P (m : M A) :
  (forall s, jobs (db (snd (m s))) = jobs (db s)) -> appends_jobs P m.
Proof.
  intros H s. exists []. rewrite H, app_nil_r. split; [reflexivity | constructor].
Qed.

Lemma appends_add_job env job :
  appends_jobs (fun row => company_id row = company_id job) (add_job env job).
Proof.
  intros s. unfold add_job.
  destruct (existsb _ (jobs (db s))).
  { exists []. rewrite app_nil_r. split; [reflexivity | constructor]. }
  destruct (existsb _ (jobs (db s))).
  { exists []. rewrite app_nil_r. split; [reflexivity | constructor]. }
  eexists [_]. split; [reflexivity |]. constructor; [reflexivity | constructor].
Qed.

Lemma appends_save_jobs env cid : forall extracted_jobs n,
  Forall (fun j => cid = Some (company_id j)) extracted_jobs ->
  appends_jobs (fun row => cid = Some (company_id row))
    (save_jobs env extracted_jobs n).
Proof.
  induction extracted_jobs as [| job rest IH]; intros n Hjobs.
  - apply appends_nothing. reflexivity.
  - inversion Hjobs as [| ? ? Hjob Hrest]; subst. cbn [save_jobs].
    apply appends_bind with (Q := fun _ => True).
    + intros s. destruct (appends_add_job env job s) as (added & Hs & Hadded).
      exists added. split; [exact Hs |].
      eapply List.Forall_impl; [| exact Hadded]. simpl. intros row Hrow.
      rewrite Hrow. reflexivity.
    + auto.
    + intros _ _. apply IH. exact Hrest.
Qed.

Lemma extract_job_details_company env jd cid sels max_retries s job s' :
  extract_job_details env jd cid sels max_retries s = (Ok (Some job), s') ->
  cid = Some (company_id job).
Proof.
  intros H. apply retry_loop_success in H. destruct H as [s0 H].
  apply attempt_makes_job in H. destruct H as [job_data H].
  unfold make_job in H. destruct cid as [c |]; [| discriminate].
  inversion H; subst. reflexivity.
Qed.

Lemma extract_batch_company env cid sels batch_len : forall items i acc s res s',
  Forall (fun j => cid = Some (company_id j)) acc ->
  extract_batch env cid sels batch_len items i acc s = (Ok res, s') ->
  Forall (fun j => cid = Some (company_id j)) res.
Proof.
  induction items as [| jd items IH]; intros i acc s res s' Hacc H.
  - inversion H; subst. exact Hacc.
  - cbn [extract_batch] in H.
    apply bind_inv_ok in H. destruct H as (job & s1 & Hjob & H).
    apply bind_inv_ok in H. destruct H as (? & s2 & _ & H).
    apply IH in H; [exact H |].
    destruct job as [j |]; [| exact Hacc].
    apply Forall_app. split; [exact Hacc |].
    constructor; [| constructor].
    eapply extract_job_details_company. exact Hjob.
Qed.

Lemma extract_batches_company env listings cid sels size : forall starts acc s res s',
  Forall (fun j => cid = Some (company_id j)) acc ->
  extract_batches env listings cid sels size starts acc s = (Ok res, s') ->
  Forall (fun j => cid = Some (company_id j)) res.
Proof.
  induction starts as [| b starts IH]; intros acc s res s' Hacc H.
  - inversion H; subst. exact Hacc.
  - cbn [extract_batches] in H.
    apply bind_inv_ok in H. destruct H as (acc1 & s1 & Hbatch & H).
    apply with_browser_inv_ok in Hbatch. destruct Hbatch as (mgr & s0 & s2 & Hbatch).
    apply extract_batch_company in Hbatch; [| exact Hacc].
    eapply IH; eassumption.
Qed.

Lemma extract_multiple_jobs_company env listings cid sels size s res s' :
  extract_multiple_jobs env listings cid sels size s = (Ok res, s') ->
  Forall (fun j => cid = Some (company_id j)) res.
Proof.
  unfold extract_multiple_jobs. intros H.
  apply bind_inv_ok in H. destruct H as (starts & s1 & _ & H).
  eapply extract_batches_company; [| exact H]. constructor.
Qed.

Lemma appends_save_batches env company new_jobs : forall starts n,
  appends_jobs (fun row => company_id_of company = Some (company_id row))
    (save_batches env company new_jobs starts n).
Proof.
  induction starts as [| b starts IH]; intros n.
  - apply appends_nothing. reflexivity.
  - cbn [save_batches].
    apply appends_bind
      with (Q := Forall (fun j => company_id_of company = Some (company_id j))).
    + apply appends_of_keeps_db, keeps_db_extract_multiple_jobs.
    + intros s res s' H. eapply extract_multiple_jobs_company. exact H.
    + intros res Hres. apply appends_bind with (Q := fun _ => True).
      * apply appends_save_jobs. exact Hres.
      * auto.
      * intros n' _. apply IH.
Qed.

(** X26.  One turn of the scrape command only appends to the [jobs]
    table, however it ends: the rows that were there stay as they are, in
    their order, and every row added belongs to the company that is
    scraped. *)
Theorem scrape_company_only_appends_jobs env company categories job_limit s :
  exists added,
    jobs (db (snd (scrape_company env company categories job_limit s)))
    = jobs (db s) ++ added
    /\ Forall (fun row => company_id_of company = Some (company_id row)) added.
Proof.
  revert s.
  change (appends_jobs (fun row => company_id_of company = Some (company_id row))
            (scrape_company env company categories job_limit)).
  unfold scrape_company.
  apply appends_bind with (Q := fun _ => True);
    [apply appends_nothing; reflexivity | auto |].
  intros rid _. apply appends_try; [| intros e; apply appends_nothing; reflexivity].
  unfold scrape_steps.
  apply appends_bind with (Q := fun _ => True);
    [apply appends_of_keeps_db, keeps_db_discover_all | auto |].
  intros found _.
  apply appends_bind with (Q := fun _ => True);
    [apply appends_nothing; reflexivity | auto |].
  intros _ _.
  apply appends_bind with (Q := fun _ => True).
  { apply appends_nothing. intros s. rewrite filter_new_eq. reflexivity. }
  { auto. }
  intros new_jobs _.
  destruct (apply_limit job_limit new_jobs) as [| l rest].
  { apply appends_nothing. reflexivity. }
  apply appends_bind with (Q := fun _ => True);
    [apply appends_nothing; reflexivity | auto |].
  intros starts _.
  apply appends_bind with (Q := fun _ => True);
    [apply appends_save_batches | auto |].
  intros saved_count _.
  apply appends_bind with (Q := fun _ => True);
    [apply appends_nothing; reflexivity | auto |].
  intros _ _. apply appends_nothing. reflexivity.
Qed.

(** ** The companies that [init] loads *)

Lemma find_name_None n (rows : list Company) :
  List.find (fun c => String.eqb (name c) n) rows = None <-> ~ In n (map name rows).
Proof.
  split.
  - intros H Hin. apply in_map_iff in Hin. destruct Hin as (c & Hc & Hin).
    pose proof (find_none _ _ H c Hin) as Hf. simpl in Hf.
    rewrite Hc, String.eqb_refl in Hf. discriminate.
  - intros H. destruct (List.find _ rows) as [c |] eqn:Hf; [| reflexivity].
    apply find_some in Hf. destruct Hf as [Hin Heq]. apply String.eqb_eq in Heq.
    exfalso. apply H. rewrite <- Heq. apply in_map. exact Hin.
Qed.

Lemma add_company_new company s :
  ~ In (name company) (company_names s) ->
  exists cid row,
    add_company company s
    = (Ok cid, set_db s {| companies := companies (db s) ++ [row];
                           jobs := jobs (db s); scrape_runs := scrape_runs (db s) |})
    /\ name row = name company.
Proof.
  intros Hnew. unfold add_company.
  destruct (existsb _ (companies (db s))) eqn:Hex.
  - exfalso. apply Hnew. apply existsb_exists in Hex.
    destruct Hex as (c & Hin & Heq). apply String.eqb_eq in Heq.
    unfold company_names. rewrite <- Heq. apply in_map. exact Hin.
  - eexists _, _. split; reflexivity.
Qed.

Lemma load_companies_present : forall selected s,
  incl (map name selected) (company_names s) ->
  load_companies (map Ok selected) s = (Ok tt, s).
Proof.
  induction selected as [| c selected IH]; intros s Hincl; [reflexivity |].
  cbn [map load_companies].
  rewrite (bind_ok _ _ s c s) by reflexivity.
  unfold bind at 1, get_company_by_name.
  destruct (List.find _ (companies (db s))) as [c0 |] eqn:Hfind.
  - rewrite (bind_ok _ _ s tt s) by reflexivity.
    apply IH. intros n Hn. apply Hincl. right. exact Hn.
  - exfalso. apply find_name_None in Hfind. apply Hfind.
    apply Hincl. left. reflexivity.
Qed.

Lemma load_companies_loads : forall selected s,
  exists s' added,
    load_companies (map Ok selected) s = (Ok tt, s')
    /\ companies (db s') = companies (db s) ++ added
    /\ jobs (db s') = jobs (db s)
    /\ incl (map name added) (map name selected)
    /\ incl (map name selected) (company_names s')
    /\ (List.NoDup (company_names s) -> List.NoDup (company_names s')).
Proof.
  induction selected as [| c selected IH]; intros s.
  - exists s, []. rewrite app_nil_r. simpl.
    repeat (split; [reflexivity || (intros ? []) |]). auto.
  - cbn [map load_companies].
    rewrite (bind_ok _ _ s c s) by reflexivity.
    unfold bind at 1, get_company_by_name.
    destruct (List.find _ (companies (db s))) as [c0 |] eqn:Hfind.
    + rewrite (bind_ok _ _ s tt s) by reflexivity.
      destruct (IH s) as (s' & added & Hrun & Hrows & Hjobs & Hadded & Hall & Hnd).
      exists s', added. split; [exact Hrun |]. split; [exact Hrows |].
      split; [exact Hjobs |]. split; [| split; [| exact Hnd]].
      * intros n Hn. right. apply Hadded. exact Hn.
      * intros n [<- | Hn]; [| apply Hall; exact Hn].
        apply find_some in Hfind. destruct Hfind as [Hin Heq].
        apply String.eqb_eq in Heq. unfold company_names.
        rewrite Hrows, map_app. apply in_or_app. left.
        rewrite <- Heq. apply in_map. exact Hin.
    + apply find_name_None in Hfind.
      destruct (add_company_new c s Hfind) as (cid & row & Hadd & Hname).
      rewrite (bind_ok _ _ s tt _)
        by (rewrite (bind_ok _ _ _ _ _ Hadd); reflexivity).
      match goal with
      | |- context [load_companies _ ?st] =>
          destruct (IH st) as (s' & added & Hrun & Hrows & Hjobs & Hadded & Hall & Hnd)
      end.
      cbn [db set_db companies jobs] in Hrows, Hjobs.
      exists s', (row :: added). split; [exact Hrun |].
      split; [rewrite Hrows, <- app_assoc; reflexivity |].
      split; [exact Hjobs |]. split; [| split].
      * intros n [<- | Hn]; [left; symmetry; exact Hname | right; apply Hadded; exact Hn].
      * intros n [<- | Hn]; [| apply Hall; exact Hn].
        unfold company_names. rewrite Hrows, !map_app. apply in_or_app. left.
        apply in_or_app. right. left. exact Hname.
      * intros Hnd0. apply Hnd. unfold company_names. cbn [db set_db companies].
        rewrite map_app. simpl. apply NoDup_snoc; [exact Hnd0 |].
        rewrite Hname. exact Hfind.
Qed.

(** X27.  Loading the companies of [init] never meets the [UNIQUE]
    constraint on names and is idempotent: entries that are valid are
    all loaded without an exception, the rows that were in the table stay,
    only names of the entries are added, every entry's name is in the
    table afterwards, names that were unique stay unique, and loading the
    same entries again changes nothing. *)
Theorem load_companies_is_idempotent (selected : list Company) (s : State) :
  exists s' added,
    load_companies (map Ok selected) s = (Ok tt, s')
    /\ companies (db s') = companies (db s) ++ added
    /\ incl (map name added) (map name selected)
    /\ incl (map name selected) (company_names s')
    /\ (List.NoDup (company_names s) -> List.NoDup (company_names s'))
    /\ load_companies (map Ok selected) s' = (Ok tt, s').
Proof.
  destruct (load_companies_loads selected s)
    as (s' & added & Hrun & Hrows & _ & Hadded & Hall & Hnd).
  exists s', added. repeat (split; [assumption |]).
  apply load_companies_present. exact Hall.
Qed.

(** ** The jobs that wait for the analysis *)

(** X28.  A job that the scraper saved waits for the analysis until it is
    marked: after [add_job] of a job that is not processed, the new row is
    among the unprocessed jobs, and once [mark_job_processed] got the row
    id that [add_job] returned, the unprocessed jobs are those from before
    the insert again. *)
Theorem saved_job_waits_until_marked env job s i s1 :
  add_job env job s = (Ok i, s1) ->
  processed job = false ->
  (exists row,
      In row (value_or [] (fst (get_unprocessed_jobs None s1)))
      /\ id row = Some i
      /\ job_url_hash row = job_url_hash job)
  /\ fst (get_unprocessed_jobs None (snd (mark_job_processed i s1)))
     = fst (get_unprocessed_jobs None s).
Proof.
  intros Hadd Hproc.
  assert (Hfresh : forall r k, In r (jobs (db s)) -> id r = Some k -> k <> i).
  { intros r k Hin Hid. apply add_job_inv in Hadd.
    destruct Hadd as (_ & _ & -> & _).
    assert (k < next_id (map (fun j => default 0 (id j)) (jobs (db s)))); [| lia].
    apply next_id_above. apply in_map_iff. exists r. rewrite Hid. auto. }
  unfold add_job in Hadd.
  destruct (existsb _ (jobs (db s))); [discriminate |].
  destruct (existsb _ (jobs (db s))); [discriminate |].
  inversion Hadd as [[Hi Hs1]]. clear Hadd. rewrite Hi in *.
  split.
  - eexists. cbn [get_unprocessed_jobs fst value_or db set_db jobs].
    rewrite List.filter_app. split; [apply in_or_app; right |].
    + cbn [List.filter processed]. rewrite Hproc. left. reflexivity.
    + split; reflexivity.
  - unfold get_unprocessed_jobs, mark_job_processed.
    cbn [fst snd db set_db jobs]. f_equal.
    rewrite map_app, List.filter_app. cbn [map id]. rewrite Z.eqb_refl.
    cbn [List.filter processed negb]. rewrite app_nil_r.
    f_equal. transitivity (map (fun j => j) (jobs (db s))); [| apply map_id].
    apply map_ext_in. intros r Hr.
    destruct (id r) as [k |] eqn:Hid; [| reflexivity].
    rewrite (proj2 (Z.eqb_neq k i) (Hfresh r k Hr Hid)). reflexivity.
Qed.

Lemma saved_job_on_empty_table :
  fst (get_unprocessed_jobs None
         (snd (mark_job_processed 1
                 (snd (add_job detail_site (sample_job (sample_url 1)) initial_state)))))
  = Ok [].
Proof.
  exact (proj2 (saved_job_waits_until_marked detail_site (sample_job (sample_url 1))
                  initial_state 1
                  (snd (add_job detail_site (sample_job (sample_url 1)) initial_state))
                  eq_refl eq_refl)).
Defined.

(** ** The scrape command and the [companies] table *)

Lemma last_scraped_only_refl cid (rows : list Company) :
  Forall2 (last_scraped_only cid) rows rows.
Proof. induction rows; constructor; [left; reflexivity | assumption]. Qed.

Lemma last_scraped_only_trans cid : forall rows1 rows2 rows3 : list Company,
  Forall2 (last_scraped_only cid) rows1 rows2 ->
  Forall2 (last_scraped_only cid) rows2 rows3 ->
  Forall2 (last_scraped_only cid) rows1 rows3.
Proof.
  intros rows1 rows2 rows3 H12. revert rows3.
  induction H12 as [| c1 c2 rows1 rows2 Hc _ IH]; intros rows3 H23.
  - inversion H23. constructor.
  - inversion H23 as [| ? c3 ? rows3' Hc' Hrest]; subst.
    constructor; [| apply IH; exact Hrest].
    destruct Hc as [-> | (Hid & stamp & ->)]; [exact Hc' |].
    destruct Hc' as [-> | (Hid' & stamp' & ->)].
    + right. split; [exact Hid |]. exists stamp. reflexivity.
    + right. split; [exact Hid |]. exists stamp'. reflexivity.
Qed.

Lemma stamps_nothing {A} cid (m : M A) :
  (forall s, companies (db (snd (m s))) = companies (db s)) -> stamps_only cid m.
Proof. intros H s. rewrite H. apply last_scraped_only_refl. Qed.

Lemma stamps_bind {A B} cid (m : M A) (f : A -> M B) :
  stamps_only cid m -> (forall a, stamps_only cid (f a)) -> stamps_only cid (bind m f).
Proof.
  intros Hm Hf s. unfold bind. specialize (Hm s).
  destruct (m s) as [[a | e] s1]; simpl in *; [| exact Hm].
  eapply last_scraped_only_trans; [exact Hm | apply Hf].
Qed.

Lemma stamps_try {A} cid (m : M A) (h : string -> M A) :
  stamps_only cid m -> (forall e, stamps_only cid (h e)) ->
  stamps_only cid (try_except m h).
Proof.
  intros Hm Hh s. unfold try_except. specialize (Hm s).
  destruct (m s) as [[a | e] s1]; simpl in *; [exact Hm |].
  eapply last_scraped_only_trans; [exact Hm | apply Hh].
Qed.

Lemma stamps_update_company env cid :
  stamps_only cid (update_company_last_scraped env cid).
Proof.
  intros s. unfold update_company_last_scraped. cbn [snd db set_db companies].
  induction (companies (db s)) as [| c rows IH]; constructor; [| exact IH].
  destruct cid as [i |]; [| left; reflexivity].
  destruct (company_id_of c) as [j |] eqn:Hid; [| left; reflexivity].
  destruct (Z.eqb_spec i j) as [-> | Hne]; [| left; reflexivity].
  right. split; [exact Hid |]. eexists. rewrite Hid. reflexivity.
Qed.

Lemma stamps_save_jobs env cid : forall extracted_jobs n,
  stamps_only cid (save_jobs env extracted_jobs n).
Proof.
  induction extracted_jobs as [| job rest IH]; intros n.
  - apply stamps_nothing. reflexivity.
  - cbn [save_jobs]. apply stamps_bind; [| intros _; apply IH].
    apply stamps_nothing. intros s. unfold add_job.
    destruct (existsb _ (jobs (db s))); [reflexivity |].
    destruct (existsb _ (jobs (db s))); reflexivity.
Qed.

Lemma stamps_save_batches env cid company new_jobs : forall starts n,
  stamps_only cid (save_batches env company new_jobs starts n).
Proof.
  induction starts as [| b starts IH]; intros n.
  - apply stamps_nothing. reflexivity.
  - cbn [save_batches]. apply stamps_bind.
    + apply stamps_nothing. intros s.
      rewrite (keeps_db_extract_multiple_jobs _ _ _ _ _ s). reflexivity.
    + intros res. apply stamps_bind; [apply stamps_save_jobs | intros n'; apply IH].
Qed.

(** X29.  One turn of the scrape command changes nothing in the
    [companies] table but the [last_scraped] of the company it scrapes,
    however it ends: the table keeps its rows and their order, and every
    row is as it was or differs by [last_scraped] and has the id of that
    company. *)
Theorem scrape_company_stamps_its_company_only env company categories job_limit s :
  Forall2 (last_scraped_only (company_id_of company))
    (companies (db s))
    (companies (db (snd (scrape_company env company categories job_limit s)))).
Proof.
  revert s.
  change (stamps_only (company_id_of company)
            (scrape_company env company categories job_limit)).
  unfold scrape_company.
  apply stamps_bind; [apply stamps_nothing; reflexivity |].
  intros rid. apply stamps_try; [| intros e; apply stamps_nothing; reflexivity].
  unfold scrape_steps.
  apply stamps_bind.
  { apply stamps_nothing. intros s.
    rewrite (keeps_db_discover_all _ _ _ s). reflexivity. }
  intros found.
  apply stamps_bind; [apply stamps_nothing; reflexivity |].
  intros _.
  apply stamps_bind.
  { apply stamps_nothing. intros s. rewrite filter_new_eq. reflexivity. }
  intros new_jobs.
  destruct (apply_limit job_limit new_jobs) as [| l rest].
  { apply stamps_nothing. reflexivity. }
  apply stamps_bind; [apply stamps_nothing; reflexivity |].
  intros starts.
  apply stamps_bind; [apply stamps_save_batches |].
  intros saved_count.
  apply stamps_bind; [apply stamps_nothing; reflexivity |].
  intros _. apply stamps_update_company.
Qed.

(** ** The count of a run *)

Lemma save_jobs_count env : forall extracted_jobs n s n' s',
  save_jobs env extracted_jobs n s = (Ok n', s') ->
  exists added,
    jobs (db s') = jobs (db s) ++ added
    /\ n' = n + len added.
Proof.
  induction extracted_jobs as [| job rest IH]; intros n s n' s' H.
  - inversion H; subst. exists []. rewrite app_nil_r. unfold len. simpl.
    split; [reflexivity | lia].
  - cbn [save_jobs] in H.
    apply bind_inv_ok in H. destruct H as (i & s1 & Hadd & H).
    apply add_job_inv in Hadd.
    destruct Hadd as (_ & _ & _ & _ & _ & _ & row & Hrows & _).
    apply IH in H. destruct H as (added & Hrows' & ->).
    exists (row :: added). rewrite Hrows', Hrows, <- app_assoc.
    split; [reflexivity |]. unfold len. simpl length. lia.
Qed.

Lemma save_batches_count env company new_jobs : forall starts n s n' s',
  save_batches env company new_jobs starts n s = (Ok n', s') ->
  exists added,
    jobs (db s') = jobs (db s) ++ added
    /\ n' = n + len added.
Proof.
  induction starts as [| b starts IH]; intros n s n' s' H.
  - inversion H; subst. exists []. rewrite app_nil_r. unfold len. simpl.
    split; [reflexivity | lia].
  - cbn [save_batches] in H.
    apply bind_inv_ok in H. destruct H as (res & s1 & Hext & H).
    apply bind_inv_ok in H. destruct H as (n1 & s2 & Hsave & H).
    pose proof (keeps_db_extract_multiple_jobs env (batch_at batch_size new_jobs b)
                  (company_id_of company) (selectors company) batch_size s) as Hkeep.
    rewrite Hext in Hkeep. simpl in Hkeep.
    apply save_jobs_count in Hsave. destruct Hsave as (added1 & Hrows1 & ->).
    apply IH in H. destruct H as (added2 & Hrows2 & ->).
    exists (added1 ++ added2). rewrite Hrows2, Hrows1, Hkeep, <- app_assoc.
    split; [reflexivity |]. unfold len. rewrite length_app. lia.
Qed.

(** The steps of one company and the count of the run. *)
Lemma scrape_steps_count env company categories job_limit rows row s r s' :
  current_run s rows row ->
  jobs_scraped row = 0 ->
  scrape_steps env company categories job_limit (run_id row) s = (r, s') ->
  exists row',
    current_run s' rows row'
    /\ match r with
       | Ok _ =>
           exists added,
             jobs (db s') = jobs (db s) ++ added /\ jobs_scraped row' = len added
       | Raise _ =>
           (exists added, jobs (db s') = jobs (db s) ++ added)
           /\ jobs_scraped row' = 0
       end.
Proof.
  intros Hrun Hzero H. unfold scrape_steps in H.
  unfold bind at 1 in H.
  pose proof (keeps_db_discover_all env company categories s) as Hdisc.
  destruct (discover_all_jobs_for_company env company categories s)
    as [[found | e] s1]; simpl in Hdisc.
  2:{ inversion H; subst. exists row. split; [| split; [| exact Hzero]].
      - apply (current_run_kept s); [exact Hrun | rewrite Hdisc; reflexivity].
      - exists []. rewrite Hdisc, app_nil_r. reflexivity. }
  assert (Hrun1 : current_run s1 rows row)
    by (apply (current_run_kept s); [exact Hrun | rewrite Hdisc; reflexivity]).
  unfold bind at 1 in H.
  pose proof (current_run_updated env rows row (Some (len found)) None None None s1 Hrun1)
    as Hrun2.
  rewrite (update_current_run env rows row _ _ _ _ s1 Hrun1) in Hrun2, H.
  cbn [snd] in Hrun2.
  set (s2 := set_db s1 _) in *.
  set (row2 := update_run_row _ _ _ _ _ row) in *.
  assert (Hjobs2 : jobs (db s2) = jobs (db s))
    by (unfold s2; cbn [db set_db jobs]; rewrite Hdisc; reflexivity).
  change (run_id row) with (run_id row2) in H.
  unfold bind at 1 in H. rewrite filter_new_eq in H.
  destruct (apply_limit job_limit (new_listings (db s2) found)) as [| l new_jobs].
  - rewrite (update_current_run env rows row2 _ _ _ _ s2 Hrun2) in H.
    inversion H; subst.
    eexists. split; [split; [reflexivity | exact (proj2 Hrun2)] |].
    exists []. cbn [db set_db jobs jobs_scraped update_run_row default].
    rewrite app_nil_r. split; [exact Hjobs2 | exact Hzero].
  - unfold bind at 1 in H. rewrite lift_eq in H.
    destruct (py_range 0 (len (l :: new_jobs)) batch_size) as [starts | e].
    2:{ inversion H; subst. exists row2. split; [exact Hrun2 | split; [| exact Hzero]].
        exists []. rewrite Hjobs2, app_nil_r. reflexivity. }
    unfold bind at 1 in H.
    pose proof (keeps_runs_save_batches env company (l :: new_jobs) starts 0 s2) as Hsave.
    destruct (save_batches env company (l :: new_jobs) starts 0 s2)
      as [[saved_count | e] s3] eqn:Hbatches; simpl in Hsave.
    2:{ inversion H; subst. exists row2. split; [| split; [| exact Hzero]].
        - apply (current_run_kept s2); [exact Hrun2 | exact Hsave].
        - destruct (appends_save_batches env company (l :: new_jobs) starts 0 s2)
            as (added & Hadded & _).
          rewrite Hbatches in Hadded. cbn [snd] in Hadded.
          exists added. rewrite Hadded. f_equal. exact Hjobs2. }
    assert (Hrun3 : current_run s3 rows row2)
      by (apply (current_run_kept s2); [exact Hrun2 | exact Hsave]).
    apply save_batches_count in Hbatches. destruct Hbatches as (added & Hrows & Hcount).
    unfold bind at 1 in H.
    rewrite (update_current_run env rows row2 _ _ _ _ s3 Hrun3) in H.
    inversion H; subst.
    eexists. split; [split; [reflexivity | exact (proj2 Hrun3)] |].
    exists added.
    cbn [db set_db jobs jobs_scraped update_run_row default update_company_last_scraped
         snd].
    split; [rewrite Hrows; f_equal; exact Hjobs2 | reflexivity].
Qed.

(** X30.  The count of a run: when a run is [completed], its
    [jobs_scraped] is the number of rows that the turn added to the [jobs]
    table; when it is [failed], [jobs_scraped] is 0, whatever was saved
    before the failure. *)
Theorem run_counts_the_saved_jobs env company categories job_limit s :
  exists s' row added,
    scrape_company env company categories job_limit s = (Ok tt, s')
    /\ scrape_runs (db s') = scrape_runs (db s) ++ [row]
    /\ jobs (db s') = jobs (db s) ++ added
    /\ ((status row = Some "completed"%string /\ jobs_scraped row = len added)
        \/ (status row = Some "failed"%string /\ jobs_scraped row = 0)).
Proof.
  unfold scrape_company, bind, create_scrape_run.
  set (rows := scrape_runs (db s)).
  set (row0 := {| run_id := next_id (map run_id rows) |}).
  set (s0 := set_db s _).
  assert (Hrun0 : current_run s0 rows row0) by (split; reflexivity).
  change (next_id (map run_id rows)) with (run_id row0).
  unfold try_except.
  destruct (scrape_steps env company categories job_limit (run_id row0) s0)
    as [[[] | e] s1] eqn:Hsteps;
    destruct (scrape_steps_count env company categories job_limit rows row0 s0 _ _
                Hrun0 eq_refl Hsteps) as (row1 & Hrun1 & Hcount);
    destruct (scrape_steps_run env company categories job_limit rows row0 s0 _ _
                Hrun0 Hsteps) as (row1' & Hrun1' & _ & Hstatus).
  - assert (row1' = row1).
    { destruct Hrun1 as [Hr1 _]. destruct Hrun1' as [Hr1' _]. rewrite Hr1 in Hr1'.
      apply app_inj_tail in Hr1'. symmetry. tauto. }
    subst row1'. destruct Hcount as (added & Hrows & Hcount).
    exists s1, row1, added. split; [reflexivity |].
    split; [exact (proj1 Hrun1) |]. split; [exact Hrows |].
    left. split; [exact (proj1 Hstatus) | exact Hcount].
  - destruct Hcount as ((added & Hrows) & Hcount).
    assert (Hid : run_id row0 = run_id row1) by (destruct Hrun1 as [_ ->]; reflexivity).
    rewrite Hid.
    rewrite (update_current_run env rows row1 _ _ _ _ s1 Hrun1).
    eexists _, _, added. split; [reflexivity |]. split; [reflexivity |].
    split; [exact Hrows |].
    right. split; [reflexivity | exact Hcount].
Qed.
